(** * NaniShiteruSensei: lecture audio -> transcript -> translation / notes

    A shallow embedding of the three pipeline scripts
    ([lecture_notes_ollama.py], [transcribe_lecture.py],
    [translate_jp_to_en_ollama.py]) and the properties of their chunking
    and aggregation code.

    Python [str] values are sequences of Unicode code points, so a text is
    a [list Z] of code points and [len] counts code points.  Python [int]
    is [Z]; list positions are [nat].  Console progress output ([print])
    is not part of the model. *)

From Stdlib Require Import ZArith List Bool Lia String Ascii.
From Stdlib Require Import Sorting.Permutation Sorting.Sorted.
From Stdlib Require Import Floats.SpecFloat.
From stdpp Require Import gmap list sorting.
Import ListNotations.

Local Open Scope Z_scope.

(* ===================================================================== *)
(** ** Python strings                                                     *)
(* ===================================================================== *)

Definition text := list Z.

Definition len {A} (s : list A) : Z := Z.of_nat (length s).

(** Source literals are written as UTF-8 string literals and decoded to
    code points. *)
Fixpoint utf8_decode (bs : list Z) : text :=
  match bs with
  | [] => []
  | b0 :: r0 =>
    if b0 <? 0x80 then b0 :: utf8_decode r0
    else
      match r0 with
      | [] => [b0]
      | b1 :: r1 =>
        if b0 <? 0xE0 then
          ((b0 - 0xC0) * 64 + (b1 - 0x80)) :: utf8_decode r1
        else
          match r1 with
          | [] => [b0; b1]
          | b2 :: r2 =>
            if b0 <? 0xF0 then
              ((b0 - 0xE0) * 4096 + (b1 - 0x80) * 64 + (b2 - 0x80))
                :: utf8_decode r2
            else
              match r2 with
              | [] => [b0; b1; b2]
              | b3 :: r3 =>
                ((b0 - 0xF0) * 262144 + (b1 - 0x80) * 4096
                 + (b2 - 0x80) * 64 + (b3 - 0x80)) :: utf8_decode r3
              end
          end
      end
  end.

Definition lit (s : string) : text :=
  utf8_decode (List.map (fun a => Z.of_N (N_of_ascii a)) (list_ascii_of_string s)).

Definition NL : Z := 10.
Definition CR : Z := 13.

(** [str.isspace] for one code point: the characters CPython treats as
    whitespace (bidirectional class WS, B or S, or category Zs). *)
Definition isspace (c : Z) : bool :=
  ((0x09 <=? c) && (c <=? 0x0D))
  || ((0x1C <=? c) && (c <=? 0x20))
  || (c =? 0x85) || (c =? 0xA0) || (c =? 0x1680)
  || ((0x2000 <=? c) && (c <=? 0x200A))
  || (c =? 0x2028) || (c =? 0x2029) || (c =? 0x202F) || (c =? 0x205F)
  || (c =? 0x3000).

(** Truthiness of a [str]: [if s] / [if not s]. *)
Definition truthy (s : text) : bool :=
  match s with [] => false | _ :: _ => true end.

(** Truthiness of a [list]. *)
Definition nonempty {A} (l : list A) : bool :=
  match l with [] => false | _ :: _ => true end.

Fixpoint str_lstrip (s : text) : text :=
  match s with
  | [] => []
  | c :: s' => if isspace c then str_lstrip s' else s
  end.

Definition str_rstrip (s : text) : text := rev (str_lstrip (rev s)).

(** [s.strip()] *)
Definition str_strip (s : text) : text := str_rstrip (str_lstrip s).

Fixpoint startswith (p s : text) : bool :=
  match p, s with
  | [], _ => true
  | a :: p', b :: s' => (a =? b) && startswith p' s'
  | _ :: _, [] => false
  end.

Definition endswith (p s : text) : bool := startswith (rev p) (rev s).

(** [s.replace(old, new)] for a non-empty [old]: every non-overlapping
    occurrence, scanning left to right.  [skip] counts the characters of
    the occurrence just replaced that are still to be passed over. *)
Fixpoint str_replace_from (old new : text) (skip : nat) (s : text) : text :=
  match s with
  | [] => []
  | c :: s' =>
    match skip with
    | S k => str_replace_from old new k s'
    | O =>
      if startswith old s
      then new ++ str_replace_from old new (length old - 1) s'
      else c :: str_replace_from old new 0 s'
    end
  end.

Definition str_replace (old new s : text) : text := str_replace_from old new 0 s.

Definition cons_head (c : Z) (parts : list text) : list text :=
  match parts with
  | [] => [[c]]
  | p :: ps => (c :: p) :: ps
  end.

(** [s.split(sep)] for a non-empty [sep]. *)
Fixpoint str_split_from (sep : text) (skip : nat) (s : text) : list text :=
  match s with
  | [] => [[]]
  | c :: s' =>
    match skip with
    | S k => str_split_from sep k s'
    | O =>
      if startswith sep s
      then [] :: str_split_from sep (length sep - 1) s'
      else cons_head c (str_split_from sep 0 s')
    end
  end.

Definition str_split (sep s : text) : list text := str_split_from sep 0 s.

(** [sep.join(parts)] *)
Fixpoint str_join (sep : text) (parts : list text) : text :=
  match parts with
  | [] => []
  | [p] => p
  | p :: ps => p ++ sep ++ str_join sep ps
  end.

(** [str(n)] for an [int]: the decimal digits, after a minus sign if
    [n] is negative. *)
Fixpoint digits_from (fuel : nat) (n : Z) (acc : text) : text :=
  let acc' := (48 + n mod 10) :: acc in
  match fuel with
  | O => acc'
  | S f => if n <? 10 then acc' else digits_from f (n / 10) acc'
  end.

Definition str_of_int (n : Z) : text :=
  if n <? 0 then 45 :: digits_from (Z.to_nat (Z.log2 (- n))) (- n) []
  else digits_from (Z.to_nat (Z.log2 n)) n [].

(** [s.rfind(c)]: index of the last occurrence of [c], or -1. *)
Fixpoint rfind_from (c : Z) (s : text) (i best : Z) : Z :=
  match s with
  | [] => best
  | x :: s' => rfind_from c s' (i + 1) (if x =? c then i else best)
  end.

Definition rfind (c : Z) (s : text) : Z := rfind_from c s 0 (-1).

(** Comparison of [str] values: lexicographic on code points. *)
Fixpoint text_leb (a b : text) : bool :=
  match a, b with
  | [], _ => true
  | _ :: _, [] => false
  | x :: a', y :: b' =>
    if x <? y then true else if y <? x then false else text_leb a' b'
  end.

(* ===================================================================== *)
(** ** Python values, exceptions and the outside world                    *)
(* ===================================================================== *)

(** Values stored in the dictionaries the collaborators return. *)
Inductive pyval :=
| PNone
| PBool (b : bool)
| PInt (n : Z)
| PStr (s : text)
| POther.

(** What [resp.json()] can give: a dictionary, or some other JSON value. *)
Inductive json :=
| JDict (d : gmap text pyval)
| JOther.

Inductive exn :=
| HTTPError (status : Z)
| RequestException
| JSONDecodeError
| AttributeError
| CalledProcessError (returncode : Z)
| OSError
| FileExistsError
| UnicodeEncodeError
| RuntimeError
| SystemExit (code : Z).

(** [pathlib] paths, as their components. *)
Definition path := list text.

Definition path_name (p : path) : text := List.last p [].
Definition path_parent (p : path) : path := removelast p.
Definition path_div (p : path) (n : text) : path := p ++ [n].
Definition path_with_name (p : path) (n : text) : path := removelast p ++ [n].
Definition path_str (p : path) : text := str_join (lit "/") p.

Definition path_stem (p : path) : text :=
  let name := path_name p in
  let i := rfind 46 name in
  if (0 <? i) && (i <? len name - 1) then firstn (Z.to_nat i) name else name.

(** Paths compare by their components, each compared as a [str]. *)
Fixpoint path_leb (p q : path) : bool :=
  match p, q with
  | [], _ => true
  | _ :: _, [] => false
  | a :: p', b :: q' =>
    if text_leb a b && text_leb b a then path_leb p' q' else text_leb a b
  end.

Definition path_ltb (p q : path) : bool := negb (path_leb q p).

(** [sorted(paths)]: a stable sort that only asks [<]. *)
Fixpoint insert_sorted (x : path) (l : list path) : list path :=
  match l with
  | [] => [x]
  | y :: l' => if path_ltb x y then x :: l else y :: insert_sorted x l'
  end.

Fixpoint sorted (l : list path) : list path :=
  match l with
  | [] => []
  | x :: l' => insert_sorted x (sorted l')
  end.

Record payload := Payload {
  p_model : text;
  p_prompt : text;
  p_stream : bool
}.

Record response := Response {
  status_code : Z;
  body : option json
}.

(** Everything a run does to the outside world, in order, with the
    outcome of every step that can fail.  [EvMkdir] is
    [mkdir(exist_ok=True)], which raises when the directory cannot be
    made (a file of that name exists, no permission).  [EvWrite] is one
    call of [write_text]: with an exception as its outcome the file may
    still have been created, and be empty or cut short. *)
Inductive event :=
| EvPost (url : text) (json_payload : payload) (timeout : Z)
         (result : exn + response)
| EvMkdir (dir : path) (result : exn + unit)
| EvRun (cmd : list text) (result : exn + Z)
| EvGlob (dir : path) (matches : list path)
| EvLoadModel (model_name device : text) (result : exn + unit)
| EvTranscribe (audio : text) (language task : text) (fp16 : bool)
               (result : exn + gmap text pyval)
| EvWrite (p : path) (content : text) (result : exn + unit).

(** The collaborators.  The file system, the LLM backend, the demuxer
    and the ASR model are not deterministic functions of their
    arguments, so each answer may depend on everything that has happened
    so far. *)
Record world := World {
  fs_exists : path -> bool;
  fs_read_text : path -> exn + text;
  fs_listdir : list event -> path -> list text;
  fs_mkdir : list event -> path -> exn + unit;
  fs_write_text : list event -> path -> text -> exn + unit;
  http_post : list event -> text -> payload -> Z -> exn + response;
  run_process : list event -> list text -> exn + Z;
  mps_is_available : bool;
  whisper_load_model : list event -> text -> text -> exn + unit;
  whisper_transcribe : list event -> text -> text -> text -> bool
                       -> exn + gmap text pyval
}.

(** Computations that append to the trace of events and may raise. *)
Definition M (A : Type) : Type := list event -> (exn + A) * list event.

Definition ret {A} (a : A) : M A := fun tr => (inr a, tr).

Definition raise {A} (e : exn) : M A := fun tr => (inl e, tr).

Definition bind {A B} (m : M A) (k : A -> M B) : M B :=
  fun tr =>
    match m tr with
    | (inl e, tr') => (inl e, tr')
    | (inr a, tr') => k a tr'
    end.

Notation "'let*' x ':=' m 'in' k" := (bind m (fun x => k))
  (at level 10, x name, m at level 100, k at level 200).

(** A call to a collaborator: ask the world, log the call with its
    outcome, and raise if the outcome is an exception. *)
Definition perform {A} (ask : list event -> exn + A)
           (log : (exn + A) -> event) : M A :=
  fun tr => let r := ask tr in (r, tr ++ [log r]).

Definition requests_post (w : world) (url : text) (json_payload : payload)
           (timeout : Z) : M response :=
  perform (fun tr => http_post w tr url json_payload timeout)
          (EvPost url json_payload timeout).

(** [resp.raise_for_status()]: client and server error codes raise. *)
Definition is_error_status (status : Z) : bool :=
  (400 <=? status) && (status <? 600).

Definition raise_for_status (resp : response) : M unit :=
  if is_error_status (status_code resp)
  then raise (HTTPError (status_code resp))
  else ret tt.

Definition resp_json (resp : response) : M json :=
  match body resp with
  | None => raise JSONDecodeError
  | Some j => ret j
  end.

(** [data.get(key, dflt)] *)
Definition py_get (data : json) (key : text) (dflt : pyval) : M pyval :=
  match data with
  | JDict d => ret (default dflt (d !! key))
  | JOther => raise AttributeError
  end.

(** [v.strip()] *)
Definition py_strip (v : pyval) : M text :=
  match v with
  | PStr s => ret (str_strip s)
  | _ => raise AttributeError
  end.

Definition load_text (w : world) (p : path) : M text :=
  fun tr => (fs_read_text w p, tr).

(** [p.write_text(content, encoding="utf-8")]: the file is opened for
    writing, which creates or empties it, and the text is encoded and
    written.  Each of these steps can raise ([OSError] from the file
    system, [UnicodeEncodeError] on a text that UTF-8 cannot encode), so
    a write that raised may have left the file empty or cut short. *)
Definition write_text (w : world) (p : path) (content : text) : M unit :=
  perform (fun tr => fs_write_text w tr p content) (EvWrite p content).

(* ===================================================================== *)
(** ** lecture_notes_ollama.py                                            *)
(* ===================================================================== *)

Module lecture_notes_ollama.

Definition call_ollama (w : world) (prompt model host : text) : M text :=
  let url := host ++ lit "/api/generate" in
  let payload :=
    {| p_model := model; p_prompt := prompt; p_stream := false |} in
  let* resp := requests_post w url payload 600 in
  let* _ := raise_for_status resp in
  let* data := resp_json resp in
  let* v := py_get data (lit "response") (PStr []) in
  py_strip v.

(** The loop state of [chunk_text]: the three local variables. *)
Record chunk_state := ChunkState {
  chunks : list text;
  current : list text;
  current_len : Z
}.

(** One iteration of [for line in text.split("\n")]. *)
Definition chunk_step (max_chars : Z) (st : chunk_state) (line : text) : chunk_state :=
  let line := str_strip line in
  let line := if negb (truthy line) then [] else line in
  if (current_len st + len line + 1 >? max_chars) && nonempty (current st)
  then {| chunks := chunks st ++ [str_strip (str_join [NL] (current st))];
          current := [line];
          current_len := len line + 1 |}
  else {| chunks := chunks st;
          current := current st ++ [line];
          current_len := current_len st + len line + 1 |}.

Definition chunk_loop (max_chars : Z) (lines : list text) : chunk_state :=
  fold_left (chunk_step max_chars) lines
            {| chunks := []; current := []; current_len := 0 |}.

Definition normalize_newlines (t : text) : text :=
  str_replace [CR] [NL] (str_replace [CR; NL] [NL] t).

Definition chunk_text (t : text) (max_chars : Z) : list text :=
  let t := normalize_newlines t in
  let st := chunk_loop max_chars (str_split [NL] t) in
  let chunks :=
    if nonempty (current st)
    then chunks st ++ [str_strip (str_join [NL] (current st))]
    else chunks st in
  List.filter truthy chunks.

Definition summarize_chunk (w : world) (chunk_text : text)
           (part_idx total_parts : Z) (model host : text) : M text :=
  let prompt :=
    lit "あなたは日本の大学講義ノートを作るアシスタントです。
以下は講義文字起こしの一部です。（Part "
    ++ str_of_int part_idx ++ lit "/" ++ str_of_int total_parts
    ++ lit "）

この部分だけについて、後で全体をまとめるための「メモ用の箇条書き」を作ってください。

条件:
- 日本語で書く
- 箇条書き 3〜6 個
- 重要な用語・人名・地名・時代名はできるだけそのまま残す
- 簡潔に要点だけまとめる
- 文章の順番は、流れが分かりやすいように並べる

=== Transcript Part "
    ++ str_of_int part_idx ++ lit "/" ++ str_of_int total_parts
    ++ lit " ===
"
    ++ chunk_text
    ++ lit "
==========================================

出力は、日本語の箇条書きだけにしてください。
「Part ○○」などの余計なヘッダーや説明文は書かないでください。
" in
  call_ollama w prompt model host.

(** The text of the final prompt before and after [{merged_summaries}]. *)
Definition final_prompt_head : text :=
  lit "あなたは、日本の大学で勉強している留学生のための
「分かりやすい講義ノート作成アシスタント」です。

以下に、講義全体の要約メモ（各パートごとの箇条書き）が与えられます。
これらをもとに、１つの講義ノートを作ってください。

学生は:
- 日本語が第３言語
- テスト対策とレポート作成に使いたい
- 歴史や概念の因果関係を理解したい
- 重要な用語は日本語でしっかり覚えたい

出力フォーマットは**必ず**次の見出し・順番で作ってください。
見出しは「### 見出し名」の形で書いてください。

1. 今日のテーマ
2. 重要キーワード
3. 理解ポイント
4. 試験に出そうなところ
5. Definitions Cheat Sheet
6. 要点5行まとめ
7. Q&A Flashcards
8. メモ：先生の強調ポイント

それぞれのセクションの指示:

### 今日のテーマ
- 講義全体が何についてだったかを、日本語で2〜4文でまとめる。

### 重要キーワード
- 箇条書き。
- 形式の例:
  ・用語: 日本語で1〜2行の説明
- 人名・地名・時代名・概念を中心に。

### 理解ポイント
- 日本語で、因果関係や流れが分かるように説明。
- 箇条書きでも短い段落でもOK。
- 「なぜ〜が起きたか」「どの勢力がどう動いたか」「結果どうなったか」を意識する。

### 試験に出そうなところ
- 記述式や小論文で出そうな設問を日本語で3〜6個作る。
- 「〜について説明せよ」「〜の特徴を述べよ」などの形。

### Definitions Cheat Sheet
- 用語辞書（超短く）。
- 形式:
  用語: 一言で意味（日本語）
- 5〜10語程度でOK。

### 要点5行まとめ
- 日本語で5つの文にまとめる。
- ①〜⑤の番号付きで。

### Q&A Flashcards
- 暗記用の質問と答えを3〜8セット作る。
- 形式:
  Q: （日本語の質問）
  A: （日本語の答え）

### メモ：先生の強調ポイント
- 講義の中で強調されていそうなテーマや、何度も出てきた考え方を日本語で箇条書き。

--------------------------------
【講義メモ（パートごと）】
".

Definition final_prompt_tail : text :=
  lit "
--------------------------------

それでは、指示したフォーマットに従って講義ノートを作成してください。
".

(** [f"[Part {i+1}]\n{summaries[i]}"] for [i] in [range(len(summaries))],
    starting at position [i]. *)
Fixpoint part_blocks (i : Z) (summaries : list text) : list text :=
  match summaries with
  | [] => []
  | s :: rest =>
    (lit "[Part " ++ str_of_int (i + 1) ++ lit "]" ++ [NL] ++ s)
      :: part_blocks (i + 1) rest
  end.

Definition final_prompt (summaries : list text) : text :=
  let merged_summaries := str_join [NL; NL] (part_blocks 0 summaries) in
  final_prompt_head ++ merged_summaries ++ final_prompt_tail.

Definition build_final_notes_from_summaries (w : world)
           (summaries : list text) (model host : text) : M text :=
  call_ollama w (final_prompt summaries) model host.

Record args := Args {
  transcript_file : path;
  model : text;
  host : text;
  chunk_chars : Z
}.

(** [for i, chunk in enumerate(chunks, start=1)]: the rest of the loop
    from position [i], with the summaries collected so far. *)
Fixpoint summarize_all (w : world) (model host : text) (total : Z)
         (i : Z) (chunks : list text) (summaries : list text)
  : M (list text) :=
  match chunks with
  | [] => ret summaries
  | chunk :: rest =>
    let* summary := summarize_chunk w chunk i total model host in
    summarize_all w model host total (i + 1) rest (summaries ++ [summary])
  end.

Definition main (w : world) (a : args) : M unit :=
  let transcript_path := transcript_file a in
  if negb (fs_exists w transcript_path) then ret tt
  else
    let* t := load_text w transcript_path in
    let chunks := chunk_text t (chunk_chars a) in
    let* summaries :=
      summarize_all w (model a) (host a) (len chunks) 1 chunks [] in
    let* final_notes :=
      build_final_notes_from_summaries w summaries (model a) (host a) in
    let out_path :=
      path_with_name transcript_path
        (path_stem transcript_path ++ lit "_NOTES_ollama.txt") in
    write_text w out_path final_notes.

End lecture_notes_ollama.

(* ===================================================================== *)
(** ** transcribe_lecture.py                                              *)
(* ===================================================================== *)

(** Python [float]: IEEE 754 binary64, as the standard library specifies
    it ([prec = 53], [emax = 1024]). *)
Definition float := spec_float.

Definition float_of_int (n : Z) : float :=
  match n with
  | Z0 => S754_zero false
  | Zpos p => S754_finite false p 0
  | Zneg p => S754_finite true p 0
  end.

(** [a / b] on two [int]s with [b <> 0]: the correctly rounded quotient. *)
Definition truediv (a b : Z) : float :=
  SFdiv 53 1024 (float_of_int a) (float_of_int b).

(** [x >= y] on floats; false when either is NaN. *)
Definition float_ge (x y : float) : bool := SFleb y x.

(** The float literals [0.3], [1.0] and [0.0]. *)
Definition float_0_3 : float := S754_finite false 5404319552844595 (-54).
Definition float_1 : float := S754_finite false 4503599627370496 (-52).
Definition float_0 : float := S754_zero false.

Module transcribe_lecture.

(** The name the demuxer gives segment [i] for the output pattern
    [chunk_%03d.m4a]: the index in decimal, zero-padded to three digits. *)
Definition zfill3 (d : text) : text := repeat 48 (3 - length d)%nat ++ d.

Definition chunk_file_name (i : Z) : text :=
  lit "chunk_" ++ zfill3 (str_of_int i) ++ lit ".m4a".

(** Does a file name match the glob pattern [chunk_*.m4a]? *)
Definition matches_chunk_glob (name : text) : bool :=
  startswith (lit "chunk_") name && endswith (lit ".m4a") name
  && (10 <=? len name).

(** [chunk_dir.glob("chunk_*.m4a")], in the order the directory lists
    its entries. *)
Definition glob_chunks (w : world) (chunk_dir : path) : M (list path) :=
  fun tr =>
    let names := List.filter matches_chunk_glob (fs_listdir w tr chunk_dir) in
    let found := List.map (path_div chunk_dir) names in
    (inr found, tr ++ [EvGlob chunk_dir found]).

(** [subprocess.run(cmd, check=True)] *)
Definition subprocess_run_check (w : world) (cmd : list text) : M unit :=
  let* returncode := perform (fun tr => run_process w tr cmd) (EvRun cmd) in
  if returncode =? 0 then ret tt else raise (CalledProcessError returncode).

(** [input_path.parent / f"{input_path.stem}_chunks"] *)
Definition chunk_dir_of (input_path : path) : path :=
  path_div (path_parent input_path) (path_stem input_path ++ lit "_chunks").

Definition ffmpeg_cmd (input_path : path) (chunk_seconds : Z) : list text :=
  let output_pattern := path_div (chunk_dir_of input_path) (lit "chunk_%03d.m4a") in
  [ lit "ffmpeg"; lit "-i"; path_str input_path; lit "-f"; lit "segment";
    lit "-segment_time"; str_of_int chunk_seconds; lit "-c"; lit "copy";
    path_str output_pattern ].

Definition split_audio (w : world) (input_path : path) (chunk_seconds : Z)
  : M (list path) :=
  let chunk_dir := chunk_dir_of input_path in
  let* _ := perform (fun tr => fs_mkdir w tr chunk_dir) (EvMkdir chunk_dir) in
  let cmd := ffmpeg_cmd input_path chunk_seconds in
  let* _ := subprocess_run_check w cmd in
  let* found := glob_chunks w chunk_dir in
  let chunks := sorted found in
  if negb (nonempty chunks) then raise (SystemExit 1) else ret chunks.

(** One match of the character class [[ぁ-んァ-ン一-龯]]. *)
Definition is_jp_char (c : Z) : bool :=
  ((0x3041 <=? c) && (c <=? 0x3093))
  || ((0x30A1 <=? c) && (c <=? 0x30F3))
  || ((0x4E00 <=? c) && (c <=? 0x9FAF)).

Definition looks_like_japanese (t : text) (threshold : float) : bool :=
  if negb (truthy t) then false
  else
    let jp_chars := List.filter is_jp_char t in
    let ratio := truediv (len jp_chars) (Z.max (len t) 1) in
    float_ge ratio threshold.

(** The two kinds of entry appended to [all_texts]. *)
Definition noisy_entry (i : Z) (t : text) : text :=
  [NL] ++ lit "[? 非日本語っぽいチャンク " ++ str_of_int i ++ lit "] " ++ t ++ [NL].

Definition chunk_entry (i : Z) (chunk_path : path) (t : text) : text :=
  [NL] ++ lit "----- [Chunk " ++ str_of_int i ++ lit "] "
  ++ path_name chunk_path ++ lit " -----" ++ [NL] ++ t ++ [NL].

Definition model_transcribe (w : world) (audio language task : text)
           (fp16 : bool) : M (gmap text pyval) :=
  perform (fun tr => whisper_transcribe w tr audio language task fp16)
          (EvTranscribe audio language task fp16).

(** [for i, chunk_path in enumerate(chunks, start=1)]: the rest of the
    loop from position [i], with [all_texts] as collected so far. *)
Fixpoint transcribe_loop (w : world) (language : text) (i : Z)
         (chunks : list path) (all_texts : list text) : M (list text) :=
  match chunks with
  | [] => ret all_texts
  | chunk_path :: rest =>
    let* result :=
      model_transcribe w (path_str chunk_path) language (lit "transcribe") false in
    let* t := py_strip (default (PStr []) (result !! lit "text")) in
    if negb (truthy t) then
      transcribe_loop w language (i + 1) rest all_texts
    else if negb (looks_like_japanese t float_0_3) then
      transcribe_loop w language (i + 1) rest
                      (all_texts ++ [noisy_entry i t])
    else
      transcribe_loop w language (i + 1) rest
                      (all_texts ++ [chunk_entry i chunk_path t])
  end.

Definition transcribe_chunks (w : world) (chunks : list path)
           (model_name language : text) : M text :=
  let device := if mps_is_available w then lit "mps" else lit "cpu" in
  let* _ := perform (fun tr => whisper_load_model w tr model_name device)
                    (EvLoadModel model_name device) in
  let* all_texts := transcribe_loop w language 1 chunks [] in
  let full_text := str_strip (str_join [NL] all_texts) in
  ret full_text.

Record args := Args {
  audio_file : path;
  chunk : Z;
  model : text;
  language : text
}.

Definition main (w : world) (a : args) : M unit :=
  let audio_path := audio_file a in
  if negb (fs_exists w audio_path) then raise (SystemExit 1)
  else
    let* chunks := split_audio w audio_path (chunk a) in
    let* full_text := transcribe_chunks w chunks (model a) (language a) in
    let out_path :=
      path_with_name audio_path (path_stem audio_path ++ lit "_transcript_ja.txt") in
    write_text w out_path full_text.

End transcribe_lecture.

(* ===================================================================== *)
(** ** translate_jp_to_en_ollama.py                                       *)
(* ===================================================================== *)

Module translate_jp_to_en_ollama.

Definition call_ollama (w : world) (prompt model host : text) : M text :=
  let url := host ++ lit "/api/generate" in
  let payload :=
    {| p_model := model; p_prompt := prompt; p_stream := false |} in
  let* resp := requests_post w url payload 600 in
  let* _ := raise_for_status resp in
  let* data := resp_json resp in
  let* v := py_get data (lit "response") (PStr []) in
  py_strip v.

(** The chunking loop of [main]: its three local variables. *)
Record chunk_state := ChunkState {
  chunks : list text;
  current : list text;
  cur_len : Z
}.

(** One iteration of [for para in paragraphs]. *)
Definition para_step (max_chars : Z) (st : chunk_state) (para : text) : chunk_state :=
  let para := str_strip para in
  if negb (truthy para) then st
  else if (cur_len st + len para + 2 >? max_chars) && nonempty (current st)
  then {| chunks := chunks st ++ [str_join [NL; NL] (current st)];
          current := [para];
          cur_len := len para + 2 |}
  else {| chunks := chunks st;
          current := current st ++ [para];
          cur_len := cur_len st + len para + 2 |}.

(** Lines 63 to 82 of [main]: from [jp_text] to [chunks]. *)
Definition chunk_paragraphs (jp_text : text) (max_chars : Z) : list text :=
  let t := str_replace [CR] [NL] (str_replace [CR; NL] [NL] jp_text) in
  let paragraphs := str_split [NL; NL] t in
  let st := fold_left (para_step max_chars) paragraphs
                      {| chunks := []; current := []; cur_len := 0 |} in
  if nonempty (current st)
  then chunks st ++ [str_join [NL; NL] (current st)]
  else chunks st.

Definition translate_prompt (ch : text) : text :=
  lit "You are a careful bilingual assistant.

Translate the following Japanese academic text into clear, natural English.
It is a university lecture transcript or notes.

Requirements:
- Preserve technical terms (names, places, era names) accurately.
- Use full sentences.
- Keep paragraph breaks where it makes sense.
- Do NOT summarize; translate as faithfully as possible.
- Do NOT add explanations or comments, just the translation.

[Japanese text begins]
"
  ++ ch
  ++ lit "
[Japanese text ends]

Now provide the English translation:
".

(** [for i, ch in enumerate(chunks, start=1)] *)
Fixpoint translate_all (w : world) (model host : text)
         (chunks : list text) (translated_chunks : list text)
  : M (list text) :=
  match chunks with
  | [] => ret translated_chunks
  | ch :: rest =>
    let* en := call_ollama w (translate_prompt ch) model host in
    translate_all w model host rest (translated_chunks ++ [en])
  end.

Record args := Args {
  input_file : path;
  model : text;
  host : text;
  max_chars : Z
}.

Definition main (w : world) (a : args) : M unit :=
  let input_path := input_file a in
  if negb (fs_exists w input_path) then ret tt
  else
    let* jp_text := load_text w input_path in
    let chunks := chunk_paragraphs jp_text (max_chars a) in
    let* translated_chunks := translate_all w (model a) (host a) chunks [] in
    let out_path :=
      path_with_name input_path (path_stem input_path ++ lit "_EN.txt") in
    write_text w out_path (str_join [NL; NL] translated_chunks).

End translate_jp_to_en_ollama.

(* ===================================================================== *)
(** * Specification vocabulary                                            *)
(* ===================================================================== *)

(** ** Short names for the three scripts *)

Module LN := lecture_notes_ollama.
Module TR := translate_jp_to_en_ollama.
Module TL := transcribe_lecture.

(** ** Segmentation *)

(** The non-whitespace characters of a text, in order. *)
Definition content (s : text) : text :=
  List.filter (fun c => negb (isspace c)) s.

(** All the text a loop state holds: closed chunks, then the accumulator. *)
Definition held (st : LN.chunk_state) : text :=
  content (concat (LN.chunks st)) ++ content (concat (LN.current st)).

Definition held_paragraphs (st : TR.chunk_state) : text :=
  content (concat (TR.chunks st)) ++ content (concat (TR.current st)).

(** What the loops add up: each piece with [k] more for its separator. *)
Fixpoint weight (k : Z) (l : list text) : Z :=
  match l with
  | [] => 0
  | x :: l' => len x + k + weight k l'
  end.

(** The loop of [chunk_text] with its closed accumulators kept as lists
    of lines, before they are joined and trimmed. *)
Record group_state := GroupState {
  groups : list (list text);
  cur : list text;
  cur_len : Z
}.

Definition group_step (max_chars : Z) (st : group_state) (line : text) : group_state :=
  let line := str_strip line in
  if (cur_len st + len line + 1 >? max_chars) && nonempty (cur st)
  then {| groups := groups st ++ [cur st];
          cur := [line];
          cur_len := len line + 1 |}
  else {| groups := groups st;
          cur := cur st ++ [line];
          cur_len := cur_len st + len line + 1 |}.

Definition group_loop (max_chars : Z) (lines : list text) : group_state :=
  fold_left (group_step max_chars) lines
            {| groups := []; cur := []; cur_len := 0 |}.

Definition all_groups (st : group_state) : list (list text) :=
  if nonempty (cur st) then groups st ++ [cur st] else groups st.

(** The groups of lines [chunk_text] forms, in order. *)
Definition line_groups (t : text) (max_chars : Z) : list (list text) :=
  all_groups (group_loop max_chars (str_split [NL] (LN.normalize_newlines t))).

(** The Unit a group of lines becomes. *)
Definition emit_group (g : list text) : text := str_strip (str_join [NL] g).

(** The loop of [chunk_text] and the loop that keeps the groups run in
    lockstep. *)
Definition in_step (cs : LN.chunk_state) (gs : group_state) : Prop :=
  LN.chunks cs = List.map emit_group (groups gs)
  /\ LN.current cs = cur gs
  /\ LN.current_len cs = cur_len gs.

(** A group is either one piece of the input (a line, a paragraph), or
    fits the budget with [k] characters counted for every piece. *)
Definition good_group (k m : Z) (all : list text) (g : list text) : Prop :=
  (exists line, In line all /\ g = [str_strip line])
  \/ (g <> [] /\ weight k g <= m).

(** The first line of each group did not fit into the group before it. *)
Definition tight (m : Z) (gs : list (list text)) : Prop :=
  forall (i : nat) g g',
    gs !! i = Some g -> gs !! S i = Some g' ->
    exists l rest, g' = l :: rest /\ m < weight 1 g + len l + 1.

Definition group_inv (m : Z) (all : list text) (st : group_state) : Prop :=
  cur_len st = weight 1 (cur st)
  /\ ((groups st = [] /\ cur st = [])
      \/ (Forall (good_group 1 m all) (groups st ++ [cur st])
          /\ tight m (groups st ++ [cur st]))).

(** The loop state of the paragraph segmenter keeps its sum, its closed
    chunks are within the budget or one paragraph each, and so is its
    accumulator. *)
Definition para_inv (m : Z) (all : list text) (st : TR.chunk_state) : Prop :=
  TR.cur_len st = weight 2 (TR.current st)
  /\ Forall (fun u => len u <= m \/ exists para, In para all /\ u = str_strip para)
            (TR.chunks st)
  /\ (TR.current st = [] \/ good_group 2 m all (TR.current st)).

(** The first line of a Unit. *)
Definition first_line (u : text) : text := hd [] (str_split [NL] u).

(** Every Unit but the last is full: with the first line of the next Unit
    appended on a new line it would be longer than [max_chars]. *)
Definition units_maximal (max_chars : Z) (units : list text) : Prop :=
  forall (i : nat) (u v : text),
    units !! i = Some u -> units !! S i = Some v ->
    max_chars < len (str_join [NL] [u; first_line v]).

(** ** Floats *)

(** The floats that are [+0.0], [-0.0], positive, or [+inf]. *)
Definition float_nonneg (f : float) : bool :=
  match f with
  | S754_zero _ => true
  | S754_infinity s => negb s
  | S754_finite s _ _ => negb s
  | S754_nan => false
  end.

(** ** Requests to the LLM *)

(** The request [call_ollama] sends for a prompt. *)
Definition ollama_url (host : text) : text := host ++ lit "/api/generate".

Definition ollama_payload (prompt model : text) : payload :=
  {| p_model := model; p_prompt := prompt; p_stream := false |}.

(** The event of one call to the LLM, as the world answered it. *)
Definition ollama_event (w : world) (tr : list event) (prompt model host : text) : event :=
  EvPost (ollama_url host) (ollama_payload prompt model) 600
         (http_post w tr (ollama_url host) (ollama_payload prompt model) 600).

(** [b] occurs in [p] at offset [o]. *)
Definition occurs_at (o : nat) (b p : text) : Prop :=
  firstn (length b) (skipn o p) = b.

(** The block of the final prompt for the summary at 0-based index [i]:
    the label [[Part i+1]], a line break, and the summary. *)
Definition part_block (i : nat) (summary : text) : text :=
  lit "[Part " ++ str_of_int (Z.of_nat i + 1) ++ lit "]" ++ [NL] ++ summary.

(** Where the pieces of a joined text start, the first one at [o]. *)
Fixpoint join_offsets (o seplen : nat) (blocks : list text) : list nat :=
  match blocks with
  | [] => []
  | b :: rest => o :: join_offsets (o + length b + seplen) seplen rest
  end.

(** ** Segment files *)

(** [a < b] on [str] values. *)
Definition text_ltb (a b : text) : bool := negb (text_leb b a).

(** Each name is strictly below every later one. *)
Fixpoint strictly_ascending (l : list text) : bool :=
  match l with
  | [] => true
  | x :: rest => forallb (text_ltb x) rest && strictly_ascending rest
  end.

(** The names of the first [n] segments, in index order. *)
Definition segment_names (n : nat) : list text :=
  List.map (fun i => TL.chunk_file_name (Z.of_nat i)) (seq 0 n).

(** What [split_audio] has done when it lists the chunk directory. *)
Definition trace_before_glob (tr : list event) (input_path : path)
           (chunk_seconds : Z) : list event :=
  (tr ++ [EvMkdir (TL.chunk_dir_of input_path) (inr tt)])
     ++ [EvRun (TL.ffmpeg_cmd input_path chunk_seconds) (inr 0)].

(** ** Transcription *)

(** What the Unit at 1-based position [i] adds to [all_texts], given the
    trimmed text the ASR returned for it. *)
Definition unit_result (i : Z) (chunk_path : path) (t : text) : list text :=
  if negb (truthy t) then []
  else if negb (TL.looks_like_japanese t float_0_3) then [TL.noisy_entry i t]
  else [TL.chunk_entry i chunk_path t].

(** The same for consecutive Units, the first at position [i]. *)
Fixpoint unit_results (i : Z) (chunks : list path) (texts : list text) : list text :=
  match chunks, texts with
  | c :: chunks', t :: texts' => unit_result i c t ++ unit_results (i + 1) chunks' texts'
  | _, _ => []
  end.

(** The trimmed text of an ASR call that returned a mapping whose [text]
    entry is a string or is missing. *)
Definition asr_text (e : event) : option text :=
  match e with
  | EvTranscribe _ _ _ _ (inr result) =>
    match default (PStr []) (result !! lit "text") with
    | PStr s => Some (str_strip s)
    | _ => None
    end
  | _ => None
  end.

Fixpoint asr_texts (tr : list event) : list text :=
  match tr with
  | [] => []
  | e :: tr' =>
    match asr_text e with
    | Some t => t :: asr_texts tr'
    | None => asr_texts tr'
    end
  end.

(** The ASR collaborator kept its contract at this event: the model
    loaded, and a decode returned a mapping with a usable [text]. *)
Definition asr_ok (e : event) : bool :=
  match e with
  | EvLoadModel _ _ (inl _) => false
  | EvTranscribe _ _ _ _ (inl _) => false
  | EvTranscribe _ _ _ _ (inr _) =>
    match asr_text e with Some _ => true | None => false end
  | _ => true
  end.

(** ** Runs and their traces *)

(** The writes a run has started.  A write that raised counts too: the
    file may exist by then, empty or cut short. *)
Definition is_write (e : event) : bool :=
  match e with EvWrite _ _ _ => true | _ => false end.

Definition writes (tr : list event) : list event := List.filter is_write tr.

(** The calls that process a Unit or aggregate: LLM requests and ASR
    decodes. *)
Definition is_call (e : event) : bool :=
  match e with
  | EvPost _ _ _ _ => true
  | EvTranscribe _ _ _ _ _ => true
  | _ => false
  end.

Definition calls (tr : list event) : list event := List.filter is_call tr.

(** A collaborator failed at this event: a transport error or an error
    status (400 to 599) from the LLM, a chunk directory that could not be
    made, a demuxer that did not start or exited non-zero, a listing with
    no segment, a model that did not load, an ASR decode that raised, a
    write that raised. *)
Definition failed (e : event) : bool :=
  match e with
  | EvPost _ _ _ (inl _) => true
  | EvPost _ _ _ (inr resp) => is_error_status (status_code resp)
  | EvMkdir _ (inl _) => true
  | EvWrite _ _ (inl _) => true
  | EvRun _ (inl _) => true
  | EvRun _ (inr returncode) => negb (returncode =? 0)
  | EvGlob _ [] => true
  | EvLoadModel _ _ (inl _) => true
  | EvTranscribe _ _ _ _ (inl _) => true
  | _ => false
  end.

Definition went_well (e : event) : bool := negb (failed e).


(** A computation that starts no write, and whose success means that
    every collaborator call it made went well and that [Q] holds of its
    result and of the events it added. *)
Definition tidy {A} (m : M A) (Q : A -> list event -> Prop) : Prop :=
  forall tr, exists evs,
    snd (m tr) = tr ++ evs
    /\ writes evs = []
    /\ forall a, fst (m tr) = inr a ->
         forallb went_well evs = true /\ Q a evs.



(** ** Sample worlds and arguments *)

(** Writing a text as UTF-8 to a healthy disk: only a surrogate code
    point, which UTF-8 cannot encode, makes it raise. *)
Definition is_surrogate (c : Z) : bool := (0xD800 <=? c) && (c <=? 0xDFFF).

Definition utf8_write (content : text) : exn + unit :=
  if existsb is_surrogate content then inl UnicodeEncodeError else inr tt.

(** A world whose collaborators give the same answer at every call. *)
Definition constant_world (file_exists : bool) (file : exn + text)
           (listing : list text) (post : exn + response) (returncode : exn + Z)
           (asr : exn + gmap text pyval) : world :=
  {| fs_exists := fun _ => file_exists;
     fs_read_text := fun _ => file;
     fs_listdir := fun _ _ => listing;
     fs_mkdir := fun _ _ => inr tt;
     fs_write_text := fun _ _ content => utf8_write content;
     http_post := fun _ _ _ _ => post;
     run_process := fun _ _ => returncode;
     mps_is_available := false;
     whisper_load_model := fun _ _ _ => inr tt;
     whisper_transcribe := fun _ _ _ _ _ => asr |}.

(** An LLM endpoint that answers 200 with the given JSON object. *)
Definition answering_world (d : gmap text pyval) : world :=
  constant_world true (inr []) [] (inr (Response 200 (Some (JDict d))))
                 (inr 0) (inr ∅).

(** Worlds for trying the stages: no input file; an input file and an LLM
    that answers 500; an input file and an LLM that answers 200. *)
Definition missing_input_world : world :=
  constant_world false (inl OSError) [] (inl RequestException) (inr 1) (inl RuntimeError).

Definition failing_llm_world : world :=
  constant_world true (inr (lit "こんにちは")) []
                 (inr (Response 500 None)) (inr 0) (inr ∅).

Definition working_llm_world : world :=
  constant_world true (inr (lit "一行目
二行目")) []
    (inr (Response 200 (Some (JDict {[ lit "response" := PStr (lit " ok ") ]}))))
    (inr 0) (inr ∅).

Definition lecture_m4a : path := [lit "lectures"; lit "week7.m4a"].

(** A run in which the demuxer has left three segments and the directory
    lists them out of order, next to a file that is not a segment. *)
Definition three_segment_world : world :=
  constant_world true (inr [])
    [lit "chunk_002.m4a"; lit "notes.txt"; lit "chunk_000.m4a"; lit "chunk_001.m4a"]
    (inr (Response 200 (Some (JDict ∅)))) (inr 0) (inr ∅).

(** An ASR model that hears nothing in segment 000, English in segment
    001 and Japanese in every other segment. *)
Definition demo_asr (audio : text) : exn + gmap text pyval :=
  if endswith (lit "chunk_000.m4a") audio
  then inr {[ lit "text" := PStr (lit "   ") ]}
  else if endswith (lit "chunk_001.m4a") audio
  then inr {[ lit "text" := PStr (lit " thank you for watching ") ]}
  else inr {[ lit "text" := PStr (lit " 今日は江戸時代の話をします。") ]}.

Definition asr_world : world :=
  {| fs_exists := fun _ => true;
     fs_read_text := fun _ => inr [];
     fs_listdir := fun _ _ =>
       [lit "chunk_002.m4a"; lit "chunk_000.m4a"; lit "chunk_001.m4a"];
     fs_mkdir := fun _ _ => inr tt;
     fs_write_text := fun _ _ content => utf8_write content;
     http_post := fun _ _ _ _ => inl RequestException;
     run_process := fun _ _ => inr 0;
     mps_is_available := true;
     whisper_load_model := fun _ _ _ => inr tt;
     whisper_transcribe := fun _ audio _ _ _ => demo_asr audio |}.

Definition three_segments : list path :=
  List.map (path_div (TL.chunk_dir_of lecture_m4a)) (segment_names 3).

Definition notes_args : LN.args :=
  {| LN.transcript_file := [lit "lectures"; lit "week7_transcript_ja.txt"];
     LN.model := lit "llama3.1";
     LN.host := lit "http://localhost:11434";
     LN.chunk_chars := 4 |}.

Definition translate_args : TR.args :=
  {| TR.input_file := [lit "lectures"; lit "week7_transcript_ja.txt"];
     TR.model := lit "llama3.1";
     TR.host := lit "http://localhost:11434";
     TR.max_chars := 3500 |}.


(** ** Tactics *)

(** [lia] after the type abbreviations are unfolded, so that equal list
    lengths are recognised as equal. *)
Ltac list_lia := unfold path, text in *; lia.

(** ** Trimmed texts *)

(** A non-empty text that neither starts nor ends with whitespace. *)
Definition trimmed (s : text) : Prop :=
  (exists c r, s = c :: r /\ isspace c = false)
  /\ (exists r z, s = r ++ [z] /\ isspace z = false).

(** ** The paragraph loop *)

(** The chunks the paragraph loop would return if it stopped now. *)
Definition pending (st : TR.chunk_state) : list text :=
  if nonempty (TR.current st)
  then TR.chunks st ++ [str_join [NL; NL] (TR.current st)]
  else TR.chunks st.

(** ** What a trace says about the calls *)

(** The prompt of an LLM request. *)
Definition post_prompt (e : event) : option text :=
  match e with
  | EvPost _ json_payload _ _ => Some (p_prompt json_payload)
  | _ => None
  end.

Fixpoint prompts (tr : list event) : list text :=
  match tr with
  | [] => []
  | e :: tr' =>
    match post_prompt e with
    | Some p => p :: prompts tr'
    | None => prompts tr'
    end
  end.

(** The text [call_ollama] makes of the answer to an LLM request: the
    trimmed [response] of a JSON object that came with a status that is
    not an error, the empty text when the object has no [response]. *)
Definition post_answer (e : event) : option text :=
  match e with
  | EvPost _ _ _ (inr resp) =>
    if is_error_status (status_code resp) then None
    else
      match body resp with
      | Some (JDict d) =>
        match d !! lit "response" with
        | Some (PStr s) => Some (str_strip s)
        | Some _ => None
        | None => Some []
        end
      | _ => None
      end
  | _ => None
  end.

Fixpoint answers (tr : list event) : list text :=
  match tr with
  | [] => []
  | e :: tr' =>
    match post_answer e with
    | Some r => r :: answers tr'
    | None => answers tr'
    end
  end.

(** The arguments of an ASR decode. *)
Definition decode_args (e : event) : option (text * text * text * bool) :=
  match e with
  | EvTranscribe audio language task fp16 _ => Some (audio, language, task, fp16)
  | _ => None
  end.

Fixpoint decodes (tr : list event) : list (text * text * text * bool) :=
  match tr with
  | [] => []
  | e :: tr' =>
    match decode_args e with
    | Some d => d :: decodes tr'
    | None => decodes tr'
    end
  end.

(** [x] occurs somewhere in [p]. *)
Definition contains (x p : text) : Prop :=
  exists pre post, p = pre ++ x ++ post.

(** The decode [transcribe_chunks] asks for a segment: the path as a
    string, the forced language, the task [transcribe], no fp16. *)
Definition expected_decode (language : text) (chunk_path : path)
  : text * text * text * bool :=
  (path_str chunk_path, language, lit "transcribe", false).

(** ** Stopping at the first failure *)

(** Only the last event of a trace may be a failed collaborator call. *)
Definition fails_last (evs : list event) : Prop :=
  forall (i : nat) e,
    evs !! i = Some e -> failed e = true -> S i = length evs.

(** A computation that stops at the first collaborator failure, and
    whose success means that no call failed. *)
Definition failfast {A} (m : M A) : Prop :=
  forall tr, exists evs,
    snd (m tr) = tr ++ evs
    /\ fails_last evs
    /\ forall a, fst (m tr) = inr a -> forallb went_well evs = true.

(** ** Output files *)

(** A computation that writes to no file but [out]. *)
Definition writes_only (out : path) {A} (m : M A) : Prop :=
  forall tr, exists evs,
    snd (m tr) = tr ++ evs
    /\ forall e, In e evs -> is_write e = true ->
         exists content result, e = EvWrite out content result.

(** The order [sorted] sorts paths into. *)
Definition path_le (p q : path) : Prop := path_leb p q = true.

(** ** Decimal numerals *)

(** The value of a string of decimal digits, and what makes a text the
    decimal numeral of a non-negative integer: at least one character,
    only the digits [0] to [9], no leading zero except in [0] itself,
    and the right value.  There is one such text for every integer. *)
Definition is_digit (c : Z) : bool := (48 <=? c) && (c <=? 57).

Definition digits_value (d : text) : Z :=
  fold_left (fun acc c => 10 * acc + (c - 48)) d 0.

Definition decimal_of (n : Z) (d : text) : Prop :=
  d <> []
  /\ forallb is_digit d = true
  /\ (hd 0 d = 48 -> d = [48])
  /\ digits_value d = n.

(** ** Trimming *)

(** [r] is [s] without its leading and its trailing whitespace: what is
    cut off on either side is whitespace only, and what is left is empty
    or neither starts nor ends with whitespace. *)
Definition trim_of (s r : text) : Prop :=
  exists pre post,
    s = pre ++ r ++ post
    /\ forallb isspace pre = true
    /\ forallb isspace post = true
    /\ (r = [] \/ trimmed r).

(** ** Every Unit processed *)




(** ** More sample worlds *)


(** An endpoint that answers 300 with a usable body. *)
Definition multiple_choices_world : world :=
  constant_world true (inr (lit "こんにちは")) []
    (inr (Response 300 (Some (JDict {[ lit "response" := PStr (lit "ok") ]}))))
    (inr 0) (inr ∅).

(** A regular file sits where the chunk directory should be made; the
    demuxer, if it were started, would exit with 236. *)
Definition blocked_dir_world : world :=
  {| fs_exists := fun _ => true;
     fs_read_text := fun _ => inr [];
     fs_listdir := fun _ _ => [];
     fs_mkdir := fun _ _ => inl FileExistsError;
     fs_write_text := fun _ _ content => utf8_write content;
     http_post := fun _ _ _ _ => inl RequestException;
     run_process := fun _ _ => inr 236;
     mps_is_available := false;
     whisper_load_model := fun _ _ _ => inr tt;
     whisper_transcribe := fun _ _ _ _ _ => inr ∅ |}.

(** A demuxer that cannot be started (no such program). *)
Definition no_demuxer_world : world :=
  constant_world true (inr []) [] (inl RequestException) (inl OSError) (inr ∅).

(** ** The final prompt *)

(** Where the blocks of the final prompt start: the first one right
    after the head of the prompt, each next one after the block before
    it and the blank line that separates them. *)
Definition part_offsets (summaries : list text) : list nat :=
  join_offsets (length LN.final_prompt_head) 2 (LN.part_blocks 0 summaries).

(* ===================================================================== *)
(** * Properties                                                          *)
(* ===================================================================== *)

(** ** Non-whitespace content *)

Lemma content_app a b : content (a ++ b) = content a ++ content b.
Proof. apply List.filter_app. Qed.

Lemma content_rev s : content (rev s) = rev (content s).
Proof.
  induction s as [|c s IH]; simpl; [done|].
  rewrite content_app, IH. simpl. destruct (isspace c); simpl; [|done].
  by rewrite app_nil_r.
Qed.

Lemma content_lstrip s : content (str_lstrip s) = content s.
Proof.
  induction s as [|c s IH]; simpl; [done|].
  destruct (isspace c) eqn:E; simpl; [done|]. by rewrite E.
Qed.

Lemma content_strip s : content (str_strip s) = content s.
Proof.
  unfold str_strip, str_rstrip.
  rewrite content_rev, content_lstrip, content_rev, rev_involutive.
  apply content_lstrip.
Qed.

Lemma content_concat_app (l1 l2 : list text) :
  content (concat (l1 ++ l2)) = content (concat l1) ++ content (concat l2).
Proof. by rewrite concat_app, content_app. Qed.

Lemma content_concat_snoc (l : list text) x :
  content (concat (l ++ [x])) = content (concat l) ++ content x.
Proof. rewrite content_concat_app. simpl. by rewrite app_nil_r. Qed.

Lemma content_concat_one x : content (concat [x]) = content x.
Proof. simpl. by rewrite app_nil_r. Qed.

Lemma content_join sep l :
  content sep = [] -> content (str_join sep l) = content (concat l).
Proof.
  intros Hsep. induction l as [|p [|q l] IH]; simpl in *; [done| |].
  - by rewrite app_nil_r.
  - rewrite !content_app, Hsep, IH. simpl. by rewrite content_app.
Qed.

Lemma startswith_app p s : startswith p s = true -> exists r, s = p ++ r.
Proof.
  revert s. induction p as [|a p IH]; intros s H; simpl in *.
  - by exists s.
  - destruct s as [|b s]; [done|].
    apply andb_true_iff in H as [Hab Hps]. apply Z.eqb_eq in Hab as ->.
    destruct (IH _ Hps) as [r ->]. by exists r.
Qed.

Lemma content_firstn_app_nil p r :
  content p = [] -> content (firstn (length p) (p ++ r)) = [].
Proof. intros H. by rewrite firstn_app, Nat.sub_diag, firstn_all, app_nil_r. Qed.

(** What a scan is about to pass over, after matching [old] at [c :: s]. *)
Lemma content_match_tail old c s :
  old <> [] -> content old = [] -> startswith old (c :: s) = true ->
  isspace c = true /\ content (firstn (length old - 1) s) = [].
Proof.
  intros Hne Hold Hsw. destruct old as [|a old]; [done|].
  simpl in Hsw. apply andb_true_iff in Hsw as [Hac Hsw].
  apply Z.eqb_eq in Hac as ->. apply startswith_app in Hsw as [r ->].
  simpl in Hold. destruct (isspace c) eqn:E; simpl in Hold; [|done].
  split; [done|]. simpl. rewrite Nat.sub_0_r. by apply content_firstn_app_nil.
Qed.

Lemma content_cons_head c parts :
  content (concat (cons_head c parts)) = content (c :: concat parts).
Proof. by destruct parts. Qed.

Lemma content_split_from sep :
  sep <> [] -> content sep = [] ->
  forall s skip, content (firstn skip s) = [] ->
    content (concat (str_split_from sep skip s)) = content s.
Proof.
  intros Hne Hsep. induction s as [|c s IH]; intros skip Hskip; [done|].
  simpl. destruct skip as [|k].
  - destruct (startswith sep (c :: s)) eqn:Hsw.
    + destruct (content_match_tail _ _ _ Hne Hsep Hsw) as [Hc Htl].
      simpl. rewrite (IH _ Htl). by rewrite Hc.
    + rewrite content_cons_head. simpl. by rewrite (IH 0%nat).
  - simpl in Hskip. destruct (isspace c); simpl in Hskip; [|done].
    simpl. by apply IH.
Qed.

Lemma content_split sep s :
  sep <> [] -> content sep = [] -> content (concat (str_split sep s)) = content s.
Proof. intros. by apply content_split_from. Qed.

Lemma content_replace_from old new :
  old <> [] -> content old = [] -> content new = [] ->
  forall s skip, content (firstn skip s) = [] ->
    content (str_replace_from old new skip s) = content s.
Proof.
  intros Hne Hold Hnew. induction s as [|c s IH]; intros skip Hskip; [done|].
  simpl. destruct skip as [|k].
  - destruct (startswith old (c :: s)) eqn:Hsw.
    + destruct (content_match_tail _ _ _ Hne Hold Hsw) as [Hc Htl].
      rewrite content_app, Hnew, (IH _ Htl). simpl. by rewrite Hc.
    + simpl. by rewrite (IH 0%nat).
  - simpl in Hskip. destruct (isspace c); simpl in Hskip; [|done].
    simpl. by apply IH.
Qed.

Lemma content_replace old new s :
  old <> [] -> content old = [] -> content new = [] ->
  content (str_replace old new s) = content s.
Proof. intros. by apply content_replace_from. Qed.

Lemma content_normalize t :
  content (str_replace [CR] [NL] (str_replace [CR; NL] [NL] t)) = content t.
Proof. by rewrite !content_replace. Qed.

Lemma concat_filter_truthy (l : list text) :
  concat (List.filter truthy l) = concat l.
Proof.
  induction l as [|x l IH]; simpl; [done|].
  destruct x; simpl; by rewrite IH.
Qed.

Lemma strip_truthy_line s :
  (if negb (truthy (str_strip s)) then [] else str_strip s) = str_strip s.
Proof. by destruct (str_strip s). Qed.

(** ** The line segmenter keeps the content (C1) *)

Lemma chunk_step_held m st line :
  held (LN.chunk_step m st line) = held st ++ content line.
Proof.
  unfold LN.chunk_step, held. rewrite strip_truthy_line.
  destruct (_ && _); cbn [LN.chunks LN.current].
  - rewrite content_concat_snoc, content_concat_one, !content_strip.
    rewrite content_join by done. by rewrite <- app_assoc.
  - by rewrite content_concat_snoc, content_strip, <- app_assoc.
Qed.

Lemma chunk_fold_held m lines st :
  held (fold_left (LN.chunk_step m) lines st) = held st ++ content (concat lines).
Proof.
  revert st. induction lines as [|l lines IH]; intros st; simpl.
  - by rewrite app_nil_r.
  - by rewrite IH, chunk_step_held, content_app, <- app_assoc.
Qed.

Lemma chunk_text_content t m :
  content (concat (LN.chunk_text t m)) = content t.
Proof.
  unfold LN.chunk_text, LN.normalize_newlines.
  rewrite concat_filter_truthy.
  set (lines := str_split [NL] _).
  pose proof (chunk_fold_held m lines
                {| LN.chunks := []; LN.current := []; LN.current_len := 0 |}) as H.
  fold (LN.chunk_loop m lines) in H.
  assert (Hl : content (concat lines) = content t).
  { unfold lines. by rewrite content_split, content_normalize. }
  rewrite Hl in H. unfold held in H. simpl in H. rewrite <- H.
  destruct (LN.current (LN.chunk_loop m lines)) eqn:E; cbn [nonempty].
  - by rewrite app_nil_r.
  - by rewrite content_concat_snoc, content_strip, content_join.
Qed.

Lemma para_step_held m st para :
  held_paragraphs (TR.para_step m st para) = held_paragraphs st ++ content para.
Proof.
  unfold TR.para_step, held_paragraphs.
  rewrite <- (content_strip para).
  destruct (str_strip para) as [|c p] eqn:E; cbn [truthy negb].
  - simpl. by rewrite app_nil_r.
  - destruct (_ && _); cbn [TR.chunks TR.current].
    + rewrite content_concat_snoc, content_concat_one.
      rewrite content_join by done. by rewrite <- app_assoc.
    + by rewrite content_concat_snoc, <- app_assoc.
Qed.

Lemma para_fold_held m paras st :
  held_paragraphs (fold_left (TR.para_step m) paras st)
  = held_paragraphs st ++ content (concat paras).
Proof.
  revert st. induction paras as [|l paras IH]; intros st; simpl.
  - by rewrite app_nil_r.
  - by rewrite IH, para_step_held, content_app, <- app_assoc.
Qed.

Lemma chunk_paragraphs_content t m :
  content (concat (TR.chunk_paragraphs t m)) = content t.
Proof.
  unfold TR.chunk_paragraphs.
  set (paras := str_split [NL; NL] _).
  set (st0 := {| TR.chunks := []; TR.current := []; TR.cur_len := 0 |}).
  pose proof (para_fold_held m paras st0) as H.
  assert (Hl : content (concat paras) = content t).
  { unfold paras. by rewrite content_split, content_normalize. }
  rewrite Hl in H. unfold held_paragraphs in H. simpl in H. rewrite <- H.
  destruct (TR.current (fold_left (TR.para_step m) paras st0)) eqn:E;
    cbn [nonempty].
  - by rewrite app_nil_r.
  - by rewrite content_concat_snoc, content_join.
Qed.

(** C1. For every input text and every [max_chars >= 1], the Units the
    text Segmenter emits, concatenated in position order, have exactly the
    non-whitespace characters of the input, in the same order: nothing is
    reordered and no non-whitespace character is lost or added.  This
    holds for the line segmenter [chunk_text] and for the paragraph
    segmenter of the translation stage. *)
Theorem segmentation_reconstructs_input (t : text) (max_chars : Z) :
  1 <= max_chars ->
  content (concat (lecture_notes_ollama.chunk_text t max_chars)) = content t
  /\ content (concat (translate_jp_to_en_ollama.chunk_paragraphs t max_chars))
     = content t.
Proof.
  intros _. split; [apply chunk_text_content | apply chunk_paragraphs_content].
Qed.

Lemma segmentation_reconstructs_input_witness :
  let t := [97; 32; 98; CR; NL; 99; NL; NL; 0x3000; 100; 101] in
  1 <= 3
  /\ content (concat (lecture_notes_ollama.chunk_text t 3)) = content t
  /\ content (concat (translate_jp_to_en_ollama.chunk_paragraphs t 3))
     = content t.
Proof. split; [lia | apply (segmentation_reconstructs_input _ 3); lia]. Defined.

(** ** Stripping *)

Lemma lstrip_app a b :
  str_lstrip (a ++ b)
  = match str_lstrip a with [] => str_lstrip b | _ :: _ => str_lstrip a ++ b end.
Proof.
  induction a as [|c a IH]; simpl; [done|].
  destruct (isspace c); [apply IH | done].
Qed.

(** [rstrip] read from the left. *)
Lemma rstrip_cons c s :
  str_rstrip (c :: s)
  = match str_rstrip s with
    | [] => if isspace c then [] else [c]
    | _ :: _ => c :: str_rstrip s
    end.
Proof.
  unfold str_rstrip. simpl. rewrite lstrip_app.
  destruct (str_lstrip (rev s)) as [|x r] eqn:E; simpl.
  - by destruct (isspace c).
  - rewrite rev_app_distr. simpl.
    destruct (rev r ++ [x]) eqn:E2; [by destruct (rev r)|done].
Qed.

Lemma lstrip_rstrip s : str_lstrip (str_rstrip s) = str_rstrip (str_lstrip s).
Proof.
  induction s as [|c s IH]; [done|].
  rewrite rstrip_cons. simpl str_lstrip at 2.
  destruct (str_rstrip s) as [|x r] eqn:E.
  - destruct (isspace c) eqn:Ec; simpl.
    + by rewrite <- IH.
    + by rewrite Ec, rstrip_cons, E, Ec.
  - simpl. destruct (isspace c) eqn:Ec.
    + by rewrite <- IH.
    + by rewrite rstrip_cons, E.
Qed.

Lemma lstrip_idem s : str_lstrip (str_lstrip s) = str_lstrip s.
Proof.
  induction s as [|c s IH]; simpl; [done|].
  destruct (isspace c) eqn:E; [done|]. simpl. by rewrite E.
Qed.

Lemma rstrip_idem s : str_rstrip (str_rstrip s) = str_rstrip s.
Proof. unfold str_rstrip. by rewrite rev_involutive, lstrip_idem. Qed.

Lemma strip_idem s : str_strip (str_strip s) = str_strip s.
Proof.
  unfold str_strip.
  by rewrite lstrip_rstrip, lstrip_idem, rstrip_idem.
Qed.

Lemma lstrip_length s : (length (str_lstrip s) <= length s)%nat.
Proof.
  induction s as [|c s IH]; simpl; [done|].
  destruct (isspace c); simpl; lia.
Qed.

Lemma strip_len s : len (str_strip s) <= len s.
Proof.
  unfold len, str_strip, str_rstrip. rewrite length_rev.
  pose proof (lstrip_length (rev (str_lstrip s))) as H1.
  rewrite length_rev in H1. pose proof (lstrip_length s). lia.
Qed.

Lemma in_lstrip x s : In x (str_lstrip s) -> In x s.
Proof.
  induction s as [|c s IH]; simpl; [done|].
  destruct (isspace c); simpl; tauto.
Qed.

Lemma in_strip x s : In x (str_strip s) -> In x s.
Proof.
  unfold str_strip, str_rstrip. intros H.
  apply in_lstrip. apply in_rev. by apply in_lstrip, in_rev.
Qed.

(** ** Lengths of joined lines *)

Lemma weight_snoc k l x : weight k (l ++ [x]) = weight k l + len x + k.
Proof. induction l as [|y l IH]; simpl; lia. Qed.

Lemma len_app {A} (a b : list A) : len (a ++ b) = len a + len b.
Proof. unfold len. rewrite length_app. lia. Qed.

Lemma len_join sep l : l <> [] -> len (str_join sep l) = weight (len sep) l - len sep.
Proof.
  induction l as [|x [|y l] IH]; intros Hne; [done| |].
  - simpl. lia.
  - change (str_join sep (x :: y :: l)) with (x ++ sep ++ str_join sep (y :: l)).
    rewrite !len_app, IH by done. simpl. lia.
Qed.

Lemma split_newline_cons c s :
  str_split [NL] (c :: s)
  = if NL =? c then [] :: str_split [NL] s else cons_head c (str_split [NL] s).
Proof.
  unfold str_split. cbn [str_split_from startswith]. by rewrite andb_true_r.
Qed.

Lemma split_newline_free s :
  Forall (fun line => ~ In NL line) (str_split [NL] s).
Proof.
  induction s as [|c s IH].
  - constructor; [simpl; tauto | constructor].
  - rewrite split_newline_cons. destruct (NL =? c) eqn:E.
    + constructor; [simpl; tauto | done].
    + destruct (str_split [NL] s) as [|p ps]; simpl.
      * constructor; [|constructor]. simpl. intros [->|[]]. by rewrite Z.eqb_refl in E.
      * inversion IH; subst. constructor; [|done].
        simpl. intros [->|H]; [by rewrite Z.eqb_refl in E | tauto].
Qed.

(** ** Groups of lines *)

Lemma chunk_step_in_step m cs gs line :
  in_step cs gs -> in_step (LN.chunk_step m cs line) (group_step m gs line).
Proof.
  intros (Hc & Hcur & Hlen). unfold LN.chunk_step, group_step.
  rewrite strip_truthy_line, Hcur, Hlen.
  destruct (_ && _); unfold in_step; cbn [LN.chunks LN.current LN.current_len
                                           groups cur cur_len].
  - by rewrite Hc, List.map_app.
  - done.
Qed.

Lemma chunk_fold_in_step m lines cs gs :
  in_step cs gs ->
  in_step (fold_left (LN.chunk_step m) lines cs) (fold_left (group_step m) lines gs).
Proof.
  revert cs gs. induction lines as [|l lines IH]; intros cs gs H; [done|].
  simpl. by apply IH, chunk_step_in_step.
Qed.

Lemma chunk_text_groups t m :
  LN.chunk_text t m = List.filter truthy (List.map emit_group (line_groups t m)).
Proof.
  unfold LN.chunk_text, line_groups, all_groups, LN.chunk_loop, group_loop.
  set (lines := str_split [NL] _).
  destruct (chunk_fold_in_step m lines
              {| LN.chunks := []; LN.current := []; LN.current_len := 0 |}
              {| groups := []; cur := []; cur_len := 0 |}) as (Hc & Hcur & _);
    [done|].
  rewrite Hc, Hcur. destruct (nonempty _); [|done].
  by rewrite List.map_app.
Qed.

Lemma good_group_nonempty k m all g : good_group k m all g -> g <> [].
Proof. by intros [(line & _ & ->)|[? _]]. Qed.

Lemma tight_one m g : tight m [g].
Proof. intros i a b _ H. by destruct i. Qed.

Lemma tight_close m gs g l :
  tight m (gs ++ [g]) -> m < weight 1 g + len l + 1 ->
  tight m ((gs ++ [g]) ++ [[l]]).
Proof.
  intros Ht Hm i a b Ha Hb.
  apply lookup_snoc_Some in Hb as [[Hlt Hb]|[Hi <-]].
  - apply lookup_snoc_Some in Ha as [[_ Ha]|[Hi _]]; [by eapply Ht|].
    rewrite length_app in Hi, Hlt. simpl in Hi, Hlt. lia.
  - rewrite length_app in Hi. simpl in Hi.
    assert (i = length gs) as -> by lia.
    rewrite lookup_app_l in Ha by (rewrite length_app; simpl; lia).
    rewrite list_lookup_middle in Ha by done.
    injection Ha as <-. by exists l, [].
Qed.

Lemma tight_extend m gs g l :
  tight m (gs ++ [g]) -> tight m (gs ++ [g ++ [l]]).
Proof.
  intros Ht i a b Ha Hb.
  apply lookup_snoc_Some in Hb as [[Hlt Hb]|[Hi <-]].
  - apply (Ht i a b); apply lookup_app_l_Some; [|done].
    apply lookup_snoc_Some in Ha as [[_ Ha]|[Hi _]]; [done|list_lia].
  - apply lookup_snoc_Some in Ha as [[_ Ha]|[Hi' _]]; [|list_lia].
    destruct (Ht i a g) as (l0 & rest & -> & Hm).
    + by apply lookup_app_l_Some.
    + by apply list_lookup_middle.
    + by exists l0, (rest ++ [l]).
Qed.

Lemma group_step_inv m all st line :
  In line all -> group_inv m all st -> group_inv m all (group_step m st line).
Proof.
  intros Hin (Hlen & Hst). unfold group_step.
  destruct (_ && _) eqn:Hcond; unfold group_inv;
    cbn [groups cur cur_len].
  - apply andb_true_iff in Hcond as [Hgt Hne].
    apply Z.gtb_lt in Hgt.
    split; [simpl; lia|]. right.
    destruct Hst as [[_ Hnil]|[Hgood Htight]]; [by rewrite Hnil in Hne|].
    split.
    + apply Forall_app. split; [done|].
      constructor; [|constructor]. left. by exists line.
    + apply tight_close; [done|lia].
  - split; [rewrite weight_snoc; lia|]. right.
    destruct Hst as [[Hg Hnil]|[Hgood Htight]].
    + rewrite Hg, Hnil. simpl. split; [|apply tight_one].
      constructor; [|constructor]. left. by exists line.
    + apply Forall_app in Hgood as [Hgs Hcur].
      inversion Hcur as [|? ? Hc _]; subst.
      pose proof (good_group_nonempty _ _ _ _ Hc) as Hne.
      assert (nonempty (cur st) = true) as Hn by (by destruct (cur st)).
      rewrite Hn, andb_true_r in Hcond.
      rewrite Z.gtb_ltb in Hcond. apply Z.ltb_ge in Hcond.
      split; [|by apply tight_extend].
      apply Forall_app. split; [done|].
      constructor; [|constructor]. right.
      split; [by destruct (cur st)|]. rewrite weight_snoc. lia.
Qed.

Lemma group_fold_inv m all lines st :
  incl lines all -> group_inv m all st ->
  group_inv m all (fold_left (group_step m) lines st).
Proof.
  revert st. induction lines as [|l lines IH]; intros st Hincl Hinv; [done|].
  simpl. apply IH.
  - intros x Hx. apply Hincl. by right.
  - apply group_step_inv; [|done]. apply Hincl. by left.
Qed.

Lemma line_groups_inv t m :
  Forall (good_group 1 m (str_split [NL] (LN.normalize_newlines t))) (line_groups t m)
  /\ tight m (line_groups t m).
Proof.
  unfold line_groups, all_groups.
  set (all := str_split [NL] _).
  destruct (group_fold_inv m all all {| groups := []; cur := []; cur_len := 0 |})
    as (_ & Hst); [apply incl_refl|by split; [|left]|].
  fold (group_loop m all) in Hst.
  destruct Hst as [[Hg Hnil]|[Hgood Htight]].
  - rewrite Hg, Hnil. simpl. split; [constructor|]. intros i ? ? H. by destruct i.
  - apply Forall_app in Hgood as Hg. destruct Hg as [_ Hcur].
    inversion Hcur as [|? ? Hc _]; subst.
    apply good_group_nonempty in Hc.
    by destruct (cur (group_loop m all)).
Qed.

(** ** Size bound (C2) *)

Lemma emit_one_line line : emit_group [str_strip line] = str_strip line.
Proof. unfold emit_group. simpl. apply strip_idem. Qed.

Lemma emit_group_len g : g <> [] -> len (emit_group g) <= weight 1 g - 1.
Proof.
  intros Hne. unfold emit_group.
  pose proof (strip_len (str_join [NL] g)) as H.
  rewrite (len_join [NL] g Hne) in H. exact H.
Qed.

Lemma good_group_join m all g :
  good_group 2 m all g ->
  len (str_join [NL; NL] g) <= m
  \/ exists para, In para all /\ str_join [NL; NL] g = str_strip para.
Proof.
  intros [(para & Hin & ->)|[Hne Hw]].
  - right. by exists para.
  - left. rewrite len_join by done. change (len [NL; NL]) with 2. lia.
Qed.

Lemma para_step_inv m all st para :
  In para all -> para_inv m all st -> para_inv m all (TR.para_step m st para).
Proof.
  intros Hin (Hlen & Hchunks & Hcur). unfold TR.para_step.
  assert (Hone : good_group 2 m all [str_strip para]) by (left; by exists para).
  destruct (negb (truthy (str_strip para))); [done|].
  destruct (_ && _) eqn:Hcond; unfold para_inv;
    cbn [TR.chunks TR.current TR.cur_len].
  - apply andb_true_iff in Hcond as [_ Hne].
    destruct Hcur as [Hnil|Hgood]; [by rewrite Hnil in Hne|].
    split; [simpl; lia|]. split; [|by right].
    apply Forall_app. split; [done|].
    constructor; [|constructor]. by apply good_group_join.
  - split; [rewrite weight_snoc; lia|]. split; [done|]. right.
    destruct Hcur as [Hnil|Hgood]; [by rewrite Hnil|].
    pose proof (good_group_nonempty _ _ _ _ Hgood) as Hne.
    assert (nonempty (TR.current st) = true) as Hn by (by destruct (TR.current st)).
    rewrite Hn, andb_true_r, Z.gtb_ltb in Hcond. apply Z.ltb_ge in Hcond.
    right. split; [by destruct (TR.current st)|]. rewrite weight_snoc. lia.
Qed.

Lemma para_fold_inv m all paras st :
  incl paras all -> para_inv m all st ->
  para_inv m all (fold_left (TR.para_step m) paras st).
Proof.
  revert st. induction paras as [|p paras IH]; intros st Hincl Hinv; [done|].
  simpl. apply IH.
  - intros x Hx. apply Hincl. by right.
  - apply para_step_inv; [|done]. apply Hincl. by left.
Qed.

Lemma chunk_paragraphs_bound t m u :
  In u (TR.chunk_paragraphs t m) ->
  len u <= m
  \/ exists para,
       In para (str_split [NL; NL] (str_replace [CR] [NL] (str_replace [CR; NL] [NL] t)))
       /\ u = str_strip para.
Proof.
  unfold TR.chunk_paragraphs.
  set (all := str_split [NL; NL] _).
  set (st0 := {| TR.chunks := []; TR.current := []; TR.cur_len := 0 |}).
  destruct (para_fold_inv m all all st0) as (_ & Hchunks & Hcur);
    [apply incl_refl | by split; [|split; [constructor|left]] |].
  rewrite List.Forall_forall in Hchunks.
  destruct (TR.current (fold_left (TR.para_step m) all st0)) as [|p ps] eqn:E;
    cbn [nonempty]; intros Hu.
  - by apply Hchunks.
  - apply in_app_or in Hu as [Hu|[<-|[]]]; [by apply Hchunks|].
    destruct Hcur as [|Hgood]; [done|]. by apply good_group_join.
Qed.

(** C2. For every input text and every [max_chars >= 1], every Unit
    [chunk_text] emits is at most [max_chars] long, except when the Unit
    is one line of the input on its own (trimmed, with no line break
    inside) that is itself longer than [max_chars]: such a line is a Unit
    of its own, whole.  The paragraph segmenter of the translation stage
    keeps the same bound, its atomic piece being the trimmed paragraph. *)
Theorem unit_size_bound (t : text) (max_chars : Z) :
  1 <= max_chars ->
  (forall u, In u (lecture_notes_ollama.chunk_text t max_chars) ->
     len u <= max_chars
     \/ (max_chars < len u
         /\ ~ In NL u
         /\ exists line,
              In line (str_split [NL] (lecture_notes_ollama.normalize_newlines t))
              /\ u = str_strip line))
  /\ (forall u, In u (translate_jp_to_en_ollama.chunk_paragraphs t max_chars) ->
        len u <= max_chars
        \/ (max_chars < len u
            /\ exists para,
                 In para (str_split [NL; NL]
                            (str_replace [CR] [NL] (str_replace [CR; NL] [NL] t)))
                 /\ u = str_strip para)).
Proof.
  intros _. split.
  - intros u Hu. rewrite chunk_text_groups in Hu.
    apply List.filter_In in Hu as [Hu _].
    apply List.in_map_iff in Hu as (g & <- & Hg).
    destruct (line_groups_inv t max_chars) as [Hgood _].
    rewrite List.Forall_forall in Hgood.
    destruct (Hgood g Hg) as [(line & Hline & ->)|[Hne Hw]].
    + rewrite emit_one_line.
      destruct (Z_le_gt_dec (len (str_strip line)) max_chars) as [Hle|Hgt];
        [by left|right].
      split; [lia|]. split; [|by exists line].
      intros Hnl. apply in_strip in Hnl.
      pose proof (split_newline_free (LN.normalize_newlines t)) as Hfree.
      rewrite List.Forall_forall in Hfree. by apply (Hfree line).
    + left. pose proof (emit_group_len g Hne). lia.
  - intros u Hu.
    destruct (Z_le_gt_dec (len u) max_chars) as [Hle|Hgt]; [by left|right].
    split; [lia|].
    destruct (chunk_paragraphs_bound t max_chars u Hu) as [Hle|Hpara]; [lia|done].
Qed.

Lemma unit_size_bound_witness :
  let t := lit "abcdefgh
ij
kl" in
  1 <= 5
  /\ (len (lit "abcdefgh") <= 5
      \/ (5 < len (lit "abcdefgh")
          /\ ~ In NL (lit "abcdefgh")
          /\ exists line,
               In line (str_split [NL] (lecture_notes_ollama.normalize_newlines t))
               /\ lit "abcdefgh" = str_strip line)).
Proof.
  split; [lia|].
  apply (proj1 (unit_size_bound (lit "abcdefgh
ij
kl") 5 ltac:(lia))).
  vm_compute. tauto.
Defined.

(** One line of 5000 characters with [max_chars = 3500] is one Unit of
    5000 characters. *)
Example oversized_line_is_one_unit :
  lecture_notes_ollama.chunk_text (repeat 97 5000) 3500 = [repeat 97 5000].
Proof. vm_compute. reflexivity. Qed.

(** An empty input gives no Unit. *)
Example empty_input_no_unit :
  lecture_notes_ollama.chunk_text [] 3500 = []
  /\ translate_jp_to_en_ollama.chunk_paragraphs [] 3500 = [].
Proof. split; reflexivity. Qed.

(** ** Greedy packing (C3) *)

(** C3, as stated, fails: with [max_chars = 5] the two lines [ab] and [cd]
    become two Units, although [ab], a line break and [cd] are five
    characters and fit. *)
Lemma greedy_units_not_maximal :
  1 <= 5
  /\ ~ units_maximal 5 (lecture_notes_ollama.chunk_text (lit "ab
cd") 5).
Proof.
  split; [lia|]. intros H.
  specialize (H 0%nat (lit "ab") (lit "cd") eq_refl eq_refl).
  vm_compute in H. discriminate H.
Qed.

(** Trimming also leaves room: the blank lines counted in the first
    group are trimmed away, and [a], a line break and [b] would fit in 4. *)
Example trimmed_unit_leaves_room :
  lecture_notes_ollama.chunk_text (lit "a


b") 4 = [lit "a"; lit "b"]
  /\ line_groups (lit "a


b") 4 = [[lit "a"; []; []]; [lit "b"]].
Proof. split; reflexivity. Qed.

(** C3, amended.  For every input text and every [max_chars >= 1], the
    Units of [chunk_text] are the trimmed joins of consecutive groups of
    lines (empty ones dropped), and every group but the last is full in
    the budget the loop keeps, which counts one character for every line:
    the group's lines joined by line breaks, with the first line of the
    next group appended, are at least [max_chars] long. *)
Theorem greedy_groups_full (t : text) (max_chars : Z) :
  1 <= max_chars ->
  lecture_notes_ollama.chunk_text t max_chars
  = List.filter truthy (List.map emit_group (line_groups t max_chars))
  /\ forall (i : nat) g g',
       line_groups t max_chars !! i = Some g ->
       line_groups t max_chars !! S i = Some g' ->
       exists l rest,
         g' = l :: rest /\ max_chars <= len (str_join [NL] (g ++ [l])).
Proof.
  intros _. split; [apply chunk_text_groups|].
  intros i g g' Hg Hg'.
  destruct (line_groups_inv t max_chars) as [_ Htight].
  destruct (Htight i g g' Hg Hg') as (l & rest & -> & Hm).
  exists l, rest. split; [done|].
  rewrite len_join by (by destruct g). rewrite weight_snoc.
  change (len [NL]) with 1. lia.
Qed.

Lemma greedy_groups_full_witness :
  let t := lit "ab
cd" in
  1 <= 5
  /\ lecture_notes_ollama.chunk_text t 5
     = List.filter truthy (List.map emit_group (line_groups t 5))
  /\ forall (i : nat) g g',
       line_groups t 5 !! i = Some g ->
       line_groups t 5 !! S i = Some g' ->
       exists l rest, g' = l :: rest /\ 5 <= len (str_join [NL] (g ++ [l])).
Proof. split; [lia | apply (greedy_groups_full _ 5); lia]. Defined.

(** ** The quotient of two lengths as a binary64 float *)

Lemma div_eucl_div_mod a b : Z.div_eucl a b = (a / b, a mod b).
Proof. unfold Z.div, Z.modulo. by destruct (Z.div_eucl a b). Qed.

Lemma new_location_zero nb : new_location nb 0 = loc_Exact.
Proof.
  unfold new_location, new_location_even, new_location_odd.
  by destruct (Z.even nb).
Qed.

(** A length divided by itself is exactly [1.0]. *)
Lemma truediv_same n : 0 < n -> truediv n n = float_1.
Proof.
  intros Hn. destruct n as [|p|p]; [lia| |lia].
  unfold truediv, float_of_int, SFdiv, SFdiv_core_binary.
  rewrite !Z.add_0_r, !Z.sub_diag.
  change (Z.min (fexp 53 1024 0) 0) with (-53).
  change (0 - -53) with 53.
  cbv iota. rewrite Z.shiftl_mul_pow2 by lia.
  rewrite div_eucl_div_mod.
  rewrite (Z.mul_comm (Z.pos p)), Z.div_mul, Z.mod_mul by lia.
  rewrite new_location_zero. reflexivity.
Qed.

(** Zero divided by a length is exactly [0.0]. *)
Lemma truediv_zero n : 0 < n -> truediv 0 n = float_0.
Proof. intros Hn. destruct n as [|p|p]; [lia| |lia]. reflexivity. Qed.

Lemma shr_1_nonneg mrs : 0 <= shr_m mrs -> 0 <= shr_m (shr_1 mrs).
Proof. destruct mrs as [[|[p|p|]|[p|p|]] r s]; simpl; lia. Qed.

Lemma iter_shr_1_nonneg n mrs :
  0 <= shr_m mrs -> 0 <= shr_m (SpecFloat.iter_pos shr_1 n mrs).
Proof.
  revert mrs. induction n as [n IH|n IH|]; intros mrs H; simpl.
  - by apply IH, IH, shr_1_nonneg.
  - by apply IH, IH.
  - by apply shr_1_nonneg.
Qed.

Lemma shr_fexp_nonneg m e l :
  0 <= m -> 0 <= shr_m (fst (shr_fexp 53 1024 m e l)).
Proof.
  intros Hm. unfold shr_fexp, shr.
  assert (Hloc : 0 <= shr_m (shr_record_of_loc m l)) by (by destruct l as [|[]]).
  destruct (fexp 53 1024 (Zdigits2 m + e) - e); cbn [fst]; [done| |done].
  by apply iter_shr_1_nonneg.
Qed.

Lemma round_nearest_even_nonneg mx lx : 0 <= mx -> 0 <= round_nearest_even mx lx.
Proof.
  intros H. destruct lx as [|[]]; simpl; [done| |done|lia].
  destruct (Z.even mx); lia.
Qed.

Lemma binary_round_aux_nonneg mx ex lx :
  0 <= mx -> float_nonneg (binary_round_aux 53 1024 false mx ex lx) = true.
Proof.
  intros Hm. unfold binary_round_aux.
  pose proof (shr_fexp_nonneg mx ex lx Hm) as H1.
  destruct (shr_fexp 53 1024 mx ex lx) as [mrs' e'].
  simpl in H1.
  pose proof (shr_fexp_nonneg _ e' loc_Exact
                (round_nearest_even_nonneg _ (loc_of_shr_record mrs') H1)) as H2.
  destruct (shr_fexp 53 1024 _ e' loc_Exact) as [mrs'' e''].
  simpl in H2. destruct (shr_m mrs''); [done| |lia].
  by destruct (_ <=? _).
Qed.

(** The quotient of a length by a positive length is never negative and
    never NaN. *)
Lemma truediv_nonneg a b : 0 <= a -> 0 < b -> float_nonneg (truediv a b) = true.
Proof.
  intros Ha Hb. destruct b as [|q|q]; [lia| |lia].
  destruct a as [|p|p]; [done| |lia].
  unfold truediv, float_of_int, SFdiv, SFdiv_core_binary.
  rewrite div_eucl_div_mod. apply binary_round_aux_nonneg.
  apply Z.div_pos; [|lia].
  destruct (0 - 0 - _); [lia| |lia].
  apply Z.shiftl_nonneg. lia.
Qed.

Lemma float_ge_nonneg ratio threshold :
  float_nonneg ratio = true -> float_ge float_0 threshold = true ->
  float_ge ratio threshold = true.
Proof.
  unfold float_ge, float_0, SFleb.
  destruct threshold as [s|[]| |[] m e], ratio as [s'|[]| |[] m' e']; try done.
Qed.

Lemma float_ge_zero_positive threshold :
  SFltb float_0 threshold = true -> float_ge float_0 threshold = false.
Proof.
  unfold float_ge, float_0, SFleb, SFltb.
  by destruct threshold as [s|[]| |[] m e].
Qed.

(** ** The target-language heuristic (C7, C9) *)

Lemma looks_like_japanese_nonempty t threshold :
  t <> [] ->
  TL.looks_like_japanese t threshold
  = float_ge (truediv (len (List.filter TL.is_jp_char t)) (len t)) threshold.
Proof.
  intros Hne. unfold TL.looks_like_japanese.
  destruct t as [|c t]; [done|]. cbn [truthy negb].
  replace (Z.max (len (c :: t)) 1) with (len (c :: t)); [done|].
  unfold len. simpl length. lia.
Qed.

Lemma filter_all (f : Z -> bool) t : forallb f t = true -> List.filter f t = t.
Proof.
  induction t as [|c t IH]; simpl; [done|].
  intros [Hc Ht]%andb_true_iff. by rewrite Hc, IH.
Qed.

Lemma len_pos {A} (l : list A) : l <> [] -> 0 < len l.
Proof. destruct l; [done|]. unfold len. simpl. lia. Qed.

(** One target-script character in five is below the default threshold. *)
Example mostly_foreign_not_likely :
  transcribe_lecture.looks_like_japanese (lit "あabcd") float_0_3 = false
  /\ transcribe_lecture.looks_like_japanese (lit "あいabc") float_0_3 = true.
Proof. split; vm_compute; reflexivity. Qed.

(** The literal [0.3] is the binary64 float nearest to 3/10. *)
Example float_0_3_is_three_tenths : truediv 3 10 = float_0_3.
Proof. vm_compute. reflexivity. Qed.

(** C7, as stated, fails on the empty string: it is made of target-script
    characters only (it has no others), the default threshold [0.3] is at
    most [1.0], and yet it is classified as not likely. *)
Lemma empty_string_not_likely :
  forallb transcribe_lecture.is_jp_char [] = true
  /\ float_ge float_1 float_0_3 = true
  /\ transcribe_lecture.looks_like_japanese [] float_0_3 = false.
Proof. repeat split. Qed.

(** C7, amended.  For every non-empty string made only of characters in
    the target script ranges, [looks_like_japanese] answers "likely" for
    every threshold [<= 1.0]; and for every string with no target-script
    character it answers "not likely" for every threshold [> 0]. *)
Theorem heuristic_threshold (t : text) (threshold : float) :
  (t <> [] ->
   forallb transcribe_lecture.is_jp_char t = true ->
   float_ge float_1 threshold = true ->
   transcribe_lecture.looks_like_japanese t threshold = true)
  /\ (List.filter transcribe_lecture.is_jp_char t = [] ->
      SFltb float_0 threshold = true ->
      transcribe_lecture.looks_like_japanese t threshold = false).
Proof.
  split.
  - intros Hne Hall Hthr.
    rewrite looks_like_japanese_nonempty by done.
    rewrite (filter_all _ _ Hall), truediv_same by (by apply len_pos).
    exact Hthr.
  - intros Hnone Hthr. destruct t as [|c t]; [done|].
    rewrite looks_like_japanese_nonempty by done.
    rewrite Hnone. change (len []) with 0.
    rewrite truediv_zero by (by apply len_pos).
    by apply float_ge_zero_positive.
Qed.

Lemma heuristic_threshold_witness :
  (lit "こんにちは" <> []
   /\ forallb transcribe_lecture.is_jp_char (lit "こんにちは") = true
   /\ float_ge float_1 float_0_3 = true
   /\ transcribe_lecture.looks_like_japanese (lit "こんにちは") float_0_3 = true)
  /\ (List.filter transcribe_lecture.is_jp_char (lit "hello") = []
      /\ SFltb float_0 float_0_3 = true
      /\ transcribe_lecture.looks_like_japanese (lit "hello") float_0_3 = false).
Proof.
  split.
  - assert (H1 : lit "こんにちは" <> []) by (vm_compute; discriminate).
    assert (H2 : forallb transcribe_lecture.is_jp_char (lit "こんにちは") = true)
      by (vm_compute; reflexivity).
    assert (H3 : float_ge float_1 float_0_3 = true) by (vm_compute; reflexivity).
    split; [exact H1|]. split; [exact H2|]. split; [exact H3|].
    exact (proj1 (heuristic_threshold (lit "こんにちは") float_0_3) H1 H2 H3).
  - assert (H1 : List.filter transcribe_lecture.is_jp_char (lit "hello") = [])
      by (vm_compute; reflexivity).
    assert (H2 : SFltb float_0 float_0_3 = true) by (vm_compute; reflexivity).
    split; [exact H1|]. split; [exact H2|].
    exact (proj2 (heuristic_threshold (lit "hello") float_0_3) H1 H2).
Defined.

(** C9. On the empty string [looks_like_japanese] returns false for every
    threshold, also for every threshold [<= 0]; at such a threshold every
    non-empty string is classified as likely, even one with no
    target-script character. *)
Theorem heuristic_empty_and_nonpositive :
  (forall threshold : float,
     transcribe_lecture.looks_like_japanese [] threshold = false)
  /\ (forall (t : text) (threshold : float),
        t <> [] ->
        float_ge float_0 threshold = true ->
        transcribe_lecture.looks_like_japanese t threshold = true).
Proof.
  split; [done|].
  intros t threshold Hne Hthr.
  rewrite looks_like_japanese_nonempty by done.
  apply float_ge_nonneg; [|done].
  apply truediv_nonneg; [unfold len; lia | by apply len_pos].
Qed.

Lemma heuristic_empty_and_nonpositive_witness :
  transcribe_lecture.looks_like_japanese [] (S754_zero true) = false
  /\ lit "hello" <> []
  /\ float_ge float_0 (S754_zero true) = true
  /\ transcribe_lecture.looks_like_japanese (lit "hello") (S754_zero true) = true.
Proof.
  assert (H1 : lit "hello" <> []) by (vm_compute; discriminate).
  assert (H2 : float_ge float_0 (S754_zero true) = true) by (vm_compute; reflexivity).
  split; [exact (proj1 heuristic_empty_and_nonpositive (S754_zero true))|].
  split; [exact H1|]. split; [exact H2|].
  exact (proj2 heuristic_empty_and_nonpositive (lit "hello") (S754_zero true) H1 H2).
Defined.

(** ** Trimming *)

Lemma lstrip_head s c r : str_lstrip s = c :: r -> isspace c = false.
Proof.
  induction s as [|x s IH]; simpl; [done|].
  destruct (isspace x) eqn:E; [done|]. by intros [= <- _].
Qed.

Lemma rstrip_head x c r : str_rstrip x = c :: r -> exists r', x = c :: r'.
Proof.
  destruct x as [|c0 x]; [done|]. rewrite rstrip_cons.
  destruct (str_rstrip x); [destruct (isspace c0)|]; intros [= <- _]; by eexists.
Qed.

Lemma strip_trimmed s : str_strip s <> [] -> trimmed (str_strip s).
Proof.
  intros Hne. split.
  - destruct (str_strip s) as [|c r] eqn:E; [done|]. exists c, r. split; [done|].
    unfold str_strip in E. apply rstrip_head in E as [r' E].
    by apply lstrip_head in E.
  - unfold str_strip, str_rstrip in *.
    destruct (str_lstrip (rev (str_lstrip s))) as [|z y] eqn:E; [done|].
    exists (rev y), z. split; [done|]. by apply lstrip_head in E.
Qed.

Lemma trimmed_strip s : trimmed s -> str_strip s = s.
Proof.
  intros [(c & r & -> & Hc) (r' & z & Heq & Hz)].
  unfold str_strip. simpl. rewrite Hc, Heq.
  unfold str_rstrip. rewrite rev_app_distr. simpl. rewrite Hz.
  simpl. by rewrite rev_involutive.
Qed.

Lemma lstrip_cut s :
  exists pre, s = pre ++ str_lstrip s /\ forallb isspace pre = true.
Proof.
  induction s as [|c s (pre & IH & Hpre)]; [by exists []|].
  cbn [str_lstrip]. destruct (isspace c) eqn:E.
  - exists (c :: pre). cbn [forallb app]. rewrite E, Hpre. split; [by f_equal|done].
  - by exists [].
Qed.

Lemma rstrip_cut s :
  exists post, s = str_rstrip s ++ post /\ forallb isspace post = true.
Proof.
  unfold str_rstrip. destruct (lstrip_cut (rev s)) as (pre & Hs & Hpre).
  exists (rev pre). split.
  - rewrite <- rev_app_distr, <- Hs. by rewrite rev_involutive.
  - rewrite forallb_forall in Hpre. apply forallb_forall.
    intros x Hx. apply Hpre. by apply in_rev.
Qed.

(** [str_strip] meets the description of a trim. *)
Lemma strip_trim_of s : trim_of s (str_strip s).
Proof.
  destruct (lstrip_cut s) as (pre & Hs & Hpre).
  destruct (rstrip_cut (str_lstrip s)) as (post & Hl & Hpost).
  exists pre, post. fold (str_strip s) in Hl.
  split; [by rewrite <- Hl|]. split; [done|]. split; [done|].
  destruct (str_strip s) as [|c r] eqn:E; [by left|].
  right. rewrite <- E. apply strip_trimmed. by rewrite E.
Qed.

Lemma lstrip_spaces pre s :
  forallb isspace pre = true -> str_lstrip (pre ++ s) = str_lstrip s.
Proof.
  induction pre as [|c pre IH]; [done|]. cbn [forallb app str_lstrip].
  intros [-> H]%andb_true_iff. by apply IH.
Qed.

Lemma rstrip_spaces s post :
  forallb isspace post = true -> str_rstrip (s ++ post) = str_rstrip s.
Proof.
  intros H. unfold str_rstrip. rewrite rev_app_distr, lstrip_spaces; [done|].
  rewrite forallb_forall in H. apply forallb_forall.
  intros x Hx. apply H. by apply in_rev.
Qed.

(** A text has one trim only, the one [str_strip] computes. *)
Lemma trim_of_strip s r : trim_of s r -> r = str_strip s.
Proof.
  intros (pre & post & -> & Hpre & Hpost & Hr).
  unfold str_strip. rewrite lstrip_spaces by done.
  destruct Hr as [->|Hr].
  - cbn [app]. destruct (lstrip_cut post) as (pre' & Hp & _).
    assert (Hnil : str_lstrip post = []).
    { destruct (str_lstrip post) as [|c x] eqn:E; [done|]. exfalso.
      pose proof (lstrip_head _ _ _ E) as Hc.
      rewrite forallb_forall in Hpost.
      rewrite (Hpost c) in Hc; [done|]. rewrite Hp. apply in_or_app. right. by left. }
    by rewrite Hnil.
  - pose proof (trimmed_strip r Hr) as Hs.
    destruct Hr as [(c & r0 & -> & Hc) _].
    cbn [app str_lstrip]. rewrite Hc.
    change (c :: r0 ++ post) with ((c :: r0) ++ post).
    rewrite rstrip_spaces by done.
    unfold str_strip in Hs. cbn [str_lstrip] in Hs. by rewrite Hc in Hs.
Qed.

(** ** One call to the LLM (C10) *)

Lemma bind_run {A B} (m : M A) (k : A -> M B) tr :
  bind m k tr
  = match fst (m tr) with
    | inl e => (inl e, snd (m tr))
    | inr a => k a (snd (m tr))
    end.
Proof. unfold bind. by destruct (m tr) as [[e|a] tr']. Qed.

Lemma call_ollama_result w prompt model host tr :
  fst (LN.call_ollama w prompt model host tr)
  = match http_post w tr (ollama_url host) (ollama_payload prompt model) 600 with
    | inl e => inl e
    | inr resp =>
      if is_error_status (status_code resp)
      then inl (HTTPError (status_code resp))
      else
        match body resp with
        | None => inl JSONDecodeError
        | Some JOther => inl AttributeError
        | Some (JDict d) =>
          match d !! lit "response" with
          | Some (PStr s) => inr (str_strip s)
          | Some _ => inl AttributeError
          | None => inr []
          end
        end
    end.
Proof.
  unfold LN.call_ollama, bind, requests_post, perform,
    raise_for_status, resp_json, py_get, py_strip, raise, ret.
  fold (ollama_url host). fold (ollama_payload prompt model).
  destruct (http_post w tr _ _ 600) as [e|resp]; [done|].
  destruct (is_error_status _); [done|].
  destruct (body resp) as [[d|]|]; [|done|done].
  by destruct (d !! lit "response") as [[]|].
Qed.

Lemma call_ollama_notes_trace w prompt model host tr :
  snd (LN.call_ollama w prompt model host tr)
  = tr ++ [ollama_event w tr prompt model host].
Proof.
  unfold LN.call_ollama, ollama_event, bind, requests_post, perform,
    raise_for_status, resp_json, py_get, py_strip, raise, ret.
  fold (ollama_url host). fold (ollama_payload prompt model).
  destruct (http_post w tr _ _ 600) as [e|resp]; [done|].
  destruct (is_error_status _); [done|].
  destruct (body resp) as [[d|]|]; [|done|done].
  by destruct (default _ _).
Qed.

Lemma call_ollama_same w prompt model host :
  TR.call_ollama w prompt model host = LN.call_ollama w prompt model host.
Proof. reflexivity. Qed.

Lemma call_ollama_notes_success w prompt model host tr resp d :
  http_post w tr (ollama_url host) (ollama_payload prompt model) 600 = inr resp ->
  is_error_status (status_code resp) = false ->
  body resp = Some (JDict d) ->
  fst (LN.call_ollama w prompt model host tr)
  = match d !! lit "response" with
    | Some (PStr s) => inr (str_strip s)
    | Some _ => inl AttributeError
    | None => inr []
    end.
Proof.
  intros Hpost Hok Hbody.
  unfold LN.call_ollama, bind, requests_post, perform,
    raise_for_status, resp_json, py_get, py_strip, raise, ret.
  fold (ollama_url host). fold (ollama_payload prompt model).
  rewrite Hpost, Hok, Hbody.
  by destruct (d !! lit "response") as [[]|].
Qed.

(** C10. Whenever the endpoint answers with a status that is not an error
    status (so for every success status) and a JSON object as body,
    [call_ollama], in both scripts, returns the object's [response]
    string without its leading and trailing whitespace: what is cut off
    on either side is whitespace only, and what is returned is empty or
    starts and ends with a character that is not whitespace.  When the
    object has no [response] field it returns the empty string and
    raises nothing. *)
Theorem call_ollama_returns_trimmed_response
        (w : world) (prompt model host : text) (tr : list event)
        (resp : response) (d : gmap text pyval) :
  http_post w tr (ollama_url host) (ollama_payload prompt model) 600 = inr resp ->
  is_error_status (status_code resp) = false ->
  body resp = Some (JDict d) ->
  (forall s, d !! lit "response" = Some (PStr s) ->
     exists r,
       trim_of s r
       /\ fst (lecture_notes_ollama.call_ollama w prompt model host tr) = inr r
       /\ fst (translate_jp_to_en_ollama.call_ollama w prompt model host tr) = inr r)
  /\ (d !! lit "response" = None ->
      fst (lecture_notes_ollama.call_ollama w prompt model host tr) = inr []
      /\ fst (translate_jp_to_en_ollama.call_ollama w prompt model host tr)
         = inr []).
Proof.
  intros Hpost Hok Hbody.
  pose proof (call_ollama_notes_success _ _ _ _ _ _ _ Hpost Hok Hbody) as H.
  split; [intros s Hs | intros Hs]; rewrite Hs in H.
  - exists (str_strip s). split; [apply strip_trim_of|].
    split; try rewrite call_ollama_same; exact H.
  - split; try rewrite call_ollama_same; exact H.
Qed.

Lemma call_ollama_returns_trimmed_response_witness :
  let d1 : gmap text pyval := {[ lit "response" := PStr (lit "  notes
") ]} in
  let d2 : gmap text pyval := {[ lit "done" := PBool true ]} in
  (d1 !! lit "response" = Some (PStr (lit "  notes
"))
   /\ trim_of (lit "  notes
") (lit "notes")
   /\ fst (lecture_notes_ollama.call_ollama (answering_world d1) (lit "p") (lit "m") (lit "h") [])
      = inr (lit "notes")
   /\ fst (translate_jp_to_en_ollama.call_ollama (answering_world d1) (lit "p") (lit "m") (lit "h") [])
      = inr (lit "notes"))
  /\ (d2 !! lit "response" = None
      /\ fst (lecture_notes_ollama.call_ollama (answering_world d2) (lit "p") (lit "m") (lit "h") [])
         = inr []).
Proof.
  intros d1 d2.
  assert (H1 : d1 !! lit "response" = Some (PStr (lit "  notes
"))) by (vm_compute; reflexivity).
  assert (H2 : d2 !! lit "response" = None) by (vm_compute; reflexivity).
  split.
  - split; [exact H1|].
    destruct (proj1 (call_ollama_returns_trimmed_response
                       (answering_world d1) (lit "p") (lit "m") (lit "h") []
                       (Response 200 (Some (JDict d1))) d1
                       eq_refl eq_refl eq_refl) _ H1)
      as (r & Htrim & Hln & Htr).
    assert (Hr : r = lit "notes").
    { pose proof Hln as Hc. vm_compute in Hc. injection Hc as <-.
      vm_compute. reflexivity. }
    rewrite Hr in Htrim, Hln, Htr. split; [exact Htrim|]. split; [exact Hln | exact Htr].
  - split; [exact H2|].
    exact (proj1 (proj2 (call_ollama_returns_trimmed_response
                    (answering_world d2) (lit "p") (lit "m") (lit "h") []
                    (Response 200 (Some (JDict d2))) d2
                    eq_refl eq_refl eq_refl) H2)).
Defined.

(** A success status alone is not enough.  With status 200, a body that
    is valid JSON but not an object (so it has no [response] field), an
    object whose [response] is [null], and a body that is not JSON at
    all each make [call_ollama] raise instead of returning a text. *)
Theorem success_status_may_raise :
  let answers_with := fun b =>
    constant_world true (inr []) [] (inr (Response 200 b)) (inr 0) (inr ∅) in
  let ask := fun w =>
    fst (lecture_notes_ollama.call_ollama w (lit "prompt") (lit "llama3.1")
           (lit "http://localhost:11434") []) in
  is_error_status 200 = false
  /\ ask (answers_with (Some JOther)) = inl AttributeError
  /\ ask (answers_with (Some (JDict {[ lit "response" := PNone ]}))) = inl AttributeError
  /\ ask (answers_with None) = inl JSONDecodeError.
Proof. cbv zeta. split; [|split; [|split]]; vm_compute; reflexivity. Qed.

(** ** Decimal numerals *)

Lemma digits_value_snoc d c : digits_value (d ++ [c]) = 10 * digits_value d + (c - 48).
Proof. unfold digits_value. by rewrite fold_left_app. Qed.

Lemma digits_from_decimal fuel : forall n acc,
  0 <= n < 2 ^ (Z.of_nat fuel + 1) ->
  exists d,
    digits_from fuel n acc = d ++ acc
    /\ d <> []
    /\ forallb is_digit d = true
    /\ (hd 0 d = 48 -> n = 0 /\ d = [48])
    /\ digits_value d = n.
Proof.
  assert (Hone : forall n acc, 0 <= n < 10 ->
            exists d, (48 + n mod 10) :: acc = d ++ acc
                      /\ d <> []
                      /\ forallb is_digit d = true
                      /\ (hd 0 d = 48 -> n = 0 /\ d = [48])
                      /\ digits_value d = n).
  { intros n acc Hn. exists [48 + n mod 10].
    rewrite Z.mod_small by lia.
    split; [done|]. split; [done|]. split.
    - cbn [forallb is_digit]. unfold is_digit.
      rewrite andb_true_r. apply andb_true_iff. split; apply Z.leb_le; lia.
    - split.
      + cbn [hd]. intros H. assert (n = 0) as -> by lia. by split.
      + unfold digits_value. cbn [fold_left]. lia. }
  induction fuel as [|f IH]; intros n acc Hn.
  - cbn [digits_from]. apply Hone. change (Z.of_nat 0 + 1) with 1 in Hn. lia.
  - cbn [digits_from]. destruct (Z.ltb_spec n 10) as [Hlt|Hge]; [apply Hone; lia|].
    assert (Hpow : 0 < 2 ^ (Z.of_nat f + 1)) by (apply Z.pow_pos_nonneg; lia).
    assert (Hq : 0 <= n / 10 < 2 ^ (Z.of_nat f + 1)).
    { split; [apply Z.div_pos; lia|]. apply Z.div_lt_upper_bound; [lia|].
      replace (Z.of_nat (S f) + 1) with (Z.succ (Z.of_nat f + 1)) in Hn by lia.
      rewrite Z.pow_succ_r in Hn by lia. lia. }
    destruct (IH (n / 10) ((48 + n mod 10) :: acc) Hq)
      as (d & Hd & Hne & Hdig & Hhd & Hval).
    exists (d ++ [48 + n mod 10]).
    split; [by rewrite Hd, <- app_assoc|].
    split; [by destruct d|]. split.
    + rewrite forallb_app, Hdig. cbn [forallb andb]. unfold is_digit.
      pose proof (Z.mod_pos_bound n 10 ltac:(lia)).
      rewrite andb_true_r. apply andb_true_iff. split; apply Z.leb_le; lia.
    + split.
      * destruct d as [|c d]; [done|]. cbn [app hd] in *. intros H.
        destruct (Hhd H) as [H0 _]. exfalso.
        assert (1 <= n / 10) by (apply Z.div_le_lower_bound; lia). lia.
      * rewrite digits_value_snoc, Hval.
        pose proof (Z.div_mod n 10 ltac:(lia)). lia.
Qed.

(** [str] of a non-negative integer is its decimal numeral. *)
Lemma str_of_int_decimal n : 0 <= n -> decimal_of n (str_of_int n).
Proof.
  intros Hn. unfold str_of_int.
  destruct (Z.ltb_spec n 0) as [|_]; [lia|].
  destruct (digits_from_decimal (Z.to_nat (Z.log2 n)) n []) as (d & Hd & Hne & Hdig & Hhd & Hval).
  { rewrite Z2Nat.id by apply Z.log2_nonneg.
    destruct (Z.eq_dec n 0) as [->|Hpos]; [done|].
    pose proof (Z.log2_spec n ltac:(lia)) as [_ H].
    split; [done|]. by rewrite Z.add_1_r. }
  rewrite Hd, app_nil_r. split; [done|]. split; [done|]. split; [|done].
  intros H. by destruct (Hhd H).
Qed.

(** ** The second-pass request of the notes stage (C4) *)

Lemma part_blocks_lookup summaries : forall (z : Z) (i : nat) s,
  summaries !! i = Some s ->
  LN.part_blocks z summaries !! i
  = Some (lit "[Part " ++ str_of_int (z + Z.of_nat i + 1) ++ lit "]" ++ [NL] ++ s).
Proof.
  induction summaries as [|s0 rest IH]; intros z i s Hs; [done|].
  cbn [LN.part_blocks]. rewrite lookup_cons. rewrite lookup_cons in Hs.
  destruct i as [|i].
  - injection Hs as ->. change (Z.of_nat 0) with 0. by rewrite Z.add_0_r.
  - rewrite (IH _ _ _ Hs).
    by replace (z + 1 + Z.of_nat i + 1) with (z + Z.of_nat (S i) + 1) by lia.
Qed.

Lemma part_blocks_length summaries z :
  length (LN.part_blocks z summaries) = length summaries.
Proof.
  revert z. induction summaries as [|s rest IH]; intros z; simpl; [done|].
  by rewrite IH.
Qed.

Lemma join_offsets_length o k blocks :
  length (join_offsets o k blocks) = length blocks.
Proof. revert o. induction blocks as [|b rest IH]; intros o; simpl; [done|]. by rewrite IH. Qed.

Lemma join_offsets_next k blocks : forall o (i : nat) a a' b,
  join_offsets o k blocks !! i = Some a ->
  join_offsets o k blocks !! S i = Some a' ->
  blocks !! i = Some b ->
  a' = (a + length b + k)%nat.
Proof.
  induction blocks as [|b0 rest IH]; intros o i a a' b Ha Ha' Hb; [done|].
  destruct i as [|i]; simpl in *.
  - injection Ha as <-. injection Hb as <-.
    destruct rest; simpl in Ha'; [done|]. by injection Ha' as <-.
  - by eapply IH.
Qed.

Lemma occurs_at_here pre b rest : occurs_at (length pre) b (pre ++ b ++ rest).
Proof.
  unfold occurs_at. by rewrite drop_app_length, take_app_length.
Qed.

(** Every piece of a joined text occurs in it at its offset. *)
Lemma join_occurs sep blocks : forall pre post (i : nat) b o,
  blocks !! i = Some b ->
  join_offsets (length pre) (length sep) blocks !! i = Some o ->
  occurs_at o b (pre ++ str_join sep blocks ++ post).
Proof.
  induction blocks as [|b0 rest IH]; intros pre post i b o Hb Ho; [done|].
  destruct i as [|i].
  - simpl in Hb, Ho. injection Hb as ->. injection Ho as <-.
    destruct rest as [|b1 rest].
    + apply occurs_at_here.
    + change (str_join sep (b :: b1 :: rest))
        with (b ++ sep ++ str_join sep (b1 :: rest)).
      rewrite <- (app_assoc b). apply occurs_at_here.
  - destruct rest as [|b1 rest]; [done|].
    change (str_join sep (b0 :: b1 :: rest))
      with (b0 ++ sep ++ str_join sep (b1 :: rest)).
    replace (pre ++ (b0 ++ sep ++ str_join sep (b1 :: rest)) ++ post)
      with ((pre ++ b0 ++ sep) ++ str_join sep (b1 :: rest) ++ post)
      by (by rewrite <- !app_assoc).
    apply (IH _ _ i); [done|].
    cbn [join_offsets] in Ho. rewrite lookup_cons in Ho.
    rewrite !length_app. by rewrite Nat.add_assoc.
Qed.

(** C4. For every non-empty list of chunk-level summaries,
    [build_final_notes_from_summaries] sends exactly one request to the
    LLM, and its prompt holds every summary, each right behind its label
    [[Part i]] and a line break, where [i] is the decimal numeral of the
    summary's 1-based position; the blocks stand at offsets that are
    strictly ascending in [i], each block ending before the next one
    starts. *)
Theorem final_request_enumerates_parts
        (w : world) (summaries : list text) (model host : text) (tr : list event) :
  (0 < length summaries)%nat ->
  snd (lecture_notes_ollama.build_final_notes_from_summaries w summaries model host tr)
  = tr ++ [ollama_event w tr (lecture_notes_ollama.final_prompt summaries) model host]
  /\ length (part_offsets summaries) = length summaries
  /\ (forall (i : nat) s o,
        summaries !! i = Some s ->
        part_offsets summaries !! i = Some o ->
        decimal_of (Z.of_nat i + 1) (str_of_int (Z.of_nat i + 1))
        /\ occurs_at o
             (lit "[Part " ++ str_of_int (Z.of_nat i + 1) ++ lit "]" ++ [NL] ++ s)
             (lecture_notes_ollama.final_prompt summaries))
  /\ (forall (i : nat) s o o',
        summaries !! i = Some s ->
        part_offsets summaries !! i = Some o ->
        part_offsets summaries !! S i = Some o' ->
        (o + length (lit "[Part " ++ str_of_int (Z.of_nat i + 1) ++ lit "]"
                     ++ [NL] ++ s) < o')%nat).
Proof.
  intros _. split; [apply call_ollama_notes_trace|].
  unfold part_offsets. set (blocks := LN.part_blocks 0 summaries).
  assert (Hblock : forall (i : nat) s, summaries !! i = Some s ->
                     blocks !! i = Some (part_block i s)).
  { intros i s Hs. pose proof (part_blocks_lookup _ 0 i s Hs) as H.
    rewrite Z.add_0_l in H. exact H. }
  split; [by rewrite join_offsets_length; apply part_blocks_length|]. split.
  - intros i s o Hs Ho. split; [apply str_of_int_decimal; lia|].
    unfold LN.final_prompt.
    apply (join_occurs [NL; NL] blocks _ _ i); [by apply Hblock|done].
  - intros i s o o' Hs Ho Ho'.
    rewrite (join_offsets_next _ _ _ _ _ _ _ Ho Ho' (Hblock _ _ Hs)).
    unfold part_block. lia.
Qed.

Lemma final_request_enumerates_parts_witness :
  let summaries := [lit "- a"; lit "- b"; lit "- c"] in
  let w := answering_world ∅ in
  let prompt := lecture_notes_ollama.final_prompt summaries in
  (0 < length summaries)%nat
  /\ snd (lecture_notes_ollama.build_final_notes_from_summaries w summaries (lit "m") (lit "h") [])
     = [ollama_event w [] prompt (lit "m") (lit "h")]
  /\ part_offsets summaries = [973; 987; 1001]%nat
  /\ occurs_at 973 (lit "[Part 1]
- a") prompt
  /\ occurs_at 987 (lit "[Part 2]
- b") prompt
  /\ occurs_at 1001 (lit "[Part 3]
- c") prompt
  /\ (973 + 12 < 987)%nat
  /\ (987 + 12 < 1001)%nat.
Proof.
  intros summaries w prompt.
  assert (Hpos : (0 < length summaries)%nat) by (simpl; lia).
  destruct (final_request_enumerates_parts w summaries (lit "m") (lit "h") [] Hpos)
    as (Htr & Hlen & Hocc & Hasc).
  assert (H0 : part_offsets summaries !! 0%nat = Some 973%nat) by (vm_compute; reflexivity).
  assert (H1 : part_offsets summaries !! 1%nat = Some 987%nat) by (vm_compute; reflexivity).
  assert (H2 : part_offsets summaries !! 2%nat = Some 1001%nat) by (vm_compute; reflexivity).
  split; [exact Hpos|]. split; [exact Htr|].
  split; [vm_compute; reflexivity|].
  split; [exact (proj2 (Hocc 0%nat (lit "- a") 973%nat eq_refl H0))|].
  split; [exact (proj2 (Hocc 1%nat (lit "- b") 987%nat eq_refl H1))|].
  split; [exact (proj2 (Hocc 2%nat (lit "- c") 1001%nat eq_refl H2))|].
  split; [exact (Hasc 0%nat (lit "- a") 973%nat 987%nat eq_refl H0 H1)|].
  exact (Hasc 1%nat (lit "- b") 987%nat 1001%nat eq_refl H1 H2).
Defined.

(** ** Sorting the segment files (C8) *)

Lemma text_leb_refl a : text_leb a a = true.
Proof. induction a as [|x a IH]; simpl; [done|]. by rewrite Z.ltb_irrefl. Qed.

Lemma text_leb_total a : forall b, text_leb a b = false -> text_leb b a = true.
Proof.
  induction a as [|x a IH]; intros [|y b] H; simpl in *; try done.
  destruct (Z.ltb_spec x y); [done|].
  destruct (Z.ltb_spec y x); [done|]. by apply IH.
Qed.

Lemma path_leb_total p : forall q, path_leb p q = false -> path_leb q p = true.
Proof.
  induction p as [|a p IH]; intros [|b q] H; simpl in *; try done.
  rewrite (andb_comm (text_leb b a)).
  destruct (text_leb a b && text_leb b a); [by apply IH|].
  by apply text_leb_total.
Qed.

Lemma path_ltb_asym p q : path_ltb p q = true -> path_ltb q p = false.
Proof.
  unfold path_ltb. intros H. apply negb_true_iff in H.
  by rewrite (path_leb_total _ _ H).
Qed.

Lemma path_leb_common dir p q : path_leb (dir ++ p) (dir ++ q) = path_leb p q.
Proof.
  induction dir as [|c dir IH]; simpl; [done|].
  by rewrite text_leb_refl.
Qed.

Lemma path_ltb_same_dir dir a b :
  text_ltb a b = true -> path_ltb (path_div dir a) (path_div dir b) = true.
Proof.
  unfold text_ltb, path_ltb, path_div. intros H. apply negb_true_iff in H.
  rewrite path_leb_common. simpl. by rewrite H.
Qed.

(** Inserting into a sorted list, between what is below and what is above. *)
Lemma insert_sorted_between x s1 s2 :
  Forall (fun y => path_ltb y x = true) s1 ->
  Forall (fun y => path_ltb x y = true) s2 ->
  insert_sorted x (s1 ++ s2) = s1 ++ x :: s2.
Proof.
  intros H1 H2. induction H1 as [|y s1 Hy _ IH]; simpl.
  - destruct H2 as [|y s2 Hy _]; simpl; [done|]. by rewrite Hy.
  - by rewrite (path_ltb_asym _ _ Hy), IH.
Qed.

(** [sorted] returns the strictly ascending arrangement of its input,
    whatever order the input comes in. *)
Lemma sorted_permutation l : forall l0,
  Permutation l l0 ->
  StronglySorted (fun p q => path_ltb p q = true) l0 ->
  sorted l = l0.
Proof.
  induction l as [|x l IH]; intros l0 Hperm Hsorted.
  - apply Permutation_nil in Hperm. by subst.
  - assert (In x l0) as Hin by (apply (Permutation_in _ Hperm); by left).
    apply in_split in Hin as (s1 & s2 & ->).
    apply Permutation_cons_app_inv in Hperm.
    apply StronglySorted_app in Hsorted as (Hcross & Hs1 & Hs2).
    apply StronglySorted_inv in Hs2 as [Hs2 Hx].
    simpl. rewrite (IH (s1 ++ s2) Hperm).
    + apply insert_sorted_between; [|done].
      apply List.Forall_forall. intros y Hy.
      apply Hcross; [by apply list_elem_of_In | by left].
    + apply StronglySorted_app. split; [|done].
      intros a b Ha Hb. apply Hcross; [done | by right].
Qed.

Lemma strictly_ascending_sorted l :
  strictly_ascending l = true ->
  StronglySorted (fun a b => text_ltb a b = true) l.
Proof.
  induction l as [|x l IH]; simpl; [constructor|].
  intros [Hx Hl]%andb_true_iff. constructor; [by apply IH|].
  apply List.Forall_forall. intros y Hy.
  by apply (proj1 (List.forallb_forall _ _) Hx).
Qed.

(** Up to a thousand segments the zero-padded names ascend with the index. *)
Lemma three_digit_names_ascending : strictly_ascending (segment_names 1000) = true.
Proof. vm_compute. reflexivity. Qed.

Lemma segment_names_app n k :
  segment_names (n + k) = segment_names n ++ List.map (fun i => TL.chunk_file_name (Z.of_nat i)) (seq n k).
Proof. unfold segment_names. by rewrite seq_app, List.map_app. Qed.

Lemma segment_names_sorted n :
  (n <= 1000)%nat ->
  StronglySorted (fun a b => text_ltb a b = true) (segment_names n).
Proof.
  intros Hn.
  pose proof (strictly_ascending_sorted _ three_digit_names_ascending) as H.
  replace 1000%nat with (n + (1000 - n))%nat in H by lia.
  rewrite segment_names_app in H. by apply StronglySorted_app_1_l in H.
Qed.

Lemma segment_paths_sorted dir names :
  StronglySorted (fun a b => text_ltb a b = true) names ->
  StronglySorted (fun p q => path_ltb p q = true) (List.map (path_div dir) names).
Proof.
  induction 1 as [|a names _ IH Ha]; simpl; constructor; [done|].
  apply List.Forall_forall. intros p (b & <- & Hb)%List.in_map_iff.
  rewrite List.Forall_forall in Ha. by apply path_ltb_same_dir, Ha.
Qed.

(** With four digits the order breaks: segment 1000 sorts before 101. *)
Lemma four_digit_name_out_of_order :
  text_ltb (TL.chunk_file_name 1000) (TL.chunk_file_name 101) = true.
Proof. reflexivity. Qed.

(** One run of [split_audio], step by step. *)
Lemma split_audio_run w input_path chunk_seconds tr :
  TL.split_audio w input_path chunk_seconds tr
  = let dir := TL.chunk_dir_of input_path in
    let cmd := TL.ffmpeg_cmd input_path chunk_seconds in
    let made := fs_mkdir w tr dir in
    let tr1 := tr ++ [EvMkdir dir made] in
    match made with
    | inl e => (inl e, tr1)
    | inr _ =>
      match run_process w tr1 cmd with
      | inl e => (inl e, tr1 ++ [EvRun cmd (inl e)])
      | inr returncode =>
        let tr2 := tr1 ++ [EvRun cmd (inr returncode)] in
        if returncode =? 0 then
          let found :=
            List.map (path_div dir)
                     (List.filter TL.matches_chunk_glob (fs_listdir w tr2 dir)) in
          (match sorted found with
           | [] => inl (SystemExit 1)
           | chunks => inr chunks
           end,
           tr2 ++ [EvGlob dir found])
        else (inl (CalledProcessError returncode), tr2)
      end
    end.
Proof.
  unfold TL.split_audio, TL.subprocess_run_check, TL.glob_chunks,
    bind, perform, ret, raise. cbv zeta.
  destruct (fs_mkdir w tr _) as [e|u]; [done|].
  destruct (run_process w _ _) as [e|rc]; [done|].
  destruct (rc =? 0); [|done]. by destruct (sorted _).
Qed.

(** C8. When the chunk directory could be made, the demuxer exits with 0
    and the chunk directory then holds, in whatever order it lists them,
    the segment files numbered [000] to [n-1] for some [1 <= n <= 1000]
    (the range the three-digit pattern pads), [split_audio] returns
    exactly these files in ascending numeric order of their index. *)
Theorem split_audio_numeric_order
        (w : world) (input_path : path) (chunk_seconds : Z)
        (tr : list event) (n : nat) :
  (1 <= n <= 1000)%nat ->
  fs_mkdir w tr (transcribe_lecture.chunk_dir_of input_path) = inr tt ->
  run_process w (tr ++ [EvMkdir (transcribe_lecture.chunk_dir_of input_path) (inr tt)])
              (transcribe_lecture.ffmpeg_cmd input_path chunk_seconds) = inr 0 ->
  Permutation
    (List.filter transcribe_lecture.matches_chunk_glob
       (fs_listdir w (trace_before_glob tr input_path chunk_seconds)
                   (transcribe_lecture.chunk_dir_of input_path)))
    (segment_names n) ->
  fst (transcribe_lecture.split_audio w input_path chunk_seconds tr)
  = inr (List.map (path_div (transcribe_lecture.chunk_dir_of input_path))
                  (segment_names n)).
Proof.
  intros [Hn1 Hn2] Hmade Hrun Hperm.
  rewrite split_audio_run. cbv zeta. rewrite Hmade, Hrun.
  cbn [Z.eqb]. fold (trace_before_glob tr input_path chunk_seconds).
  set (dir := TL.chunk_dir_of input_path) in *.
  rewrite (sorted_permutation _ (List.map (path_div dir) (segment_names n))).
  - destruct n as [|n]; [lia|]. reflexivity.
  - by apply Permutation_map.
  - by apply segment_paths_sorted, segment_names_sorted.
Qed.

Lemma split_audio_numeric_order_witness :
  (1 <= 3 <= 1000)%nat
  /\ fst (transcribe_lecture.split_audio three_segment_world lecture_m4a 600 [])
     = inr (List.map (path_div (transcribe_lecture.chunk_dir_of lecture_m4a))
                     (segment_names 3)).
Proof.
  split; [lia|].
  apply (split_audio_numeric_order three_segment_world lecture_m4a 600 [] 3).
  - lia.
  - reflexivity.
  - reflexivity.
  - vm_compute.
    eapply perm_trans; [apply perm_swap | apply perm_skip, perm_swap].
Defined.

(** ** Skipping and flagging transcribed Units (C5) *)

Lemma asr_texts_app tr1 tr2 : asr_texts (tr1 ++ tr2) = asr_texts tr1 ++ asr_texts tr2.
Proof.
  induction tr1 as [|e tr1 IH]; simpl; [done|].
  destruct (asr_text e); simpl; by rewrite IH.
Qed.

(** One iteration of the loop of [transcribe_chunks]. *)
Lemma transcribe_loop_cons w language i c rest all_texts tr :
  TL.transcribe_loop w language i (c :: rest) all_texts tr
  = let r := whisper_transcribe w tr (path_str c) language (lit "transcribe") false in
    let tr' := tr ++ [EvTranscribe (path_str c) language (lit "transcribe") false r] in
    match r with
    | inl e => (inl e, tr')
    | inr result =>
      match default (PStr []) (result !! lit "text") with
      | PStr s =>
        TL.transcribe_loop w language (i + 1) rest
                           (all_texts ++ unit_result i c (str_strip s)) tr'
      | _ => (inl AttributeError, tr')
      end
    end.
Proof.
  cbn [TL.transcribe_loop]. unfold bind, TL.model_transcribe, perform, py_strip.
  cbv zeta.
  destruct (whisper_transcribe w tr _ _ _ _) as [e|result]; [done|].
  destruct (default (PStr []) (result !! lit "text")); try done.
  unfold ret, unit_result.
  destruct (negb (truthy _)); [by rewrite app_nil_r|].
  by destruct (negb (TL.looks_like_japanese _ _)).
Qed.

Lemma transcribe_loop_spec w language chunks :
  forall i all_texts tr,
  exists evs,
    snd (TL.transcribe_loop w language i chunks all_texts tr) = tr ++ evs
    /\ (forallb asr_ok evs = true ->
        length (asr_texts evs) = length chunks
        /\ fst (TL.transcribe_loop w language i chunks all_texts tr)
           = inr (all_texts ++ unit_results i chunks (asr_texts evs))).
Proof.
  induction chunks as [|c rest IH]; intros i all_texts tr.
  - exists []. simpl. by rewrite !app_nil_r.
  - rewrite transcribe_loop_cons. cbv zeta.
    destruct (whisper_transcribe w tr (path_str c) language (lit "transcribe") false)
      as [e|result].
    { eexists [_]. split; [done|]. intros H. by cbn [forallb asr_ok andb] in H. }
    set (ev := EvTranscribe (path_str c) language (lit "transcribe") false (inr result)).
    assert (Hev : asr_text ev
                  = match default (PStr []) (result !! lit "text") with
                    | PStr s => Some (str_strip s) | _ => None end)
      by done.
    destruct (default (PStr []) (result !! lit "text")) as [| | |s|] eqn:Ed;
      try (exists [ev]; split; [done|]; intros H;
           cbn [forallb] in H; unfold ev in H; cbn [asr_ok] in H;
           fold ev in H; by rewrite Hev in H).
    destruct (IH (i + 1) (all_texts ++ unit_result i c (str_strip s)) (tr ++ [ev]))
      as (evs & Htr & Hok).
    exists (ev :: evs). split; [by rewrite Htr, <- app_assoc|].
    intros H. cbn [forallb] in H. apply andb_true_iff in H as [_ H].
    destruct (Hok H) as [Hlen Hres].
    cbn [asr_texts]. rewrite Hev. cbn [unit_results length].
    split; [by rewrite Hlen|]. by rewrite Hres, app_assoc.
Qed.

Lemma transcribe_chunks_unfold w chunks model_name language tr :
  TL.transcribe_chunks w chunks model_name language tr
  = let device := if mps_is_available w then lit "mps" else lit "cpu" in
    let r := whisper_load_model w tr model_name device in
    let tr1 := tr ++ [EvLoadModel model_name device r] in
    match r with
    | inl e => (inl e, tr1)
    | inr _ =>
      match fst (TL.transcribe_loop w language 1 chunks [] tr1) with
      | inl e => (inl e, snd (TL.transcribe_loop w language 1 chunks [] tr1))
      | inr all_texts =>
        (inr (str_strip (str_join [NL] all_texts)),
         snd (TL.transcribe_loop w language 1 chunks [] tr1))
      end
    end.
Proof.
  unfold TL.transcribe_chunks, bind, perform, ret. cbv zeta.
  destruct (whisper_load_model w tr model_name _) as [e|u]; [done|].
  by destruct (TL.transcribe_loop _ _ _ _ _ _) as [[e|all_texts] tr'].
Qed.

Lemma unit_results_app pre : forall i tpre c post t tpost,
  length tpre = length pre ->
  unit_results i (pre ++ c :: post) (tpre ++ t :: tpost)
  = unit_results i pre tpre ++ unit_result (i + len pre) c t
    ++ unit_results (i + len pre + 1) post tpost.
Proof.
  induction pre as [|c0 pre IH]; intros i [|t0 tpre] c post t tpost Hlen;
    try done.
  - simpl. change (len []) with 0. by rewrite Z.add_0_r.
  - cbn [app unit_results]. rewrite IH by (simpl in Hlen; lia).
    replace (i + len (c0 :: pre)) with (i + 1 + len pre)
      by (unfold len; cbn [length]; lia).
    by rewrite <- app_assoc.
Qed.

(** C5. In every transcription run in which the ASR collaborator keeps
    its contract, the run does not abort, and its transcript is the
    trimmed join of what each Unit adds at its own 1-based position [i],
    written as a decimal numeral.  A Unit whose trimmed result is empty
    adds nothing, and the Units after it keep their position numbers.  A
    Unit whose non-empty result fails the heuristic adds one entry: a
    line break, the marker [[? 非日本語っぽいチャンク i]], a blank, its
    text unchanged, a line break.  Any other Unit adds one entry: a line
    break, the header [----- [Chunk i] name -----], a line break, its
    text, a line break. *)
Theorem transcription_skips_and_flags
        (w : world) (chunks : list path) (model_name language : text) :
  let run := transcribe_lecture.transcribe_chunks w chunks model_name language [] in
  let texts := asr_texts (snd run) in
  forallb asr_ok (snd run) = true ->
  length texts = length chunks
  /\ fst run = inr (str_strip (str_join [NL] (unit_results 1 chunks texts)))
  /\ forall pre c post tpre t tpost,
       chunks = pre ++ c :: post -> texts = tpre ++ t :: tpost ->
       length tpre = length pre ->
       unit_results 1 chunks texts
       = unit_results 1 pre tpre ++ unit_result (len pre + 1) c t
         ++ unit_results (len pre + 2) post tpost
       /\ decimal_of (len pre + 1) (str_of_int (len pre + 1))
       /\ (t = [] -> unit_result (len pre + 1) c t = [])
       /\ (t <> [] ->
           transcribe_lecture.looks_like_japanese t float_0_3 = false ->
           unit_result (len pre + 1) c t
           = [[NL] ++ lit "[? 非日本語っぽいチャンク " ++ str_of_int (len pre + 1)
                   ++ lit "] " ++ t ++ [NL]])
       /\ (t <> [] ->
           transcribe_lecture.looks_like_japanese t float_0_3 = true ->
           unit_result (len pre + 1) c t
           = [[NL] ++ lit "----- [Chunk " ++ str_of_int (len pre + 1) ++ lit "] "
                   ++ path_name c ++ lit " -----" ++ [NL] ++ t ++ [NL]]).
Proof.
  intros run texts Hok.
  assert (Hrun : length texts = length chunks
                 /\ fst run = inr (str_strip (str_join [NL] (unit_results 1 chunks texts)))).
  { subst texts run. revert Hok. rewrite transcribe_chunks_unfold. cbv zeta.
    set (device := if mps_is_available w then _ else _).
    destruct (whisper_load_model w [] model_name device) as [e|u];
      [intros H; by cbn in H|].
    destruct (transcribe_loop_spec w language chunks 1 []
                ([] ++ [EvLoadModel model_name device (inr u)]))
      as (evs & Htr & Hspec).
    assert (Hsnd :
              snd (match fst (TL.transcribe_loop w language 1 chunks []
                              ([] ++ [EvLoadModel model_name device (inr u)])) with
                   | inl e => (inl e, snd (TL.transcribe_loop w language 1 chunks []
                              ([] ++ [EvLoadModel model_name device (inr u)])))
                   | inr all_texts =>
                     (inr (str_strip (str_join [NL] all_texts)),
                      snd (TL.transcribe_loop w language 1 chunks []
                              ([] ++ [EvLoadModel model_name device (inr u)])))
                   end)
              = EvLoadModel model_name device (inr u) :: evs).
    { by destruct (fst _); cbn [snd]; rewrite Htr. }
    rewrite Hsnd. intros Hok. cbn [forallb asr_ok andb asr_texts asr_text] in Hok |- *.
    destruct (Hspec Hok) as [Hlen Hres]. rewrite Hres. by split. }
  destruct Hrun as [Hlen Hfst]. split; [done|]. split; [done|].
  intros pre c post tpre t tpost -> -> Hl.
  rewrite unit_results_app by done.
  replace (1 + len pre) with (len pre + 1) by lia.
  replace (len pre + 1 + 1) with (len pre + 2) by lia.
  split; [done|].
  split; [apply str_of_int_decimal; unfold len; lia|].
  unfold unit_result, TL.noisy_entry, TL.chunk_entry. split; [|split].
  - by intros ->.
  - intros Hne Hnot. rewrite Hnot. by destruct t.
  - intros Hne Hyes. rewrite Hyes. by destruct t.
Qed.

Example transcribe_chunks_demo :
  fst (transcribe_lecture.transcribe_chunks asr_world three_segments
         (lit "large") (lit "ja") [])
  = inr (lit "[? 非日本語っぽいチャンク 2] thank you for watching


----- [Chunk 3] chunk_002.m4a -----
今日は江戸時代の話をします。").
Proof. vm_compute. reflexivity. Qed.

Lemma transcription_skips_and_flags_witness :
  let run := transcribe_lecture.transcribe_chunks asr_world three_segments
               (lit "large") (lit "ja") [] in
  let segment := fun i =>
    path_div (transcribe_lecture.chunk_dir_of lecture_m4a)
             (transcribe_lecture.chunk_file_name i) in
  forallb asr_ok (snd run) = true
  /\ asr_texts (snd run)
     = [[]; lit "thank you for watching"; lit "今日は江戸時代の話をします。"]
  /\ fst run
     = inr (lit "[? 非日本語っぽいチャンク 2] thank you for watching


----- [Chunk 3] chunk_002.m4a -----
今日は江戸時代の話をします。")
  /\ unit_result 1 (segment 0) [] = []
  /\ unit_result 2 (segment 1) (lit "thank you for watching")
     = [lit "
[? 非日本語っぽいチャンク 2] thank you for watching
"]
  /\ unit_result 3 (segment 2) (lit "今日は江戸時代の話をします。")
     = [lit "
----- [Chunk 3] chunk_002.m4a -----
今日は江戸時代の話をします。
"].
Proof.
  intros run segment.
  assert (Hok : forallb asr_ok (snd run) = true) by (vm_compute; reflexivity).
  assert (Htexts : asr_texts (snd run)
                   = [[]; lit "thank you for watching";
                      lit "今日は江戸時代の話をします。"])
    by (vm_compute; reflexivity).
  destruct (transcription_skips_and_flags asr_world three_segments
              (lit "large") (lit "ja") Hok) as (_ & Hres & Hunit).
  split; [exact Hok|]. split; [exact Htexts|].
  split; [etransitivity; [exact Hres | vm_compute; reflexivity]|].
  split; [|split].
  - exact (proj1 (proj2 (proj2
             (Hunit [] (segment 0) [segment 1; segment 2]
                    [] [] [lit "thank you for watching";
                           lit "今日は江戸時代の話をします。"]
                    eq_refl Htexts eq_refl))) eq_refl).
  - assert (Hne : lit "thank you for watching" <> []) by discriminate.
    assert (Hnot : transcribe_lecture.looks_like_japanese
                     (lit "thank you for watching") float_0_3 = false)
      by (vm_compute; reflexivity).
    exact (proj1 (proj2 (proj2 (proj2
             (Hunit [segment 0] (segment 1) [segment 2]
                    [[]] (lit "thank you for watching")
                    [lit "今日は江戸時代の話をします。"]
                    eq_refl Htexts eq_refl)))) Hne Hnot).
  - assert (Hne : lit "今日は江戸時代の話をします。" <> []) by discriminate.
    assert (Hyes : transcribe_lecture.looks_like_japanese
                     (lit "今日は江戸時代の話をします。") float_0_3 = true)
      by (vm_compute; reflexivity).
    exact (proj2 (proj2 (proj2 (proj2
             (Hunit [segment 0; segment 1] (segment 2) []
                    [[]; lit "thank you for watching"]
                    (lit "今日は江戸時代の話をします。") []
                    eq_refl Htexts eq_refl)))) Hne Hyes).
Defined.

(** ** All or nothing (C6) *)

Lemma writes_app tr1 tr2 : writes (tr1 ++ tr2) = writes tr1 ++ writes tr2.
Proof. apply List.filter_app. Qed.

Lemma calls_app tr1 tr2 : calls (tr1 ++ tr2) = calls tr1 ++ calls tr2.
Proof. apply List.filter_app. Qed.

Lemma tidy_ret {A} (a : A) (Q : A -> list event -> Prop) :
  Q a [] -> tidy (ret a) Q.
Proof.
  intros HQ tr. exists []. simpl. rewrite app_nil_r.
  split; [done|]. split; [done|]. intros b [= <-]. by split.
Qed.

Lemma tidy_raise {A} (e : exn) (Q : A -> list event -> Prop) :
  tidy (raise e) Q.
Proof. intros tr. exists []. simpl. by rewrite app_nil_r. Qed.

Lemma tidy_bind {A B} (m : M A) (k : A -> M B) Q1 Q2
      (Q : B -> list event -> Prop) :
  tidy m Q1 -> (forall a, tidy (k a) (Q2 a)) ->
  (forall a b e1 e2, Q1 a e1 -> Q2 a b e2 -> Q b (e1 ++ e2)) ->
  tidy (bind m k) Q.
Proof.
  intros Hm Hk HQ tr. destruct (Hm tr) as (e1 & Hs1 & Hw1 & Hok1).
  unfold bind. destruct (m tr) as [[e|a] tr1]; simpl in Hs1, Hok1; subst tr1.
  - exists e1. by split.
  - destruct (Hk a (tr ++ e1)) as (e2 & Hs2 & Hw2 & Hok2).
    exists (e1 ++ e2). split; [by rewrite Hs2, app_assoc|].
    split; [by rewrite writes_app, Hw1, Hw2|].
    intros b Hb. destruct (Hok1 a eq_refl) as [Hg1 HQ1].
    destruct (Hok2 b Hb) as [Hg2 HQ2].
    split; [by rewrite forallb_app, Hg1, Hg2 | by eapply HQ].
Qed.

Lemma tidy_weaken {A} (m : M A) (Q Q' : A -> list event -> Prop) :
  tidy m Q -> (forall a evs, Q a evs -> Q' a evs) -> tidy m Q'.
Proof.
  intros Hm HQ tr. destruct (Hm tr) as (evs & Hs & Hw & Hok).
  exists evs. split; [done|]. split; [done|].
  intros a Ha. destruct (Hok a Ha). split; [done | by apply HQ].
Qed.




Lemma tidy_call_ollama w prompt model host :
  tidy (LN.call_ollama w prompt model host)
       (fun _ evs => length (calls evs) = 1%nat).
Proof.
  intros tr. exists [ollama_event w tr prompt model host].
  split; [apply call_ollama_notes_trace|]. split; [reflexivity|].
  intros a Ha. split; [|reflexivity].
  revert Ha.
  unfold LN.call_ollama, ollama_event, bind, requests_post, perform,
    raise_for_status, raise.
  fold (ollama_url host). fold (ollama_payload prompt model).
  destruct (http_post w tr _ _ 600) as [e|resp]; [done|].
  unfold went_well, failed. cbn [forallb].
  destruct (is_error_status (status_code resp)); [intros Ha; by cbn in Ha|done].
Qed.

Lemma tidy_load_text w p :
  tidy (load_text w p) (fun t evs => fs_read_text w p = inr t /\ evs = []).
Proof.
  intros tr. exists []. unfold load_text. simpl. rewrite app_nil_r.
  split; [done|]. split; [done|]. by intros a ->.
Qed.

Lemma tidy_summarize_all w model host total chunks :
  forall i summaries,
    tidy (LN.summarize_all w model host total i chunks summaries)
         (fun _ evs => length (calls evs) = length chunks).
Proof.
  induction chunks as [|c rest IH]; intros i summaries.
  - by apply tidy_ret.
  - cbn [LN.summarize_all]. eapply tidy_bind.
    + apply tidy_call_ollama.
    + intros summary. apply IH.
    + intros x y e1 e2 H1 H2. cbn beta in *.
      rewrite calls_app, length_app, H1, H2. done.
Qed.

Lemma tidy_translate_all w model host chunks :
  forall translated,
    tidy (TR.translate_all w model host chunks translated)
         (fun _ evs => length (calls evs) = length chunks).
Proof.
  induction chunks as [|c rest IH]; intros translated.
  - by apply tidy_ret.
  - cbn [TR.translate_all]. eapply tidy_bind.
    + apply tidy_call_ollama.
    + intros en. apply IH.
    + intros x y e1 e2 H1 H2. cbn beta in *.
      rewrite calls_app, length_app, H1, H2. done.
Qed.



Lemma insert_sorted_length x l : length (insert_sorted x l) = S (length l).
Proof.
  induction l as [|y l IH]; simpl; [done|].
  destruct (path_ltb x y); simpl; by rewrite ?IH.
Qed.

Lemma sorted_length l : length (sorted l) = length l.
Proof.
  induction l as [|x l IH]; simpl; [done|].
  by rewrite insert_sorted_length, IH.
Qed.

Lemma tidy_split_audio w input_path chunk_seconds :
  tidy (TL.split_audio w input_path chunk_seconds)
       (fun chunks evs =>
          exists segments,
            In (EvGlob (TL.chunk_dir_of input_path) segments) evs
            /\ length chunks = length segments
            /\ calls evs = []).
Proof.
  intros tr. rewrite split_audio_run. cbv zeta.
  set (dir := TL.chunk_dir_of input_path).
  set (cmd := TL.ffmpeg_cmd input_path chunk_seconds).
  destruct (fs_mkdir w tr dir) as [e|u].
  { exists [EvMkdir dir (inl e)]. split; [done|]. by split. }
  destruct (run_process w (tr ++ [EvMkdir dir (inr u)]) cmd) as [e|rc].
  { exists [EvMkdir dir (inr u); EvRun cmd (inl e)].
    split; [by rewrite <- app_assoc|]. by split. }
  destruct (rc =? 0) eqn:Hrc.
  2:{ exists [EvMkdir dir (inr u); EvRun cmd (inr rc)].
      split; [by rewrite <- app_assoc|]. by split. }
  set (found := List.map (path_div dir) _).
  exists [EvMkdir dir (inr u); EvRun cmd (inr rc); EvGlob dir found].
  split; [cbn [snd]; by rewrite <- !app_assoc|].
  split; [done|].
  intros chunks Hres. cbn [fst] in Hres.
  assert (Hfound : found <> [] /\ chunks = sorted found).
  { destruct (sorted found) as [|p ps] eqn:Es; [done|].
    injection Hres as <-. split; [|done].
    intros Hnil. by rewrite Hnil in Es. }
  destruct Hfound as [Hne ->]. split.
  - unfold went_well. cbn [forallb failed]. rewrite Hrc.
    by destruct found.
  - exists found. rewrite sorted_length. split; [|done].
    right. right. by left.
Qed.

Lemma tidy_model_transcribe w audio language task fp16 :
  tidy (TL.model_transcribe w audio language task fp16)
       (fun _ evs => length (calls evs) = 1%nat).
Proof.
  intros tr. unfold TL.model_transcribe, perform.
  eexists [_]. split; [done|]. split; [done|].
  intros result Hres. cbn [fst] in Hres. rewrite Hres. by split.
Qed.

Lemma tidy_py_strip v : tidy (py_strip v) (fun _ evs => evs = []).
Proof. destruct v; try apply tidy_raise. by apply tidy_ret. Qed.

Lemma tidy_transcribe_loop w language chunks :
  forall i all_texts,
    tidy (TL.transcribe_loop w language i chunks all_texts)
         (fun _ evs => length (calls evs) = length chunks).
Proof.
  induction chunks as [|c rest IH]; intros i all_texts.
  - by apply tidy_ret.
  - cbn [TL.transcribe_loop]. eapply tidy_bind.
    + apply tidy_model_transcribe.
    + intros result. eapply tidy_bind with
        (Q := fun _ evs => length (calls evs) = length rest).
      * apply tidy_py_strip.
      * intros t. destruct (negb (truthy t)); [apply IH|].
        destruct (negb (TL.looks_like_japanese t float_0_3)); apply IH.
      * intros x y e1 e2 -> H2. exact H2.
    + intros x y e1 e2 H1 H2. cbn beta in *.
      rewrite calls_app, length_app, H1, H2. done.
Qed.

Lemma tidy_transcribe_chunks w chunks model_name language :
  tidy (TL.transcribe_chunks w chunks model_name language)
       (fun _ evs => length (calls evs) = length chunks).
Proof.
  unfold TL.transcribe_chunks. eapply tidy_bind with
    (Q1 := fun _ evs => calls evs = []).
  - intros tr. unfold perform. eexists [_]. split; [done|]. split; [done|].
    intros u Hu. cbn [fst] in Hu. rewrite Hu. by split.
  - intros u. eapply tidy_bind.
    + apply tidy_transcribe_loop.
    + intros all_texts. by apply tidy_ret with (Q := fun _ evs => evs = []).
    + intros x y e1 e2 H1 ->. rewrite app_nil_r. exact H1.
  - intros x y e1 e2 H1 H2. cbn beta in *. by rewrite calls_app, H1.
Qed.




(* ===================================================================== *)
(** * Further properties of the code                                      *)
(* ===================================================================== *)

(** ** Units are trimmed and never empty *)

Lemma trimmed_nonempty s : trimmed s -> s <> [].
Proof. by intros [(c & r & -> & _) _]. Qed.

Lemma trimmed_content s : trimmed s -> content s <> [].
Proof. intros [(c & r & -> & Hc) _]. simpl. by rewrite Hc. Qed.

Lemma trimmed_app a x b : trimmed a -> trimmed b -> trimmed (a ++ x ++ b).
Proof.
  intros [(c & r & -> & Hc) _] [_ (r' & z & -> & Hz)]. split.
  - by exists c, (r ++ x ++ r' ++ [z]).
  - exists ((c :: r) ++ x ++ r'), z. by rewrite <- !app_assoc.
Qed.

Lemma trimmed_join sep ps :
  ps <> [] -> Forall trimmed ps -> trimmed (str_join sep ps).
Proof.
  induction ps as [|p [|q ps] IH]; intros Hne Hall; [done| |].
  - by inversion Hall.
  - change (str_join sep (p :: q :: ps)) with (p ++ sep ++ str_join sep (q :: ps)).
    inversion Hall; subst. apply trimmed_app; [done|]. by apply IH.
Qed.

Lemma chunk_text_units_trimmed t m u :
  In u (LN.chunk_text t m) -> trimmed u.
Proof.
  rewrite chunk_text_groups.
  intros [(g & <- & _)%List.in_map_iff Hu]%List.filter_In.
  apply strip_trimmed. unfold emit_group in Hu. by destruct (str_strip _).
Qed.

(** The paragraph loop only ever holds trimmed paragraphs and trimmed
    chunks. *)
Lemma para_step_trimmed m st para :
  Forall trimmed (TR.chunks st) -> Forall trimmed (TR.current st) ->
  Forall trimmed (TR.chunks (TR.para_step m st para))
  /\ Forall trimmed (TR.current (TR.para_step m st para)).
Proof.
  intros Hchunks Hcur. unfold TR.para_step.
  assert (Hp : str_strip para <> [] -> trimmed (str_strip para))
    by apply strip_trimmed.
  destruct (str_strip para) as [|c p] eqn:E; cbn [truthy negb]; [done|].
  specialize (Hp ltac:(done)).
  destruct (_ && _) eqn:Hcond; cbn [TR.chunks TR.current].
  - apply andb_true_iff in Hcond as [_ Hne].
    split; [|by constructor]. apply Forall_app. split; [done|].
    constructor; [|constructor]. apply trimmed_join; [|done].
    by destruct (TR.current st).
  - split; [done|]. apply Forall_app. split; [done|]. by constructor.
Qed.

Lemma para_fold_trimmed m paras st :
  Forall trimmed (TR.chunks st) -> Forall trimmed (TR.current st) ->
  Forall trimmed (TR.chunks (fold_left (TR.para_step m) paras st))
  /\ Forall trimmed (TR.current (fold_left (TR.para_step m) paras st)).
Proof.
  revert st. induction paras as [|p paras IH]; intros st H1 H2; [done|].
  simpl. destruct (para_step_trimmed m st p H1 H2). by apply IH.
Qed.

Lemma chunk_paragraphs_units_trimmed t m u :
  In u (TR.chunk_paragraphs t m) -> trimmed u.
Proof.
  unfold TR.chunk_paragraphs.
  set (paras := str_split [NL; NL] _).
  set (st0 := {| TR.chunks := []; TR.current := []; TR.cur_len := 0 |}).
  destruct (para_fold_trimmed m paras st0) as [Hchunks Hcur];
    [constructor..|].
  rewrite List.Forall_forall in Hchunks.
  destruct (TR.current (fold_left (TR.para_step m) paras st0)) as [|p ps] eqn:E;
    cbn [nonempty]; intros Hu; [by apply Hchunks|].
  apply in_app_or in Hu as [Hu|[<-|[]]]; [by apply Hchunks|].
  by apply trimmed_join.
Qed.

(** X1. Every Unit that [chunk_text] or the paragraph loop of the
    translation script emits is non-empty and is its own trim: it neither
    starts nor ends with whitespace. *)
Theorem units_nonempty_and_trimmed (t : text) (max_chars : Z) (u : text) :
  In u (lecture_notes_ollama.chunk_text t max_chars)
  \/ In u (translate_jp_to_en_ollama.chunk_paragraphs t max_chars) ->
  u <> [] /\ str_strip u = u.
Proof.
  intros Hu.
  assert (trimmed u) as Ht.
  { destruct Hu; [by eapply chunk_text_units_trimmed
                 | by eapply chunk_paragraphs_units_trimmed]. }
  split; [by apply trimmed_nonempty | by apply trimmed_strip].
Qed.

Lemma units_nonempty_and_trimmed_witness :
  In (lit "cd") (lecture_notes_ollama.chunk_text (lit "  ab
 cd  ") 3)
  /\ lit "cd" <> [] /\ str_strip (lit "cd") = lit "cd".
Proof.
  assert (H : In (lit "cd") (lecture_notes_ollama.chunk_text (lit "  ab
 cd  ") 3)) by (vm_compute; tauto).
  split; [exact H|].
  exact (units_nonempty_and_trimmed _ 3 _ (or_introl H)).
Defined.

(** ** No Unit exactly when there is nothing but whitespace *)

Lemma no_units_iff_no_content (units : list text) t :
  Forall trimmed units -> content (concat units) = content t ->
  units = [] <-> content t = [].
Proof.
  intros Hall Hc. split.
  - intros ->. by rewrite <- Hc.
  - intros Ht. destruct units as [|u units]; [done|]. exfalso.
    inversion Hall as [|? ? Hu _]; subst.
    rewrite Ht in Hc. simpl in Hc. rewrite content_app in Hc.
    apply trimmed_content in Hu. by destruct (content u).
Qed.

(** X2. [chunk_text] and the paragraph loop return no Unit exactly when
    the input has no non-whitespace character (in particular on the empty
    input), whatever the budget. *)
Theorem no_units_iff_blank (t : text) (max_chars : Z) :
  (lecture_notes_ollama.chunk_text t max_chars = [] <-> content t = [])
  /\ (translate_jp_to_en_ollama.chunk_paragraphs t max_chars = []
      <-> content t = []).
Proof.
  split; apply no_units_iff_no_content.
  - apply List.Forall_forall. intros u. apply chunk_text_units_trimmed.
  - apply chunk_text_content.
  - apply List.Forall_forall. intros u. apply chunk_paragraphs_units_trimmed.
  - apply chunk_paragraphs_content.
Qed.

(** ** The Units regroup the lines *)

Lemma group_step_concat m st line :
  concat (groups (group_step m st line)) ++ cur (group_step m st line)
  = (concat (groups st) ++ cur st) ++ [str_strip line].
Proof.
  unfold group_step. destruct (_ && _); cbn [groups cur].
  - rewrite concat_app. simpl. by rewrite app_nil_r.
  - by rewrite app_assoc.
Qed.

Lemma group_fold_concat m lines : forall st,
  concat (groups (fold_left (group_step m) lines st))
    ++ cur (fold_left (group_step m) lines st)
  = (concat (groups st) ++ cur st) ++ List.map str_strip lines.
Proof.
  induction lines as [|l lines IH]; intros st; simpl.
  - by rewrite app_nil_r.
  - by rewrite IH, group_step_concat, <- app_assoc.
Qed.

Lemma concat_all_groups st : concat (all_groups st) = concat (groups st) ++ cur st.
Proof.
  unfold all_groups. destruct (cur st) eqn:E; cbn [nonempty].
  - by rewrite app_nil_r.
  - rewrite concat_app. simpl. by rewrite app_nil_r.
Qed.

(** X3. [chunk_text] only regroups lines: the trimmed lines of the
    input, in order and none left out, fall into consecutive non-empty
    groups, and the Units are the trimmed newline-joins of these groups,
    the empty ones dropped.  No line is ever cut in two or moved. *)
Theorem chunk_text_regroups_lines (t : text) (max_chars : Z) :
  exists groups : list (list text),
    concat groups
    = List.map str_strip
               (str_split [NL] (lecture_notes_ollama.normalize_newlines t))
    /\ Forall (fun g => g <> []) groups
    /\ lecture_notes_ollama.chunk_text t max_chars
       = List.filter truthy
           (List.map (fun g => str_strip (str_join [NL] g)) groups).
Proof.
  exists (line_groups t max_chars). split; [|split].
  - unfold line_groups, group_loop.
    by rewrite concat_all_groups, group_fold_concat.
  - destruct (line_groups_inv t max_chars) as [Hgood _].
    eapply Forall_impl; [exact Hgood|].
    intros g. apply good_group_nonempty.
  - apply chunk_text_groups.
Qed.

(** ** A text that fits is one Unit *)

Lemma split_nonempty sep skip s : str_split_from sep skip s <> [].
Proof.
  revert skip. induction s as [|c s IH]; intros skip; simpl; [done|].
  destruct skip; [|apply IH].
  destruct (startswith sep (c :: s)); [done|].
  specialize (IH 0%nat). by destruct (str_split_from sep 0 s).
Qed.

(** ["\n".join(s.split("\n")) == s] *)
Lemma join_split_newline s : str_join [NL] (str_split [NL] s) = s.
Proof.
  induction s as [|c s IH]; [done|].
  rewrite split_newline_cons.
  pose proof (split_nonempty [NL] 0 s) as Hne. fold (str_split [NL] s) in Hne.
  destruct (NL =? c) eqn:E.
  - apply Z.eqb_eq in E as <-.
    destruct (str_split [NL] s) as [|p ps]; [done|].
    change (str_join [NL] ([] :: p :: ps)) with ([] ++ [NL] ++ str_join [NL] (p :: ps)).
    by rewrite IH.
  - destruct (str_split [NL] s) as [|p [|q ps]]; [done| |].
    + simpl in *. by rewrite IH.
    + change (str_join [NL] (cons_head c (p :: q :: ps)))
        with (c :: (p ++ [NL] ++ str_join [NL] (q :: ps))).
      by rewrite <- IH.
Qed.

Lemma weight_nonneg k l : 0 <= k -> 0 <= weight k l.
Proof. intros Hk. induction l as [|x l IH]; simpl; [done|]. unfold len. lia. Qed.

Lemma weight_strip_le k l : weight k (List.map str_strip l) <= weight k l.
Proof.
  induction l as [|x l IH]; simpl; [done|].
  pose proof (strip_len x). lia.
Qed.

Lemma weight_split_newline s : weight 1 (str_split [NL] s) = len s + 1.
Proof.
  pose proof (len_join [NL] (str_split [NL] s) (split_nonempty _ _ _)) as H.
  rewrite join_split_newline in H. change (len [NL]) with 1 in H. lia.
Qed.

(** A replacement that is no longer than what it replaces does not make
    the text longer. *)
Lemma replace_from_len old new :
  len new <= len old ->
  forall s skip,
    len (str_replace_from old new skip s) + Z.min (Z.of_nat skip) (len s) <= len s.
Proof.
  intros Hle. induction s as [|c s IH]; intros skip.
  - simpl. unfold len. simpl. lia.
  - cbn [str_replace_from]. destruct skip as [|k].
    + destruct (startswith old (c :: s)) eqn:Hsw.
      * apply startswith_app in Hsw as [r Hr].
        specialize (IH (length old - 1)%nat).
        rewrite len_app.
        assert (len old <= len (c :: s)) by (rewrite Hr, len_app; unfold len; lia).
        unfold len in *. cbn [length] in *. lia.
      * specialize (IH 0%nat). unfold len in *. cbn [length] in *. lia.
    + specialize (IH k). unfold len in *. cbn [length] in *. lia.
Qed.

Lemma normalize_len t : len (LN.normalize_newlines t) <= len t.
Proof.
  unfold LN.normalize_newlines, str_replace.
  pose proof (replace_from_len [CR; NL] [NL] ltac:(unfold len; simpl; lia) t 0).
  pose proof (replace_from_len [CR] [NL] ltac:(unfold len; simpl; lia)
                (str_replace_from [CR; NL] [NL] 0 t) 0).
  unfold len in *. lia.
Qed.

(** With room for everything left, the loop closes no group. *)
Lemma group_fold_no_flush m lines : forall st,
  groups st = [] -> cur_len st = weight 1 (cur st) ->
  weight 1 (cur st) + weight 1 (List.map str_strip lines) <= m ->
  groups (fold_left (group_step m) lines st) = [].
Proof.
  induction lines as [|l lines IH]; intros st Hg Hlen Hfit; [done|].
  simpl in *. apply IH.
  - unfold group_step.
    pose proof (weight_nonneg 1 (List.map str_strip lines) ltac:(lia)).
    destruct (cur_len st + len (str_strip l) + 1 >? m) eqn:E;
      [apply Z.gtb_lt in E; lia|]. done.
  - unfold group_step.
    pose proof (weight_nonneg 1 (List.map str_strip lines) ltac:(lia)).
    destruct (cur_len st + len (str_strip l) + 1 >? m) eqn:E;
      [apply Z.gtb_lt in E; lia|].
    cbn [andb cur cur_len]. rewrite weight_snoc. lia.
  - unfold group_step.
    pose proof (weight_nonneg 1 (List.map str_strip lines) ltac:(lia)).
    destruct (cur_len st + len (str_strip l) + 1 >? m) eqn:E;
      [apply Z.gtb_lt in E; lia|].
    cbn [andb cur cur_len]. rewrite weight_snoc. lia.
Qed.

Lemma filter_length_le {A} (f : A -> bool) l :
  (length (List.filter f l) <= length l)%nat.
Proof. induction l as [|x l IH]; simpl; [done|]. destruct (f x); simpl; lia. Qed.

(** X4. A text shorter than [max_chars] is never split: [chunk_text]
    returns at most one Unit (none when the text is blank). *)
Theorem short_text_is_one_unit (t : text) (max_chars : Z) :
  len t < max_chars ->
  (length (lecture_notes_ollama.chunk_text t max_chars) <= 1)%nat.
Proof.
  intros Hshort. rewrite chunk_text_groups.
  etransitivity; [apply filter_length_le|]. rewrite length_map.
  unfold line_groups, all_groups, group_loop.
  set (lines := str_split [NL] _).
  set (st0 := {| groups := []; cur := []; cur_len := 0 |}).
  assert (Hfit : weight 1 (List.map str_strip lines) <= max_chars).
  { pose proof (weight_strip_le 1 lines). unfold lines in *.
    rewrite weight_split_newline in *. pose proof (normalize_len t). lia. }
  rewrite (group_fold_no_flush max_chars lines st0); [|done|done|simpl; lia].
  destruct (nonempty _); simpl; lia.
Qed.

Lemma short_text_is_one_unit_witness :
  len (lit "一行目
二行目") < 3500
  /\ (length (lecture_notes_ollama.chunk_text (lit "一行目
二行目") 3500) <= 1)%nat.
Proof.
  assert (H : len (lit "一行目
二行目") < 3500) by (vm_compute; reflexivity).
  split; [exact H|]. exact (short_text_is_one_unit _ 3500 H).
Defined.

(** ** The translation chunks put the paragraphs back together *)

Lemma join_cons sep a l :
  l <> [] -> str_join sep (a :: l) = a ++ sep ++ str_join sep l.
Proof. by destruct l. Qed.

Lemma join_snoc sep l x :
  l <> [] -> str_join sep (l ++ [x]) = str_join sep l ++ sep ++ x.
Proof.
  induction l as [|a [|b l] IH]; intros Hne; [done| |].
  - done.
  - change ((a :: b :: l) ++ [x]) with (a :: ((b :: l) ++ [x])).
    rewrite join_cons by done. rewrite IH by done.
    rewrite (join_cons sep a (b :: l)) by done. by rewrite <- !app_assoc.
Qed.

Lemma join_last_app sep l x y :
  str_join sep (l ++ [x ++ y]) = str_join sep (l ++ [x]) ++ y.
Proof.
  induction l as [|a l IH]; [done|].
  change ((a :: l) ++ [x ++ y]) with (a :: (l ++ [x ++ y])).
  change ((a :: l) ++ [x]) with (a :: (l ++ [x])).
  rewrite !join_cons by (by destruct l). rewrite IH. by rewrite <- !app_assoc.
Qed.

Lemma para_step_pending m st para kept :
  (TR.current st = [] -> TR.chunks st = [] /\ kept = []) ->
  (TR.current st <> [] -> kept <> []) ->
  str_join [NL; NL] (pending st) = str_join [NL; NL] kept ->
  let st' := TR.para_step m st para in
  let kept' := kept ++ List.filter truthy [str_strip para] in
  (TR.current st' = [] -> TR.chunks st' = [] /\ kept' = [])
  /\ (TR.current st' <> [] -> kept' <> [])
  /\ str_join [NL; NL] (pending st') = str_join [NL; NL] kept'.
Proof.
  intros Hnil Hne Hjoin. cbv zeta. unfold TR.para_step.
  set (q := str_strip para). cbn [List.filter].
  destruct (truthy q) eqn:E; cbn [negb]; [|by rewrite app_nil_r].
  destruct (_ && _) eqn:Hcond.
  - apply andb_true_iff in Hcond as [_ Hcur].
    assert (TR.current st <> []) as Hcur' by (by destruct (TR.current st)).
    split; [done|]. split; [by destruct kept|].
    unfold pending in *. rewrite Hcur in Hjoin. cbn [TR.chunks TR.current nonempty].
    change (str_join [NL; NL] [q]) with q.
    rewrite join_snoc by (by destruct (TR.chunks st)).
    transitivity (str_join [NL; NL] kept ++ [NL; NL] ++ q);
      [f_equal; exact Hjoin|].
    symmetry. apply join_snoc. by apply Hne.
  - split; [by destruct (TR.current st)|]. split; [by destruct kept|].
    unfold pending in *. cbn [TR.chunks TR.current].
    destruct (TR.current st) as [|a cur'] eqn:Ecur.
    + destruct (Hnil eq_refl) as [-> ->]. done.
    + cbn [nonempty] in Hjoin.
      change (str_join [NL; NL]
                (TR.chunks st ++ [str_join [NL; NL] ((a :: cur') ++ [q])])
              = str_join [NL; NL] (kept ++ [q])).
      rewrite (join_snoc [NL; NL] (a :: cur') q) by done.
      rewrite join_last_app.
      transitivity (str_join [NL; NL] kept ++ [NL; NL] ++ q);
        [f_equal; exact Hjoin|].
      symmetry. apply join_snoc. by apply Hne.
Qed.

Lemma para_fold_pending m paras : forall st kept,
  (TR.current st = [] -> TR.chunks st = [] /\ kept = []) ->
  (TR.current st <> [] -> kept <> []) ->
  str_join [NL; NL] (pending st) = str_join [NL; NL] kept ->
  str_join [NL; NL] (pending (fold_left (TR.para_step m) paras st))
  = str_join [NL; NL] (kept ++ List.filter truthy (List.map str_strip paras)).
Proof.
  induction paras as [|para paras IH]; intros st kept H1 H2 H3.
  - simpl. by rewrite app_nil_r.
  - destruct (para_step_pending m st para kept H1 H2 H3) as (H1' & H2' & H3').
    simpl fold_left. rewrite (IH _ _ H1' H2' H3').
    rewrite <- app_assoc. f_equal. f_equal. simpl.
    by destruct (truthy (str_strip para)).
Qed.

(** X5. The chunks of the translation stage only regroup paragraphs:
    joined by blank lines they give back the non-empty trimmed paragraphs
    of the input joined by blank lines, whatever the budget.  No paragraph
    is dropped, cut or moved. *)
Theorem translation_chunks_rejoin (t : text) (max_chars : Z) :
  str_join [NL; NL] (translate_jp_to_en_ollama.chunk_paragraphs t max_chars)
  = str_join [NL; NL]
      (List.filter truthy
         (List.map str_strip
            (str_split [NL; NL]
               (str_replace [CR] [NL] (str_replace [CR; NL] [NL] t))))).
Proof.
  unfold TR.chunk_paragraphs.
  set (paras := str_split [NL; NL] _).
  set (st0 := {| TR.chunks := []; TR.current := []; TR.cur_len := 0 |}).
  pose proof (para_fold_pending max_chars paras st0 []) as H.
  unfold pending in H. apply H; done.
Qed.

(** ** One request per call, and what comes back *)

Lemma call_ollama_answer w prompt model host tr r :
  fst (LN.call_ollama w prompt model host tr) = inr r ->
  post_answer (ollama_event w tr prompt model host) = Some r.
Proof.
  rewrite call_ollama_result. unfold ollama_event, post_answer.
  destruct (http_post w tr _ _ 600) as [e|resp]; [done|].
  destruct (is_error_status _); [done|].
  destruct (body resp) as [[d|]|]; [|done|done].
  destruct (d !! lit "response") as [[]|]; try done; by intros [= <-].
Qed.

(** X6. Both copies of [call_ollama] send exactly one request per call,
    to [host + "/api/generate"] with the payload
    [{model, prompt, stream: false}] and a timeout of 600, whatever the
    answer: there is no retry.  A transport exception propagates as it
    is, an error status raises [HTTPError] for that status, and a text
    that is returned never starts or ends with whitespace. *)
Theorem call_ollama_single_request
        (w : world) (prompt model host : text) (tr : list event) :
  let sent :=
    EvPost (host ++ lit "/api/generate")
           {| p_model := model; p_prompt := prompt; p_stream := false |} 600
           (http_post w tr (host ++ lit "/api/generate")
              {| p_model := model; p_prompt := prompt; p_stream := false |} 600) in
  snd (lecture_notes_ollama.call_ollama w prompt model host tr) = tr ++ [sent]
  /\ snd (translate_jp_to_en_ollama.call_ollama w prompt model host tr) = tr ++ [sent]
  /\ (forall e,
        http_post w tr (host ++ lit "/api/generate")
          {| p_model := model; p_prompt := prompt; p_stream := false |} 600 = inl e ->
        fst (lecture_notes_ollama.call_ollama w prompt model host tr) = inl e)
  /\ (forall resp,
        http_post w tr (host ++ lit "/api/generate")
          {| p_model := model; p_prompt := prompt; p_stream := false |} 600 = inr resp ->
        is_error_status (status_code resp) = true ->
        fst (lecture_notes_ollama.call_ollama w prompt model host tr)
        = inl (HTTPError (status_code resp)))
  /\ (forall r,
        fst (lecture_notes_ollama.call_ollama w prompt model host tr) = inr r ->
        str_strip r = r).
Proof.
  cbv zeta. split; [apply call_ollama_notes_trace|].
  split; [apply call_ollama_notes_trace|].
  rewrite call_ollama_result. unfold ollama_url, ollama_payload.
  split; [by intros e ->|]. split; [by intros resp -> ->|].
  intros r.
  destruct (http_post w tr _ _ 600) as [e|resp]; [done|].
  destruct (is_error_status _); [done|].
  destruct (body resp) as [[d|]|]; [|done|done].
  destruct (d !! lit "response") as [[]|]; try done;
    intros [= <-]; [apply strip_idem | done].
Qed.

Lemma call_ollama_single_request_witness :
  snd (lecture_notes_ollama.call_ollama failing_llm_world (lit "p") (lit "m") (lit "h") [])
  = [EvPost (lit "h/api/generate")
       {| p_model := lit "m"; p_prompt := lit "p"; p_stream := false |} 600
       (inr (Response 500 None))]
  /\ is_error_status 500 = true
  /\ fst (lecture_notes_ollama.call_ollama failing_llm_world (lit "p") (lit "m") (lit "h") [])
     = inl (HTTPError 500).
Proof.
  pose proof (call_ollama_single_request failing_llm_world
                (lit "p") (lit "m") (lit "h") []) as H.
  cbv zeta in H. destruct H as (H1 & _ & _ & H4 & _).
  split; [exact H1|]. split; [reflexivity|].
  exact (H4 (Response 500 None) eq_refl eq_refl).
Defined.

(** ** The translation stage asks in chunk order and joins the answers *)

Lemma prompts_app tr1 tr2 : prompts (tr1 ++ tr2) = prompts tr1 ++ prompts tr2.
Proof.
  induction tr1 as [|e tr1 IH]; simpl; [done|].
  destruct (post_prompt e); simpl; by rewrite IH.
Qed.

Lemma answers_app tr1 tr2 : answers (tr1 ++ tr2) = answers tr1 ++ answers tr2.
Proof.
  induction tr1 as [|e tr1 IH]; simpl; [done|].
  destruct (post_answer e); simpl; by rewrite IH.
Qed.

Lemma prompts_ollama_event w tr prompt model host evs :
  prompts (ollama_event w tr prompt model host :: evs) = prompt :: prompts evs.
Proof. reflexivity. Qed.

Lemma writes_ollama_event w tr prompt model host evs :
  writes (ollama_event w tr prompt model host :: evs) = writes evs.
Proof. reflexivity. Qed.

Lemma translate_all_requests w model host chunks :
  forall translated tr,
  exists evs,
    snd (TR.translate_all w model host chunks translated tr) = tr ++ evs
    /\ writes evs = []
    /\ prompts evs `prefix_of` List.map TR.translate_prompt chunks
    /\ forall res,
         fst (TR.translate_all w model host chunks translated tr) = inr res ->
         prompts evs = List.map TR.translate_prompt chunks
         /\ res = translated ++ answers evs
         /\ length evs = length chunks
         /\ length (answers evs) = length evs.
Proof.
  induction chunks as [|ch rest IH]; intros translated tr.
  - exists []. cbn [TR.translate_all]. unfold ret. cbn [fst snd].
    rewrite app_nil_r. split; [reflexivity|]. split; [reflexivity|].
    split; [reflexivity|].
    intros res [= <-]. split; [reflexivity|]. cbn [answers].
    rewrite app_nil_r. split; [reflexivity|]. split; reflexivity.
  - cbn [TR.translate_all List.map]. rewrite bind_run.
    change (TR.call_ollama w (TR.translate_prompt ch) model host)
      with (LN.call_ollama w (TR.translate_prompt ch) model host).
    generalize (TR.translate_prompt ch). intros prompt.
    pose proof (call_ollama_notes_trace w prompt model host tr) as Htr.
    pose proof (call_ollama_answer w prompt model host tr) as Hans.
    destruct (fst (LN.call_ollama w prompt model host tr)) as [e|en].
    + exists [ollama_event w tr prompt model host]. cbn [fst snd].
      split; [exact Htr|]. split; [reflexivity|].
      rewrite prompts_ollama_event.
      split; [|intros res Hres; discriminate Hres].
      apply prefix_cons, prefix_nil.
    + rewrite Htr.
      destruct (IH (translated ++ [en]) (tr ++ [ollama_event w tr prompt model host]))
        as (evs & Hs & Hw & Hp & Hok).
      exists (ollama_event w tr prompt model host :: evs).
      split; [rewrite Hs, <- app_assoc; reflexivity|].
      rewrite writes_ollama_event, prompts_ollama_event.
      split; [exact Hw|]. split.
      * apply prefix_cons. exact Hp.
      * intros res Hres. destruct (Hok res Hres) as (Hp' & -> & Hlen & Hlen').
        rewrite Hp'. split; [reflexivity|].
        cbn [answers]. rewrite (Hans en eq_refl).
        split; [rewrite <- app_assoc; reflexivity|].
        cbn [length]. split; [by rewrite Hlen | by rewrite Hlen'].
Qed.

Lemma translate_main_run w a t :
  fs_exists w (TR.input_file a) = true ->
  fs_read_text w (TR.input_file a) = inr t ->
  TR.main w a []
  = let run := TR.translate_all w (TR.model a) (TR.host a)
                 (TR.chunk_paragraphs t (TR.max_chars a)) [] [] in
    match fst run with
    | inl e => (inl e, snd run)
    | inr translated =>
      let out := path_with_name (TR.input_file a)
                   (path_stem (TR.input_file a) ++ lit "_EN.txt") in
      let content := str_join [NL; NL] translated in
      let result := fs_write_text w (snd run) out content in
      (result, snd run ++ [EvWrite out content result])
    end.
Proof.
  intros Hex Hread. unfold TR.main. rewrite Hex. cbn [negb].
  rewrite bind_run. unfold load_text. cbn [fst snd]. rewrite Hread.
  rewrite bind_run. cbv zeta.
  by destruct (fst (TR.translate_all _ _ _ _ _ _)).
Qed.

(** X7. When the input file is there and readable, the translation stage
    sends its requests in chunk order, each with the prompt built around
    its chunk, and never skips ahead: the prompts sent are always a prefix
    of the prompts of the chunks.  When the write of the file starts,
    whether or not it then succeeds, every chunk has been asked for, and
    the text handed to the write is the trimmed answers joined by blank
    lines in chunk order. *)
Theorem translation_requests_in_order
        (w : world) (a : translate_jp_to_en_ollama.args) (t : text) :
  fs_exists w (translate_jp_to_en_ollama.input_file a) = true ->
  fs_read_text w (translate_jp_to_en_ollama.input_file a) = inr t ->
  let run := translate_jp_to_en_ollama.main w a [] in
  let expected :=
    List.map translate_jp_to_en_ollama.translate_prompt
      (translate_jp_to_en_ollama.chunk_paragraphs
         t (translate_jp_to_en_ollama.max_chars a)) in
  prompts (snd run) `prefix_of` expected
  /\ forall pre p content result,
       snd run = pre ++ [EvWrite p content result] ->
       prompts pre = expected
       /\ content = str_join [NL; NL] (answers pre).
Proof.
  intros Hex Hread. cbv zeta. rewrite (translate_main_run w a t Hex Hread).
  cbv zeta.
  destruct (translate_all_requests w (TR.model a) (TR.host a)
              (TR.chunk_paragraphs t (TR.max_chars a)) [] [])
    as (evs & Hs & Hw & Hp & Hok).
  cbn [app] in Hs. rewrite Hs.
  destruct (fst (TR.translate_all _ _ _ _ _ _)) as [e|res] eqn:Eres.
  - cbn [snd]. split; [exact Hp|]. intros pre p content result ->.
    rewrite writes_app in Hw. by destruct (writes pre).
  - destruct (Hok res eq_refl) as (Hp' & Hres & _). cbn [app] in Hres. subst res.
    cbn [snd].
    split; [rewrite prompts_app, Hp'; cbn [prompts post_prompt]; by rewrite app_nil_r|].
    intros pre p content result [<- [= _ <- _]]%app_inj_tail. by split.
Qed.

Lemma translation_requests_in_order_witness :
  let t := lit "一行目
二行目" in
  fs_exists working_llm_world (translate_jp_to_en_ollama.input_file translate_args) = true
  /\ fs_read_text working_llm_world (translate_jp_to_en_ollama.input_file translate_args)
     = inr t
  /\ prompts (snd (translate_jp_to_en_ollama.main working_llm_world translate_args []))
     `prefix_of`
     List.map translate_jp_to_en_ollama.translate_prompt
       (translate_jp_to_en_ollama.chunk_paragraphs t 3500).
Proof.
  intros t. split; [reflexivity|]. split; [reflexivity|].
  exact (proj1 (translation_requests_in_order working_llm_world translate_args t
                  eq_refl eq_refl)).
Defined.

(** ** The transcription stage decodes the segments in order *)

Lemma transcribe_loop_decodes w language chunks :
  forall i all_texts tr,
  exists evs,
    snd (TL.transcribe_loop w language i chunks all_texts tr) = tr ++ evs
    /\ length (decodes evs) = length evs
    /\ decodes evs `prefix_of` List.map (expected_decode language) chunks
    /\ forall r,
         fst (TL.transcribe_loop w language i chunks all_texts tr) = inr r ->
         decodes evs = List.map (expected_decode language) chunks.
Proof.
  induction chunks as [|c rest IH]; intros i all_texts tr.
  - exists []. cbn [TL.transcribe_loop]. unfold ret. cbn [fst snd].
    by rewrite app_nil_r.
  - rewrite transcribe_loop_cons. cbv zeta. cbn [List.map].
    destruct (whisper_transcribe w tr (path_str c) language (lit "transcribe") false)
      as [e|result].
    { eexists [_]. cbn [fst snd]. split; [reflexivity|]. split; [reflexivity|].
      split; [|intros r Hr; discriminate Hr].
      apply prefix_cons, prefix_nil. }
    set (ev := EvTranscribe (path_str c) language (lit "transcribe") false (inr result)).
    destruct (default (PStr []) (result !! lit "text")) as [| | |s|];
      try (exists [ev]; cbn [fst snd]; split; [reflexivity|]; split; [reflexivity|];
           split; [apply prefix_cons, prefix_nil | intros r Hr; discriminate Hr]).
    destruct (IH (i + 1) (all_texts ++ unit_result i c (str_strip s)) (tr ++ [ev]))
      as (evs & Hs & Hl & Hp & Hok).
    exists (ev :: evs). split; [rewrite Hs, <- app_assoc; reflexivity|].
    cbn [decodes decode_args ev length]. split; [by rewrite Hl|]. split.
    + by apply prefix_cons.
    + intros r Hr. by rewrite (Hok r Hr).
Qed.

(** X8. [transcribe_chunks] loads the model once, before anything else,
    on [mps] when available and on [cpu] otherwise, and then only
    decodes: the segments in the order given, each with the forced
    language, the task [transcribe] (never a translation) and fp16 off.
    It never skips ahead (the decodes made are a prefix of those owed),
    and when it returns every segment has been decoded. *)
Theorem transcription_decodes_in_order
        (w : world) (chunks : list path) (model_name language : text) :
  let run := transcribe_lecture.transcribe_chunks w chunks model_name language [] in
  let device := if mps_is_available w then lit "mps" else lit "cpu" in
  exists evs,
    snd run
    = EvLoadModel model_name device (whisper_load_model w [] model_name device) :: evs
    /\ length (decodes evs) = length evs
    /\ decodes evs `prefix_of` List.map (expected_decode language) chunks
    /\ forall r, fst run = inr r ->
         decodes evs = List.map (expected_decode language) chunks.
Proof.
  cbv zeta. rewrite transcribe_chunks_unfold. cbv zeta.
  set (device := if mps_is_available w then _ else _).
  destruct (whisper_load_model w [] model_name device) as [e|u].
  { exists []. cbn [fst snd app]. split; [reflexivity|]. split; [reflexivity|].
    split; [apply prefix_nil | intros r Hr; discriminate Hr]. }
  destruct (transcribe_loop_decodes w language chunks 1 []
              ([] ++ [EvLoadModel model_name device (inr u)]))
    as (evs & Hs & Hl & Hp & Hok).
  exists evs.
  destruct (fst (TL.transcribe_loop _ _ _ _ _ _)) as [e|all_texts] eqn:E;
    cbn [fst snd]; rewrite Hs; (split; [reflexivity|]); (split; [exact Hl|]);
    (split; [exact Hp|]); intros r Hr; [discriminate Hr|].
  by apply (Hok all_texts).
Qed.

Lemma transcription_decodes_in_order_witness :
  exists evs,
    snd (transcribe_lecture.transcribe_chunks asr_world three_segments
           (lit "large") (lit "ja") [])
    = EvLoadModel (lit "large") (lit "mps") (inr tt) :: evs
    /\ decodes evs = List.map (expected_decode (lit "ja")) three_segments.
Proof.
  destruct (transcription_decodes_in_order asr_world three_segments
              (lit "large") (lit "ja")) as (evs & Hs & _ & _ & Hok).
  exists evs. split; [exact Hs|].
  exact (Hok _ transcribe_chunks_demo).
Defined.

(** ** The notes stage: chunk summaries first, then one request built
    from them *)

Lemma contains_here x r : contains x (x ++ r).
Proof. by exists [], r. Qed.

Lemma contains_here3 a b c r : contains (a ++ b ++ c) (a ++ b ++ c ++ r).
Proof. exists [], r. by rewrite <- !app_assoc. Qed.

Lemma contains_skip a x r : contains x r -> contains x (a ++ r).
Proof. intros (pre & post & ->). exists (a ++ pre), post. by rewrite <- app_assoc. Qed.

Lemma summarize_chunk_prompt w chunk i total model host :
  exists p,
    LN.summarize_chunk w chunk i total model host = LN.call_ollama w p model host
    /\ contains chunk p
    /\ contains (str_of_int i ++ lit "/" ++ str_of_int total) p.
Proof.
  unfold LN.summarize_chunk. cbv zeta. eexists. split; [reflexivity|]. split.
  - do 9 apply contains_skip. apply contains_here.
  - apply contains_skip. apply contains_here3.
Qed.

Lemma summarize_all_requests w model host total chunks :
  forall i summaries tr,
  exists evs,
    snd (LN.summarize_all w model host total i chunks summaries tr) = tr ++ evs
    /\ writes evs = []
    /\ forall res,
         fst (LN.summarize_all w model host total i chunks summaries tr) = inr res ->
         res = summaries ++ answers evs
         /\ length evs = length chunks
         /\ length (answers evs) = length chunks
         /\ forall (k : nat) chunk e,
              chunks !! k = Some chunk -> evs !! k = Some e ->
              exists p,
                post_prompt e = Some p
                /\ contains chunk p
                /\ contains (str_of_int (i + Z.of_nat k) ++ lit "/" ++ str_of_int total) p.
Proof.
  induction chunks as [|chunk rest IH]; intros i summaries tr.
  - exists []. cbn [LN.summarize_all]. unfold ret. cbn [fst snd].
    rewrite app_nil_r. split; [reflexivity|]. split; [reflexivity|].
    intros res [= <-]. cbn [answers]. rewrite app_nil_r.
    split; [reflexivity|]. split; [reflexivity|]. split; [reflexivity|].
    intros k c e Hk. by destruct k.
  - cbn [LN.summarize_all]. rewrite bind_run.
    destruct (summarize_chunk_prompt w chunk i total model host)
      as (prompt & -> & Hchunk & Hlabel).
    pose proof (call_ollama_notes_trace w prompt model host tr) as Htr.
    pose proof (call_ollama_answer w prompt model host tr) as Hans.
    destruct (fst (LN.call_ollama w prompt model host tr)) as [e|summary].
    + exists [ollama_event w tr prompt model host]. cbn [fst snd].
      split; [exact Htr|]. split; [reflexivity|].
      intros res Hres; discriminate Hres.
    + rewrite Htr.
      destruct (IH (i + 1) (summaries ++ [summary])
                  (tr ++ [ollama_event w tr prompt model host]))
        as (evs & Hs & Hw & Hok).
      exists (ollama_event w tr prompt model host :: evs).
      split; [rewrite Hs, <- app_assoc; reflexivity|].
      rewrite writes_ollama_event. split; [exact Hw|].
      intros res Hres. destruct (Hok res Hres) as (-> & Hlen & Hlen' & Hall).
      cbn [answers]. rewrite (Hans summary eq_refl). cbn [length].
      split; [rewrite <- app_assoc; reflexivity|].
      split; [by rewrite Hlen|]. split; [by rewrite Hlen'|].
      intros k c e Hk He. destruct k as [|k].
      * injection Hk as <-. injection He as <-. exists prompt.
        split; [reflexivity|]. split; [exact Hchunk|].
        change (Z.of_nat 0) with 0. by rewrite Z.add_0_r.
      * destruct (Hall k c e Hk He) as (p & Hp & Hc & Hl).
        exists p. split; [exact Hp|]. split; [exact Hc|].
        by replace (i + Z.of_nat (S k)) with (i + 1 + Z.of_nat k) by lia.
Qed.

Lemma notes_main_run w a t :
  fs_exists w (LN.transcript_file a) = true ->
  fs_read_text w (LN.transcript_file a) = inr t ->
  LN.main w a []
  = let chunks := LN.chunk_text t (LN.chunk_chars a) in
    let run1 := LN.summarize_all w (LN.model a) (LN.host a) (len chunks) 1 chunks [] [] in
    match fst run1 with
    | inl e => (inl e, snd run1)
    | inr summaries =>
      let run2 := LN.call_ollama w (LN.final_prompt summaries)
                    (LN.model a) (LN.host a) (snd run1) in
      match fst run2 with
      | inl e => (inl e, snd run2)
      | inr final_notes =>
        let out := path_with_name (LN.transcript_file a)
                     (path_stem (LN.transcript_file a) ++ lit "_NOTES_ollama.txt") in
        let result := fs_write_text w (snd run2) out final_notes in
        (result, snd run2 ++ [EvWrite out final_notes result])
      end
    end.
Proof.
  intros Hex Hread. unfold LN.main. rewrite Hex. cbn [negb].
  rewrite bind_run. unfold load_text. cbn [fst snd]. rewrite Hread.
  rewrite bind_run. cbv zeta.
  destruct (fst (LN.summarize_all _ _ _ _ _ _ _ _)); [reflexivity|].
  rewrite bind_run. unfold LN.build_final_notes_from_summaries.
  by destruct (fst (LN.call_ollama _ _ _ _ _)).
Qed.

(** A run of the notes stage on a readable transcript either starts no
    write, or consists of one request per chunk, the final request over
    the answers, and the write of the answer to that. *)
Lemma notes_run_cases w a t :
  fs_exists w (LN.transcript_file a) = true ->
  fs_read_text w (LN.transcript_file a) = inr t ->
  let chunks := LN.chunk_text t (LN.chunk_chars a) in
  let out := path_with_name (LN.transcript_file a)
               (path_stem (LN.transcript_file a) ++ lit "_NOTES_ollama.txt") in
  writes (snd (LN.main w a [])) = []
  \/ exists evs ev content,
       snd (LN.main w a [])
       = (evs ++ [ev]) ++ [EvWrite out content (fs_write_text w (evs ++ [ev]) out content)]
       /\ length evs = length chunks
       /\ length (answers evs) = length chunks
       /\ post_prompt ev = Some (LN.final_prompt (answers evs))
       /\ post_answer ev = Some content
       /\ forall (k : nat) chunk e,
            chunks !! k = Some chunk -> evs !! k = Some e ->
            exists q,
              post_prompt e = Some q
              /\ contains chunk q
              /\ contains (str_of_int (1 + Z.of_nat k) ++ lit "/"
                           ++ str_of_int (len chunks)) q.
Proof.
  intros Hex Hread. cbv zeta.
  rewrite (notes_main_run w a t Hex Hread). cbv zeta.
  set (chunks := LN.chunk_text t (LN.chunk_chars a)) in *.
  destruct (summarize_all_requests w (LN.model a) (LN.host a) (len chunks) chunks 1 [] [])
    as (evs & Hs & Hw & Hok).
  cbn [app] in Hs. rewrite Hs.
  destruct (fst (LN.summarize_all _ _ _ _ _ _ _ _)) as [e|summaries].
  { left. exact Hw. }
  destruct (Hok summaries eq_refl) as (Hsum & Hlen & Hlen' & Hall).
  cbn [app] in Hsum. subst summaries.
  pose proof (call_ollama_notes_trace w (LN.final_prompt (answers evs))
                (LN.model a) (LN.host a) evs) as Htr.
  pose proof (call_ollama_answer w (LN.final_prompt (answers evs))
                (LN.model a) (LN.host a) evs) as Hans.
  rewrite Htr.
  destruct (fst (LN.call_ollama _ _ _ _ _)) as [e|final_notes].
  { left. cbn [snd]. rewrite writes_app, Hw. reflexivity. }
  right. cbn [snd].
  exists evs, (ollama_event w evs (LN.final_prompt (answers evs)) (LN.model a) (LN.host a)),
    final_notes.
  split; [reflexivity|]. split; [exact Hlen|]. split; [exact Hlen'|].
  split; [reflexivity|]. split; [by apply Hans|]. exact Hall.
Qed.

(** X9. When the notes stage starts the write of its file, it has first
    asked for a summary of every chunk, in order, each request carrying
    the chunk's text and its position [i/n]; it has then sent one last
    request whose prompt is the final prompt over exactly the trimmed
    answers to those requests, in the same order; and the text handed to
    the write is the trimmed answer to that last request. *)
Theorem notes_two_stage_aggregation
        (w : world) (a : lecture_notes_ollama.args) (t : text)
        (pre : list event) (p : path) (content : text) (result : exn + unit) :
  fs_exists w (lecture_notes_ollama.transcript_file a) = true ->
  fs_read_text w (lecture_notes_ollama.transcript_file a) = inr t ->
  snd (lecture_notes_ollama.main w a []) = pre ++ [EvWrite p content result] ->
  let chunks :=
    lecture_notes_ollama.chunk_text t (lecture_notes_ollama.chunk_chars a) in
  exists evs ev,
    pre = evs ++ [ev]
    /\ length evs = length chunks
    /\ length (answers evs) = length chunks
    /\ post_prompt ev = Some (lecture_notes_ollama.final_prompt (answers evs))
    /\ post_answer ev = Some content
    /\ forall (k : nat) chunk e,
         chunks !! k = Some chunk -> evs !! k = Some e ->
         exists q,
           post_prompt e = Some q
           /\ contains chunk q
           /\ contains (str_of_int (1 + Z.of_nat k) ++ lit "/" ++ str_of_int (len chunks)) q.
Proof.
  intros Hex Hread Hrun. cbv zeta.
  destruct (notes_run_cases w a t Hex Hread)
    as [Hw|(evs & ev & c & Hs & Hlen & Hlen' & Hp & Ha & Hall)].
  - rewrite Hrun, writes_app in Hw. by destruct (writes pre).
  - rewrite Hs in Hrun. apply app_inj_tail in Hrun as [<- [= _ <- _]].
    exists evs, ev. by repeat split.
Qed.

Lemma notes_two_stage_aggregation_witness :
  let run := snd (lecture_notes_ollama.main working_llm_world notes_args []) in
  run = removelast run
        ++ [EvWrite [lit "lectures"; lit "week7_transcript_ja_NOTES_ollama.txt"]
                    (lit "ok") (inr tt)]
  /\ exists evs ev,
       removelast run = evs ++ [ev]
       /\ length evs = 2%nat
       /\ post_prompt ev = Some (lecture_notes_ollama.final_prompt (answers evs))
       /\ post_answer ev = Some (lit "ok").
Proof.
  intros run.
  assert (H : run = removelast run
                ++ [EvWrite [lit "lectures"; lit "week7_transcript_ja_NOTES_ollama.txt"]
                            (lit "ok") (inr tt)])
    by (vm_compute; reflexivity).
  split; [exact H|].
  destruct (notes_two_stage_aggregation working_llm_world notes_args _ _ _ _ _
              eq_refl eq_refl H) as (evs & ev & H1 & H2 & _ & H4 & H5 & _).
  exists evs, ev. split; [exact H1|]. split; [|by split].
  rewrite H2. vm_compute. reflexivity.
Defined.

(** ** A failure ends the run *)

Lemma fails_last_nil : fails_last [].
Proof. intros i e H. by destruct i. Qed.

Lemma fails_last_one e : fails_last [e].
Proof. intros [|i] e' H; [done|]. by destruct i. Qed.

Lemma fails_last_app e1 e2 :
  forallb went_well e1 = true -> fails_last e2 -> fails_last (e1 ++ e2).
Proof.
  intros Hok H2 i e Hi Hf. rewrite length_app.
  apply lookup_app_Some in Hi as [Hi|[Hge Hi]].
  - exfalso. apply list_elem_of_lookup_2, list_elem_of_In in Hi.
    apply (proj1 (List.forallb_forall _ _) Hok) in Hi.
    unfold went_well in Hi. by rewrite Hf in Hi.
  - specialize (H2 _ _ Hi Hf). lia.
Qed.

Lemma failfast_ret {A} (a : A) : failfast (ret a).
Proof.
  intros tr. exists []. cbn [ret fst snd]. rewrite app_nil_r.
  split; [done|]. split; [apply fails_last_nil | done].
Qed.

Lemma failfast_raise {A} (e : exn) : failfast (@raise A e).
Proof.
  intros tr. exists []. cbn [raise fst snd]. rewrite app_nil_r.
  split; [done|]. split; [apply fails_last_nil | done].
Qed.

Lemma failfast_bind {A B} (m : M A) (k : A -> M B) :
  failfast m -> (forall a, failfast (k a)) -> failfast (bind m k).
Proof.
  intros Hm Hk tr. rewrite bind_run.
  destruct (Hm tr) as (e1 & Hs1 & Hl1 & Hok1).
  destruct (fst (m tr)) as [e|a].
  - exists e1. cbn [fst snd]. split; [done|]. split; [done|]. done.
  - rewrite Hs1. destruct (Hk a (tr ++ e1)) as (e2 & Hs2 & Hl2 & Hok2).
    specialize (Hok1 a eq_refl).
    exists (e1 ++ e2). split; [by rewrite Hs2, app_assoc|].
    split; [by apply fails_last_app|].
    intros b Hb. by rewrite forallb_app, Hok1, (Hok2 b Hb).
Qed.

(** A computation that adds one event, which went well if it returns. *)
Lemma failfast_single {A} (m : M A) :
  (forall tr, exists e,
      snd (m tr) = tr ++ [e] /\ forall a, fst (m tr) = inr a -> failed e = false) ->
  failfast m.
Proof.
  intros H tr. destruct (H tr) as (e & Hs & Hok). exists [e].
  split; [done|]. split; [apply fails_last_one|].
  intros a Ha. cbn [forallb]. unfold went_well. by rewrite (Hok a Ha).
Qed.

Lemma failfast_tidy {A} (m : M A) Q :
  tidy m Q -> (forall tr, exists e, snd (m tr) = tr ++ [e]) -> failfast m.
Proof.
  intros Ht H1. apply failfast_single. intros tr.
  destruct (H1 tr) as (e & Hs). exists e. split; [done|].
  intros a Ha. destruct (Ht tr) as (evs & Hs' & _ & Hok).
  rewrite Hs in Hs'. apply app_inv_head in Hs' as <-.
  destruct (Hok a Ha) as [Hw _]. cbn [forallb] in Hw.
  unfold went_well in Hw. by destruct (failed e).
Qed.

Lemma failfast_call_ollama w prompt model host :
  failfast (LN.call_ollama w prompt model host).
Proof.
  eapply failfast_tidy; [apply tidy_call_ollama|].
  intros tr. eexists. apply call_ollama_notes_trace.
Qed.

Lemma failfast_load_text w p : failfast (load_text w p).
Proof.
  intros tr. exists []. unfold load_text. cbn [fst snd]. rewrite app_nil_r.
  split; [done|]. split; [apply fails_last_nil | done].
Qed.

Lemma failfast_write_text w p content : failfast (write_text w p content).
Proof.
  apply failfast_single. intros tr. unfold write_text, perform.
  eexists. split; [done|]. intros u Hu. cbn [fst] in Hu. by rewrite Hu.
Qed.

Lemma failfast_summarize_all w model host total chunks :
  forall i summaries, failfast (LN.summarize_all w model host total i chunks summaries).
Proof.
  induction chunks as [|c rest IH]; intros i summaries; [apply failfast_ret|].
  cbn [LN.summarize_all]. apply failfast_bind; [|intros s; apply IH].
  destruct (summarize_chunk_prompt w c i total model host) as (p & -> & _).
  apply failfast_call_ollama.
Qed.

Lemma failfast_translate_all w model host chunks :
  forall translated, failfast (TR.translate_all w model host chunks translated).
Proof.
  induction chunks as [|c rest IH]; intros translated; [apply failfast_ret|].
  cbn [TR.translate_all]. apply failfast_bind; [|intros s; apply IH].
  apply failfast_call_ollama.
Qed.

Lemma failfast_split_audio w input_path chunk_seconds :
  failfast (TL.split_audio w input_path chunk_seconds).
Proof.
  unfold TL.split_audio. apply failfast_bind.
  { apply failfast_single. intros tr. unfold perform.
    eexists. split; [done|]. intros u Hu. cbn [fst] in Hu. by rewrite Hu. }
  intros _. apply failfast_bind.
  { unfold TL.subprocess_run_check. intros tr. rewrite bind_run.
    unfold perform. cbn [fst snd].
    destruct (run_process w tr _) as [e|rc].
    - eexists [_]. split; [done|]. split; [apply fails_last_one | done].
    - eexists [_]. destruct (rc =? 0) eqn:Hrc; cbn [ret raise fst snd];
        (split; [done|]); (split; [apply fails_last_one|]); [|done].
      intros _ _. cbn [forallb]. unfold went_well, failed. by rewrite Hrc. }
  intros _. intros tr. rewrite bind_run. unfold TL.glob_chunks. cbn [fst snd].
  set (found := List.map _ _).
  exists [EvGlob (TL.chunk_dir_of input_path) found].
  split; [by destruct (negb _)|]. split; [apply fails_last_one|].
  intros chunks. destruct found as [|p ps]; [done|]. done.
Qed.

Lemma failfast_transcribe_loop w language chunks :
  forall i all_texts, failfast (TL.transcribe_loop w language i chunks all_texts).
Proof.
  induction chunks as [|c rest IH]; intros i all_texts; [apply failfast_ret|].
  cbn [TL.transcribe_loop]. apply failfast_bind.
  { eapply failfast_tidy; [apply tidy_model_transcribe|].
    intros tr. by eexists. }
  intros result. apply failfast_bind.
  { destruct (default _ _); try apply failfast_raise. apply failfast_ret. }
  intros t. destruct (negb (truthy t)); [apply IH|].
  destruct (negb (TL.looks_like_japanese t float_0_3)); apply IH.
Qed.

Lemma failfast_transcribe_chunks w chunks model_name language :
  failfast (TL.transcribe_chunks w chunks model_name language).
Proof.
  unfold TL.transcribe_chunks. apply failfast_bind.
  { apply failfast_single. intros tr. unfold perform. eexists. split; [done|].
    intros u Hu. cbn [fst] in Hu. by rewrite Hu. }
  intros _. apply failfast_bind; [apply failfast_transcribe_loop|].
  intros all_texts. apply failfast_ret.
Qed.

(** X10. In every run of each of the three stages a failed collaborator
    call (transport error or error status from the LLM, chunk directory
    not made, demuxer not started or exited non-zero, no segment found,
    model not loaded, ASR decode raising, write raising) is the last
    thing the run does: there is no retry, no further call and no write
    after it. *)
Theorem failure_is_last_event (w : world) :
  (forall a, fails_last (snd (lecture_notes_ollama.main w a [])))
  /\ (forall a, fails_last (snd (transcribe_lecture.main w a [])))
  /\ (forall a, fails_last (snd (translate_jp_to_en_ollama.main w a []))).
Proof.
  assert (Hrun : forall m : M unit, failfast m -> fails_last (snd (m []))).
  { intros m Hm. destruct (Hm []) as (evs & Hs & Hl & _). by rewrite Hs. }
  split; [|split]; intros a; apply Hrun.
  - unfold LN.main. destruct (negb _); [apply failfast_ret|].
    apply failfast_bind; [apply failfast_load_text|]. intros t.
    apply failfast_bind; [apply failfast_summarize_all|]. intros summaries.
    apply failfast_bind; [apply failfast_call_ollama|]. intros final_notes.
    apply failfast_write_text.
  - unfold TL.main. destruct (negb _); [apply failfast_raise|].
    apply failfast_bind; [apply failfast_split_audio|]. intros chunks.
    apply failfast_bind; [apply failfast_transcribe_chunks|]. intros full_text.
    apply failfast_write_text.
  - unfold TR.main. destruct (negb _); [apply failfast_ret|].
    apply failfast_bind; [apply failfast_load_text|]. intros t.
    apply failfast_bind; [apply failfast_translate_all|]. intros translated.
    apply failfast_write_text.
Qed.

Lemma failure_is_last_event_witness :
  failed (EvPost (lit "http://localhost:11434/api/generate")
            {| p_model := lit "llama3.1";
               p_prompt := translate_jp_to_en_ollama.translate_prompt (lit "こんにちは");
               p_stream := false |} 600 (inr (Response 500 None))) = true
  /\ length (snd (translate_jp_to_en_ollama.main failing_llm_world translate_args [])) = 1%nat.
Proof.
  split; [reflexivity|]. symmetry.
  apply (proj2 (proj2 (failure_is_last_event failing_llm_world)) translate_args 0%nat
           (EvPost (lit "http://localhost:11434/api/generate")
              {| p_model := lit "llama3.1";
                 p_prompt := translate_jp_to_en_ollama.translate_prompt (lit "こんにちは");
                 p_stream := false |} 600 (inr (Response 500 None))));
    vm_compute; reflexivity.
Defined.

(** ** The output file lies beside the input and is another file *)

Lemma rfind_from_spec c s : forall i best,
  rfind_from c s i best = best
  \/ (i <= rfind_from c s i best < i + len s
      /\ s !! Z.to_nat (rfind_from c s i best - i) = Some c).
Proof.
  induction s as [|x s IH]; intros i best; [by left|].
  cbn [rfind_from].
  destruct (IH (i + 1) (if x =? c then i else best)) as [Hr|[Hr Hl]].
  - rewrite Hr. destruct (x =? c) eqn:E; [|by left]. right.
    apply Z.eqb_eq in E as ->. split; [unfold len; cbn [length]; lia|].
    by rewrite Z.sub_diag.
  - right. split; [unfold len in *; cbn [length]; lia|].
    replace (Z.to_nat (rfind_from c s (i + 1) (if x =? c then i else best) - i))
      with (S (Z.to_nat (rfind_from c s (i + 1) (if x =? c then i else best) - (i + 1))))
      by lia.
    exact Hl.
Qed.

(** The name of a path is its stem followed by nothing or by a suffix
    that starts with a dot. *)
Lemma stem_then_suffix p :
  exists ext,
    path_name p = path_stem p ++ ext /\ (ext = [] \/ exists r, ext = 46 :: r).
Proof.
  unfold path_stem. set (name := path_name p).
  destruct (_ && _) eqn:Hcond.
  - apply andb_true_iff in Hcond as [Hpos Hlt].
    apply Z.ltb_lt in Hpos. apply Z.ltb_lt in Hlt.
    exists (skipn (Z.to_nat (rfind 46 name)) name).
    split; [by rewrite firstn_skipn|]. right.
    unfold rfind in *. destruct (rfind_from_spec 46 name 0 (-1)) as [Hr|[_ Hl]];
      [lia|].
    rewrite Z.sub_0_r in Hl. apply drop_S in Hl. by eexists.
  - exists []. split; [by rewrite app_nil_r | by left].
Qed.

Lemma derived_path_differs p suffix c r :
  suffix = c :: r -> c <> 46 ->
  path_with_name p (path_stem p ++ suffix) <> p.
Proof.
  intros -> Hc Heq. unfold path_with_name in Heq.
  destruct p as [|x p]; [done|].
  assert (Hp : x :: p = removelast (x :: p) ++ [path_name (x :: p)])
    by (by apply app_removelast_last).
  assert (E : removelast (x :: p) ++ [path_stem (x :: p) ++ c :: r]
              = removelast (x :: p) ++ [path_name (x :: p)])
    by (etrans; [exact Heq | exact Hp]).
  apply app_inv_head in E. injection E as E.
  destruct (stem_then_suffix (x :: p)) as (ext & Hname & Hext).
  rewrite Hname in E. apply app_inv_head in E.
  destruct Hext as [->|[r' ->]]; [done|]. injection E as -> _. done.
Qed.

Lemma derived_path_parent p n : path_parent (path_with_name p n) = path_parent p.
Proof. unfold path_parent, path_with_name. apply removelast_last. Qed.

Lemma writes_only_tidy out {A} (m : M A) Q : tidy m Q -> writes_only out m.
Proof.
  intros Hm tr. destruct (Hm tr) as (evs & Hs & Hw & _).
  exists evs. split; [done|]. intros e Hin He. exfalso.
  assert (In e (writes evs)) as H by (apply List.filter_In; by split).
  by rewrite Hw in H.
Qed.

Lemma writes_only_bind out {A B} (m : M A) (k : A -> M B) :
  writes_only out m -> (forall a, writes_only out (k a)) ->
  writes_only out (bind m k).
Proof.
  intros Hm Hk tr. rewrite bind_run.
  destruct (Hm tr) as (e1 & Hs1 & H1).
  destruct (fst (m tr)) as [e|a].
  - exists e1. by split.
  - rewrite Hs1. destruct (Hk a (tr ++ e1)) as (e2 & Hs2 & H2).
    exists (e1 ++ e2). split; [by rewrite Hs2, app_assoc|].
    intros e [Hin|Hin]%in_app_or; [by apply H1 | by apply H2].
Qed.

Lemma writes_only_write w out content : writes_only out (write_text w out content).
Proof.
  intros tr. unfold write_text, perform. cbn [snd].
  eexists [_]. split; [done|].
  intros e [<-|[]] _. by eexists _, _.
Qed.

Lemma writes_only_run out (m : M unit) e :
  writes_only out m -> In e (snd (m [])) -> is_write e = true ->
  exists content result, e = EvWrite out content result.
Proof.
  intros Hm Hin He. destruct (Hm []) as (evs & Hs & H).
  rewrite Hs in Hin. by apply H.
Qed.

(** X11. Whatever write a stage starts, it is a write to one file only:
    the file in the directory of the input whose name is the input's stem
    followed by the stage's suffix ([_NOTES_ollama.txt],
    [_transcript_ja.txt], [_EN.txt]); and that file is never the input
    file itself. *)
Theorem output_beside_input (w : world) (e : event) :
  (forall a,
     In e (snd (lecture_notes_ollama.main w a [])) -> is_write e = true ->
     let input := lecture_notes_ollama.transcript_file a in
     exists out content result,
       e = EvWrite out content result
       /\ out = path_with_name input (path_stem input ++ lit "_NOTES_ollama.txt")
       /\ path_parent out = path_parent input /\ out <> input)
  /\ (forall a,
        In e (snd (transcribe_lecture.main w a [])) -> is_write e = true ->
        let input := transcribe_lecture.audio_file a in
        exists out content result,
          e = EvWrite out content result
          /\ out = path_with_name input (path_stem input ++ lit "_transcript_ja.txt")
          /\ path_parent out = path_parent input /\ out <> input)
  /\ (forall a,
        In e (snd (translate_jp_to_en_ollama.main w a [])) -> is_write e = true ->
        let input := translate_jp_to_en_ollama.input_file a in
        exists out content result,
          e = EvWrite out content result
          /\ out = path_with_name input (path_stem input ++ lit "_EN.txt")
          /\ path_parent out = path_parent input /\ out <> input).
Proof.
  assert (Hout : forall input suffix (m : M unit),
             (exists c r, suffix = c :: r /\ c <> 46) ->
             writes_only (path_with_name input (path_stem input ++ suffix)) m ->
             In e (snd (m [])) -> is_write e = true ->
             exists out content result,
               e = EvWrite out content result
               /\ out = path_with_name input (path_stem input ++ suffix)
               /\ path_parent out = path_parent input /\ out <> input).
  { intros input suffix m (c & r & Hs & Hc) Hm Hin He.
    destruct (writes_only_run _ m e Hm Hin He) as (content & result & ->).
    eexists _, content, result. split; [reflexivity|]. split; [reflexivity|].
    split; [apply derived_path_parent | by eapply derived_path_differs]. }
  split; [|split]; intros a Hin He; cbv zeta.
  - apply (Hout _ _ (LN.main w a)); [by vm_compute; eexists _, _| |done|done].
    unfold LN.main. destruct (negb _).
    { eapply writes_only_tidy. by apply tidy_ret with (Q := fun _ _ => True). }
    apply writes_only_bind; [eapply writes_only_tidy, tidy_load_text|]. intros t.
    apply writes_only_bind; [eapply writes_only_tidy, tidy_summarize_all|].
    intros summaries.
    apply writes_only_bind; [eapply writes_only_tidy, tidy_call_ollama|].
    intros final_notes. apply writes_only_write.
  - apply (Hout _ _ (TL.main w a)); [by vm_compute; eexists _, _| |done|done].
    unfold TL.main. destruct (negb _).
    { eapply writes_only_tidy. apply tidy_raise with (Q := fun _ _ => True). }
    apply writes_only_bind; [eapply writes_only_tidy, tidy_split_audio|].
    intros chunks.
    apply writes_only_bind; [eapply writes_only_tidy, tidy_transcribe_chunks|].
    intros full_text. apply writes_only_write.
  - apply (Hout _ _ (TR.main w a)); [by vm_compute; eexists _, _| |done|done].
    unfold TR.main. destruct (negb _).
    { eapply writes_only_tidy. by apply tidy_ret with (Q := fun _ _ => True). }
    apply writes_only_bind; [eapply writes_only_tidy, tidy_load_text|]. intros t.
    apply writes_only_bind; [eapply writes_only_tidy, tidy_translate_all|].
    intros translated. apply writes_only_write.
Qed.

Lemma output_beside_input_witness :
  let e := EvWrite [lit "lectures"; lit "week7_transcript_ja_NOTES_ollama.txt"]
                   (lit "ok") (inr tt) in
  In e (snd (lecture_notes_ollama.main working_llm_world notes_args []))
  /\ is_write e = true
  /\ exists out content result,
       e = EvWrite out content result
       /\ out = path_with_name (lecture_notes_ollama.transcript_file notes_args)
                  (path_stem (lecture_notes_ollama.transcript_file notes_args)
                   ++ lit "_NOTES_ollama.txt")
       /\ path_parent out = path_parent (lecture_notes_ollama.transcript_file notes_args)
       /\ out <> lecture_notes_ollama.transcript_file notes_args.
Proof.
  intros e.
  assert (Hin : In e (snd (lecture_notes_ollama.main working_llm_world notes_args [])))
    by (vm_compute; tauto).
  split; [exact Hin|]. split; [reflexivity|].
  exact (proj1 (output_beside_input working_llm_world e) notes_args Hin eq_refl).
Defined.

(** ** What [split_audio] returns, and how it fails *)

Lemma path_ltb_le p q : path_ltb p q = true -> path_le p q.
Proof.
  unfold path_ltb, path_le. intros H. apply negb_true_iff in H.
  by apply path_leb_total.
Qed.

Lemma path_not_ltb_le p q : path_ltb p q = false -> path_le q p.
Proof. unfold path_ltb, path_le. intros H. by apply negb_false_iff in H. Qed.

Lemma insert_sorted_perm x l : Permutation (insert_sorted x l) (x :: l).
Proof.
  induction l as [|y l IH]; simpl; [done|].
  destruct (path_ltb x y); [done|].
  etrans; [apply perm_skip, IH | apply perm_swap].
Qed.

Lemma sorted_perm l : Permutation (sorted l) l.
Proof.
  induction l as [|x l IH]; simpl; [done|].
  etrans; [apply insert_sorted_perm | by apply perm_skip].
Qed.

Lemma insert_sorted_Sorted x l :
  Sorted path_le l -> Sorted path_le (insert_sorted x l).
Proof.
  induction 1 as [|y l Hl IH Hy]; simpl; [by repeat constructor|].
  destruct (path_ltb x y) eqn:E.
  - constructor; [by constructor|]. constructor. by apply path_ltb_le.
  - constructor; [done|].
    destruct l as [|z l]; simpl.
    + constructor. by apply path_not_ltb_le.
    + destruct (path_ltb x z); constructor;
        [by apply path_not_ltb_le | by inversion Hy].
Qed.

Lemma sorted_Sorted l : Sorted path_le (sorted l).
Proof.
  induction l as [|x l IH]; simpl; [constructor|].
  by apply insert_sorted_Sorted.
Qed.

(** X12. When [split_audio] returns, the chunk directory could be made
    and the demuxer has exited with 0, and the result is not empty, is
    sorted in the order of paths, and is a rearrangement of exactly the
    entries of the chunk directory that match [chunk_*.m4a]: nothing is
    added, lost or listed twice. *)
Theorem split_audio_sorted_rearrangement
        (w : world) (input_path : path) (chunk_seconds : Z)
        (tr : list event) (chunks : list path) :
  fst (transcribe_lecture.split_audio w input_path chunk_seconds tr) = inr chunks ->
  fs_mkdir w tr (transcribe_lecture.chunk_dir_of input_path) = inr tt
  /\ run_process w (tr ++ [EvMkdir (transcribe_lecture.chunk_dir_of input_path) (inr tt)])
                 (transcribe_lecture.ffmpeg_cmd input_path chunk_seconds) = inr 0
  /\ chunks <> []
  /\ Sorted path_le chunks
  /\ Permutation chunks
       (List.map (path_div (transcribe_lecture.chunk_dir_of input_path))
          (List.filter transcribe_lecture.matches_chunk_glob
             (fs_listdir w (trace_before_glob tr input_path chunk_seconds)
                         (transcribe_lecture.chunk_dir_of input_path)))).
Proof.
  rewrite split_audio_run. cbv zeta.
  destruct (fs_mkdir w tr _) as [e|[]]; [done|].
  destruct (run_process w _ _) as [e|rc]; [done|].
  destruct (rc =? 0) eqn:Hrc; [|done]. apply Z.eqb_eq in Hrc as ->.
  fold (trace_before_glob tr input_path chunk_seconds).
  set (found := List.map _ _).
  pose proof (sorted_perm found) as Hperm. pose proof (sorted_Sorted found) as Hsorted.
  destruct (sorted found) as [|c cs]; [done|]. cbn [fst].
  intros [= <-]. by repeat split.
Qed.

Lemma split_audio_sorted_rearrangement_witness :
  let chunks := List.map (path_div (transcribe_lecture.chunk_dir_of lecture_m4a))
                         (segment_names 3) in
  fst (transcribe_lecture.split_audio three_segment_world lecture_m4a 600 []) = inr chunks
  /\ chunks <> [] /\ Sorted path_le chunks.
Proof.
  intros chunks.
  assert (H : fst (transcribe_lecture.split_audio three_segment_world lecture_m4a 600 [])
              = inr chunks) by (vm_compute; reflexivity).
  split; [exact H|].
  destruct (split_audio_sorted_rearrangement _ _ _ _ _ H) as (_ & _ & H2 & H3 & _).
  by split.
Defined.

(** X13. Listing a directory does not raise ([glob] yields nothing for
    a directory it cannot read), so [split_audio] fails in exactly four
    ways, and a failure is the last thing it does.  The chunk
    directory cannot be made: the exception of [mkdir] is raised and the
    demuxer is never started.  The demuxer cannot be started: the
    exception of the attempt is raised.  The demuxer exits with a code
    other than 0: [CalledProcessError] with that code is raised and the
    chunk directory is not listed.  The demuxer exits with 0 but no
    entry of the directory matches [chunk_*.m4a]: the program exits with
    status 1.  Each of the four conditions leads to its failure. *)
Theorem split_audio_failures
        (w : world) (input_path : path) (chunk_seconds : Z) (tr : list event)
        (e : exn) :
  let dir := transcribe_lecture.chunk_dir_of input_path in
  let cmd := transcribe_lecture.ffmpeg_cmd input_path chunk_seconds in
  let made := tr ++ [EvMkdir dir (inr tt)] in
  let run := transcribe_lecture.split_audio w input_path chunk_seconds tr in
  fst run = inl e
  <-> (fs_mkdir w tr dir = inl e
       /\ snd run = tr ++ [EvMkdir dir (inl e)])
      \/ (fs_mkdir w tr dir = inr tt
          /\ run_process w made cmd = inl e
          /\ snd run = made ++ [EvRun cmd (inl e)])
      \/ (exists returncode,
            fs_mkdir w tr dir = inr tt
            /\ run_process w made cmd = inr returncode
            /\ returncode <> 0
            /\ e = CalledProcessError returncode
            /\ snd run = made ++ [EvRun cmd (inr returncode)])
      \/ (fs_mkdir w tr dir = inr tt
          /\ run_process w made cmd = inr 0
          /\ List.filter transcribe_lecture.matches_chunk_glob
               (fs_listdir w (trace_before_glob tr input_path chunk_seconds) dir) = []
          /\ e = SystemExit 1
          /\ snd run = made ++ [EvRun cmd (inr 0); EvGlob dir []]).
Proof.
  cbv zeta. rewrite split_audio_run. cbv zeta.
  set (dir := TL.chunk_dir_of input_path).
  set (cmd := TL.ffmpeg_cmd input_path chunk_seconds).
  unfold trace_before_glob. fold dir. fold cmd.
  destruct (fs_mkdir w tr dir) as [e0|[]].
  { cbn [fst snd]. split.
    - intros [= ->]. left. by split.
    - intros [[[= ->] _]|[(H & _)|[(rc & H & _)|(H & _)]]]; done. }
  destruct (run_process w (tr ++ [EvMkdir dir (inr tt)]) cmd) as [e0|rc].
  { cbn [fst snd]. split.
    - intros [= ->]. right. left. by repeat split.
    - intros [[H _]|[(_ & [= ->] & _)|[(rc & _ & H & _)|(_ & H & _)]]]; done. }
  destruct (Z.eqb_spec rc 0) as [->|Hrc].
  - set (listed := List.filter TL.matches_chunk_glob _).
    destruct listed as [|n ns] eqn:El.
    + cbn [List.map sorted fst snd]. split.
      * intros [= <-]. right. right. right. rewrite <- app_assoc. by repeat split.
      * intros [[H _]|[(_ & H & _)|[(rc & _ & [= <-] & Hne & _)|(_ & _ & _ & -> & _)]]];
          done.
    + pose proof (sorted_perm (List.map (path_div dir) (n :: ns))) as Hperm.
      destruct (sorted (List.map (path_div dir) (n :: ns))) as [|c cs] eqn:Es.
      { apply Permutation_nil in Hperm. done. }
      cbn [fst snd]. split; [done|].
      intros [[H _]|[(_ & H & _)|[(rc & _ & [= <-] & Hne & _)|(_ & _ & H & _)]]];
        done.
  - cbn [fst snd]. split.
    + intros [= <-]. right. right. left. exists rc. by repeat split.
    + intros [[H _]|[(_ & H & _)|[(rc' & _ & [= <-] & _ & -> & _)|(_ & [= ->] & _)]]];
        done.
Qed.

Lemma split_audio_failures_witness :
  fst (transcribe_lecture.split_audio blocked_dir_world lecture_m4a 600 [])
  = inl FileExistsError
  /\ snd (transcribe_lecture.split_audio blocked_dir_world lecture_m4a 600 [])
     = [EvMkdir (transcribe_lecture.chunk_dir_of lecture_m4a) (inl FileExistsError)]
  /\ fst (transcribe_lecture.split_audio no_demuxer_world lecture_m4a 600 [])
     = inl OSError
  /\ fst (transcribe_lecture.split_audio missing_input_world lecture_m4a 600 [])
     = inl (CalledProcessError 1)
  /\ fst (transcribe_lecture.split_audio working_llm_world lecture_m4a 600 [])
     = inl (SystemExit 1).
Proof.
  assert (H1 : fst (transcribe_lecture.split_audio blocked_dir_world lecture_m4a 600 [])
               = inl FileExistsError) by reflexivity.
  split; [exact H1|]. split.
  - destruct (proj1 (split_audio_failures blocked_dir_world lecture_m4a 600 []
                       FileExistsError) H1)
      as [[_ H]|[(H & _)|[(rc & H & _)|(H & _)]]];
      [exact H | discriminate H | discriminate H | discriminate H].
  - split; [|split].
    + apply (proj2 (split_audio_failures no_demuxer_world lecture_m4a 600 [] OSError)).
      right. left. split; [reflexivity|]. split; reflexivity.
    + apply (proj2 (split_audio_failures missing_input_world lecture_m4a 600 []
                      (CalledProcessError 1))).
      right. right. left. exists 1.
      split; [reflexivity|]. split; [reflexivity|]. split; [discriminate|].
      split; reflexivity.
    + apply (proj2 (split_audio_failures working_llm_world lecture_m4a 600 []
                      (SystemExit 1))).
      right. right. right.
      split; [reflexivity|]. split; [reflexivity|]. split; [reflexivity|].
      split; reflexivity.
Defined.

(** ** The names the demuxer writes and the names the glob picks up *)

Lemma startswith_prefix p r : startswith p (p ++ r) = true.
Proof. induction p as [|a p IH]; simpl; [done|]. by rewrite Z.eqb_refl. Qed.

Lemma endswith_suffix s r : endswith s (r ++ s) = true.
Proof. unfold endswith. rewrite rev_app_distr. apply startswith_prefix. Qed.

(** X14. Every name the demuxer forms from the pattern [chunk_%03d.m4a]
    passed to it matches the glob [chunk_*.m4a] that collects the
    segments, whatever the index (also past 999, where the name has more
    than three digits): no segment is left out for its name. *)
Theorem segment_names_match_glob (i : Z) :
  transcribe_lecture.matches_chunk_glob (transcribe_lecture.chunk_file_name i) = true.
Proof.
  unfold TL.matches_chunk_glob, TL.chunk_file_name.
  rewrite startswith_prefix.
  rewrite (app_assoc (lit "chunk_")), endswith_suffix. cbn [andb].
  apply Z.leb_le. unfold len. rewrite !length_app.
  change (length (lit "chunk_")) with 6%nat.
  change (length (lit ".m4a")) with 4%nat. lia.
Qed.

(** ** Runs on a missing or blank input *)







(** ** No carriage return reaches a Unit *)

Lemma replace_cr_clean k s :
  Forall (fun c => c <> CR) (str_replace_from [CR] [NL] k s).
Proof.
  revert k. induction s as [|c s IH]; intros k; cbn [str_replace_from]; [constructor|].
  destruct k as [|k]; [|apply IH].
  cbn [startswith]. destruct (CR =? c) eqn:E; cbn [andb].
  - cbn [app length Nat.sub]. constructor; [done | apply IH].
  - constructor; [|apply IH]. apply Z.eqb_neq in E. congruence.
Qed.

Lemma cons_head_Forall (P : Z -> Prop) c parts :
  P c -> Forall (Forall P) parts -> Forall (Forall P) (cons_head c parts).
Proof.
  intros Hc Hparts. destruct parts as [|p ps]; cbn [cons_head].
  - by repeat constructor.
  - inversion Hparts; subst. constructor; [by constructor | done].
Qed.

Lemma split_from_Forall (P : Z -> Prop) sep k s :
  Forall P s -> Forall (Forall P) (str_split_from sep k s).
Proof.
  intros Hs. revert k.
  induction Hs as [|c s Hc Hs IH]; intros k; cbn [str_split_from].
  - by repeat constructor.
  - destruct k as [|k]; [|apply IH].
    destruct (startswith sep (c :: s)).
    + constructor; [constructor | apply IH].
    + by apply cons_head_Forall.
Qed.

Lemma lstrip_Forall (P : Z -> Prop) s : Forall P s -> Forall P (str_lstrip s).
Proof.
  induction 1 as [|c s Hc Hs IH]; cbn [str_lstrip]; [constructor|].
  destruct (isspace c); [done | by constructor].
Qed.

Lemma strip_Forall (P : Z -> Prop) s : Forall P s -> Forall P (str_strip s).
Proof.
  intros Hs. unfold str_strip, str_rstrip.
  apply Forall_rev, lstrip_Forall, Forall_rev. by apply lstrip_Forall.
Qed.

Lemma join_Forall (P : Z -> Prop) sep parts :
  Forall P sep -> Forall (Forall P) parts -> Forall P (str_join sep parts).
Proof.
  intros Hsep. induction 1 as [|p ps Hp Hps IH]; [constructor|].
  destruct ps as [|q ps]; [done|].
  change (Forall P (p ++ sep ++ str_join sep (q :: ps))).
  apply Forall_app; split; [done|]. by apply Forall_app.
Qed.

Lemma chunk_step_Forall (P : Z -> Prop) m st line :
  P NL -> Forall P line ->
  Forall (Forall P) (LN.chunks st) /\ Forall (Forall P) (LN.current st) ->
  Forall (Forall P) (LN.chunks (LN.chunk_step m st line))
  /\ Forall (Forall P) (LN.current (LN.chunk_step m st line)).
Proof.
  intros HNL Hline [Hch Hcur]. unfold LN.chunk_step.
  assert (Hl : Forall P (if negb (truthy (str_strip line)) then [] else str_strip line)).
  { destruct (negb _); [constructor | by apply strip_Forall]. }
  destruct (_ && _); cbn [LN.chunks LN.current]; split; try done.
  - apply Forall_app; split; [done|]. constructor; [|constructor].
    apply strip_Forall, join_Forall; [by constructor | done].
  - by repeat constructor.
  - apply Forall_app; split; [done | by repeat constructor].
Qed.

Lemma para_step_Forall (P : Z -> Prop) m st para :
  P NL -> Forall P para ->
  Forall (Forall P) (TR.chunks st) /\ Forall (Forall P) (TR.current st) ->
  Forall (Forall P) (TR.chunks (TR.para_step m st para))
  /\ Forall (Forall P) (TR.current (TR.para_step m st para)).
Proof.
  intros HNL Hpara [Hch Hcur]. unfold TR.para_step.
  pose proof (strip_Forall P para Hpara) as Hp.
  destruct (negb _); [done|].
  destruct (_ && _); cbn [TR.chunks TR.current]; split; try done.
  - apply Forall_app; split; [done|]. constructor; [|constructor].
    apply join_Forall; [by repeat constructor | done].
  - by repeat constructor.
  - apply Forall_app; split; [done | by repeat constructor].
Qed.

Lemma chunk_fold_Forall (P : Z -> Prop) m lines st :
  P NL -> Forall (Forall P) lines ->
  Forall (Forall P) (LN.chunks st) /\ Forall (Forall P) (LN.current st) ->
  Forall (Forall P) (LN.chunks (fold_left (LN.chunk_step m) lines st))
  /\ Forall (Forall P) (LN.current (fold_left (LN.chunk_step m) lines st)).
Proof.
  intros HNL Hlines. revert st.
  induction Hlines as [|l lines Hl Hlines IH]; intros st Hst; [done|].
  cbn [fold_left]. apply IH. by apply chunk_step_Forall.
Qed.

Lemma para_fold_Forall (P : Z -> Prop) m paras st :
  P NL -> Forall (Forall P) paras ->
  Forall (Forall P) (TR.chunks st) /\ Forall (Forall P) (TR.current st) ->
  Forall (Forall P) (TR.chunks (fold_left (TR.para_step m) paras st))
  /\ Forall (Forall P) (TR.current (fold_left (TR.para_step m) paras st)).
Proof.
  intros HNL Hparas. revert st.
  induction Hparas as [|p paras Hp Hparas IH]; intros st Hst; [done|].
  cbn [fold_left]. apply IH. by apply para_step_Forall.
Qed.

(** X17. No Unit holds a carriage return: whatever line endings the
    input uses ([\r\n], a lone [\r] or [\n]), the Units of [chunk_text]
    and the chunks of the translation stage break lines with [\n] only. *)
Theorem units_have_no_carriage_return (t : text) (max_chars : Z) :
  (forall u, In u (lecture_notes_ollama.chunk_text t max_chars) -> ~ In CR u)
  /\ (forall u, In u (translate_jp_to_en_ollama.chunk_paragraphs t max_chars) ->
                ~ In CR u).
Proof.
  set (P := fun c : Z => c <> CR).
  assert (HNL : P NL) by done.
  assert (Hnorm : Forall P (str_replace [CR] [NL] (str_replace [CR; NL] [NL] t)))
    by apply replace_cr_clean.
  assert (Hclean : forall u : text, Forall P u -> ~ In CR u).
  { intros u Hu Hin. rewrite List.Forall_forall in Hu. by apply (Hu CR Hin). }
  split; intros u Hu; apply Hclean.
  - unfold LN.chunk_text in Hu. apply List.filter_In in Hu as [Hu _].
    destruct (chunk_fold_Forall P max_chars
                (str_split [NL] (LN.normalize_newlines t))
                {| LN.chunks := []; LN.current := []; LN.current_len := 0 |} HNL)
      as [Hch Hcur]; [by apply split_from_Forall | by split |].
    fold (LN.chunk_loop max_chars (str_split [NL] (LN.normalize_newlines t))) in Hch, Hcur.
    revert Hu. cbv zeta.
    set (st := LN.chunk_loop _ _) in *. intros Hu.
    assert (Hall : Forall (Forall P)
                     (if nonempty (LN.current st)
                      then LN.chunks st ++ [str_strip (str_join [NL] (LN.current st))]
                      else LN.chunks st)).
    { destruct (nonempty _); [|done]. apply Forall_app; split; [done|].
      constructor; [|constructor].
      apply strip_Forall, join_Forall; [by constructor | done]. }
    rewrite List.Forall_forall in Hall. by apply Hall.
  - unfold TR.chunk_paragraphs in Hu. revert Hu. cbv zeta.
    set (paras := str_split [NL; NL] _).
    set (st0 := {| TR.chunks := []; TR.current := []; TR.cur_len := 0 |}).
    destruct (para_fold_Forall P max_chars paras st0 HNL) as [Hch Hcur];
      [by apply split_from_Forall | by split |].
    set (st := fold_left _ _ _) in *. intros Hu.
    assert (Hall : Forall (Forall P)
                     (if nonempty (TR.current st)
                      then TR.chunks st ++ [str_join [NL; NL] (TR.current st)]
                      else TR.chunks st)).
    { destruct (nonempty _); [|done]. apply Forall_app; split; [done|].
      constructor; [|constructor].
      apply join_Forall; [by repeat constructor | done]. }
    rewrite List.Forall_forall in Hall. by apply Hall.
Qed.

Lemma units_have_no_carriage_return_witness :
  In [97; NL; 98; NL; 99]
     (lecture_notes_ollama.chunk_text [97; CR; NL; 98; CR; 99] 100)
  /\ ~ In CR [97; NL; 98; NL; 99].
Proof.
  assert (H : In [97; NL; 98; NL; 99]
                 (lecture_notes_ollama.chunk_text [97; CR; NL; 98; CR; 99] 100))
    by (vm_compute; tauto).
  split; [exact H|].
  exact (proj1 (units_have_no_carriage_return [97; CR; NL; 98; CR; 99] 100) _ H).
Defined.

Lemma no_units_iff_blank_witness :
  content [32; NL; 32] = []
  /\ lecture_notes_ollama.chunk_text [32; NL; 32] 10 = [].
Proof.
  split; [reflexivity|].
  exact (proj2 (proj1 (no_units_iff_blank [32; NL; 32] 10)) eq_refl).
Defined.

(* ===================================================================== *)
(** * The output file (C6)                                                *)
(* ===================================================================== *)

(** ** What has happened when the write starts *)







(** ** All or nothing, up to the write itself *)


(** A run of the notes stage that goes through: two chunks, three LLM
    calls, then the one write. *)
Example notes_run_demo :
  List.map is_call (snd (lecture_notes_ollama.main working_llm_world notes_args []))
  = [true; true; true; false]
  /\ writes (snd (lecture_notes_ollama.main working_llm_world notes_args []))
     = [EvWrite [lit "lectures"; lit "week7_transcript_ja_NOTES_ollama.txt"]
                (lit "ok") (inr tt)].
Proof. split; vm_compute; reflexivity. Qed.


(** A status that is not a success is not always a failure for the code:
    [raise_for_status] raises from 400 to 599 only.  An endpoint that
    answers 300 with a usable body is treated like one that answers 200,
    and the output is written. *)
Example status_300_still_writes :
  let run := translate_jp_to_en_ollama.main multiple_choices_world translate_args [] in
  is_error_status 300 = false
  /\ fst run = inr tt
  /\ List.map failed (snd run) = [false; false]
  /\ writes (snd run)
     = [EvWrite [lit "lectures"; lit "week7_transcript_ja_EN.txt"] (lit "ok") (inr tt)].
Proof. cbv zeta. split; [|split; [|split]]; vm_compute; reflexivity. Qed.

